(** * SkyFi MCP server: protocol state machine and HTTP/SSE transport

    A shallow embedding of [src/server/protocol.ts], [src/server/mcp-server.ts]
    and [src/server/transport.ts], together with the parts of the JavaScript
    runtime these files call ([JSON.parse], [JSON.stringify],
    [Date.prototype.toISOString]) and of the two libraries they are written
    against (zod schemas, the Express middleware chain). *)

From Stdlib Require Import ZArith QArith Qpower String Ascii List Bool Lia.
From stdpp Require Import base option list gmap strings.

Local Open Scope Z_scope.

(** ** Characters and strings

    JavaScript strings are modelled by Rocq strings: a character is one byte of
    the UTF-8 form of the text. *)

Definition dquote : ascii := ascii_of_nat 34.
Definition backslash : ascii := ascii_of_nat 92.
Definition newline : ascii := ascii_of_nat 10.

Definition str1 (c : ascii) : string := String c EmptyString.

Definition code (c : ascii) : Z := Z.of_N (N_of_ascii c).
Definition char_of_code (n : Z) : ascii := ascii_of_N (Z.to_N n).

Fixpoint strip_prefix (p s : string) : option string :=
  match p, s with
  | EmptyString, _ => Some s
  | String a p', String b s' => if Ascii.eqb a b then strip_prefix p' s' else None
  | String _ _, EmptyString => None
  end.

(** [String.prototype.includes]. *)
Fixpoint includes (needle hay : string) : bool :=
  match strip_prefix needle hay with
  | Some _ => true
  | None => match hay with
            | EmptyString => false
            | String _ hay' => includes needle hay'
            end
  end.

(** ** IEEE-754 double arithmetic

    A JavaScript number is a double.  A finite double of magnitude [m * 2^e]
    is the pair [(m, e)] with [2^52 <= m < 2^53] and [-1074 <= e], or
    [m < 2^52] and [e = -1074] (a subnormal number, or zero). *)

Module IEEE.

Definition emin : Z := -1074.
Definition emax : Z := 971.

(** [n/d >= 2^l]. *)
Definition ge_pow2 (n d l : Z) : bool :=
  if 0 <=? l then d * 2 ^ l <=? n else d <=? n * 2 ^ (- l).

(** The [l] with [2^l <= n/d < 2^(l+1)], for positive [n] and [d]. *)
Definition ilog2 (n d : Z) : Z :=
  let l := Z.log2 n - Z.log2 d in
  if ge_pow2 n d l then l else l - 1.

(** The integer nearest to [p/q], the even one of two that are as near. *)
Definition rne (p q : Z) : Z :=
  let f := p / q in
  let r := p mod q in
  if 2 * r <? q then f
  else if q <? 2 * r then f + 1
  else if Z.even f then f else f + 1.

(** The double nearest to [n/d], for positive [n] and [d]: round to nearest,
    ties to even, 53 bits, no exponent below [emin].  The exponent is not
    bounded above: a result whose exponent is beyond [emax] stands for an
    overflow. *)
Definition round (n d : Z) : Z * Z :=
  let e := Z.max (ilog2 n d - 52) emin in
  let m := if 0 <=? e then rne n (d * 2 ^ e) else rne (n * 2 ^ (- e)) d in
  if m =? 2 ^ 53 then (2 ^ 52, e + 1) else (m, e).

Definition canonical (x : Z * Z) : bool :=
  let (m, e) := x in
  ((2 ^ 52 <=? m) && (m <? 2 ^ 53) && (emin <=? e))
  || ((0 <=? m) && (m <? 2 ^ 52) && (e =? emin)).

Definition value (x : Z * Z) : Q := (inject_Z (fst x) * 2 ^ snd x)%Q.

(** The double nearest to a rational, as a rational. *)
Definition round_Q (v : Q) : Q :=
  match Qnum v with
  | 0 => 0%Q
  | Zpos p => value (round (Zpos p) (Zpos (Qden v)))
  | Zneg p => (- value (round (Zpos p) (Zpos (Qden v))))%Q
  end.

(** [x - y] and [x / y] on doubles. *)
Definition sub (x y : Q) : Q := round_Q (x - y).
Definition div (x y : Q) : Q := round_Q (x / y).

(** A positive rational that is a double. *)
Definition is_double (c : Q) : Prop := (0 < c)%Q /\ (round_Q c == c)%Q.

(** [2^e] and [n/d] as rationals; the fraction whose nearest integer is the
    mantissa of [round n d] at the exponent [e]. *)
Definition pow2 (e : Z) : Q := (2 ^ e)%Q.
Definition frac (n d : Z) : Q := (inject_Z n / inject_Z d)%Q.
Definition scaled_num (n e : Z) : Z := n * 2 ^ Z.max 0 (- e).
Definition scaled_den (d e : Z) : Z := d * 2 ^ Z.max 0 e.

End IEEE.

(** ** JavaScript values that JSON can carry *)

Module JSON.

(** A number is an IEEE-754 double in JavaScript.  The model names a finite
    double by the decimal [m * 10^e] that [Number::toString] writes for it:
    the shortest decimal that reads back as the double, in the normal form in
    which [m] is not a multiple of ten (zero is [Finite 0 0]).  [JSON.parse]
    rounds the value of a literal to the nearest double and returns an
    infinity beyond the range.  The sign of zero is not modelled. *)
Inductive JSNumber :=
| Finite (m e : Z)
| PosInfinity
| NegInfinity.

(** Property order is insertion order; integer-like keys are not moved to the
    front as a JavaScript engine does. *)
#[local] Unset Elimination Schemes.
Inductive JSValue :=
| JNull
| JBool (b : bool)
| JNum (n : JSNumber)
| JStr (s : string)
| JArr (elems : list JSValue)
| JObj (props : list (string * JSValue)).
#[local] Set Elimination Schemes.

Definition is_finite (n : JSNumber) : bool :=
  match n with Finite _ _ => true | _ => false end.

(** [obj[k]]: [None] stands for [undefined]. *)
Fixpoint obj_get (k : string) (props : list (string * JSValue)) : option JSValue :=
  match props with
  | [] => None
  | (k', v) :: rest => if String.eqb k k' then Some v else obj_get k rest
  end.

(** [obj[k] = v]: an existing property keeps its place. *)
Fixpoint obj_set (k : string) (v : JSValue) (props : list (string * JSValue))
  : list (string * JSValue) :=
  match props with
  | [] => [(k, v)]
  | (k', v') :: rest =>
      if String.eqb k k' then (k, v) :: rest else (k', v') :: obj_set k v rest
  end.

(** [v[k]] on any value: only objects have properties in this model. *)
Definition get (k : string) (v : JSValue) : option JSValue :=
  match v with
  | JObj props => obj_get k props
  | _ => None
  end.

(** *** Decimal digits *)

Definition digit_of (c : ascii) : option Z :=
  let n := code c in
  if (48 <=? n) && (n <=? 57) then Some (n - 48) else None.

Definition digit_char (d : Z) : ascii := char_of_code (48 + d).

Fixpoint digits_string (ds : list Z) : string :=
  match ds with
  | [] => EmptyString
  | d :: ds' => String (digit_char d) (digits_string ds')
  end.

Definition digits_value (ds : list Z) : Z :=
  fold_left (fun acc d => acc * 10 + d) ds 0.

Fixpoint Z_digits_aux (fuel : nat) (n : Z) (acc : list Z) : list Z :=
  match fuel with
  | O => acc
  | S fuel' =>
      if n <? 10 then n :: acc
      else Z_digits_aux fuel' (n / 10) (n mod 10 :: acc)
  end.

(** The decimal digits of a non-negative integer, most significant first. *)
Definition Z_digits (n : Z) : list Z :=
  Z_digits_aux (S (Z.to_nat (Z.log2 n))) n [].

Fixpoint scan_digits (s : string) : list Z * string :=
  match s with
  | EmptyString => ([], s)
  | String c s' =>
      match digit_of c with
      | Some d => let (ds, r) := scan_digits s' in (d :: ds, r)
      | None => ([], s)
      end
  end.

Fixpoint drop_zeros (ds : list Z) : list Z :=
  match ds with
  | d :: ds' => if d =? 0 then drop_zeros ds' else ds
  | [] => []
  end.

Definition strip_trailing_zeros (ds : list Z) : list Z :=
  rev (drop_zeros (rev ds)).

(** *** Numbers: literal to value, value to literal *)

(** A literal whose value is at least [2^1024 - 2^970] rounds to infinity. *)
Definition double_overflow_bound : Z := 2 ^ 1024 - 2 ^ 970.

(** The value [s * 10^de] as a fraction. *)
Definition decimal_fraction (s de : Z) : Z * Z :=
  if 0 <=? de then (s * 10 ^ de, 1) else (s, 10 ^ (- de)).

(** The double nearest to [s * 10^de], for a positive [s]. *)
Definition round_decimal (s de : Z) : Z * Z :=
  let (n, d) := decimal_fraction s de in IEEE.round n d.

Definition double_fraction (x : Z * Z) : Z * Z :=
  let (m, e) := x in
  if 0 <=? e then (m * 2 ^ e, 1) else (m, 2 ^ (- e)).

Fixpoint normalize_aux (fuel : nat) (s de : Z) : Z * Z :=
  match fuel with
  | O => (s, de)
  | S fuel' =>
      if s mod 10 =? 0 then normalize_aux fuel' (s / 10) (de + 1) else (s, de)
  end.

(** The normal form of [s * 10^de]: no trailing zero in [s]. *)
Definition normalize (s de : Z) : Z * Z :=
  normalize_aux (S (Z.to_nat (Z.log2 s))) s de.

(** [n/d >= 10^l]. *)
Definition ge_pow10 (n d l : Z) : bool :=
  if 0 <=? l then d * 10 ^ l <=? n else d <=? n * 10 ^ (- l).

Definition decimal_length (n : Z) : Z := Z.of_nat (length (Z_digits n)).

(** The [n] of [Number::toString]: [10^(n-1) <= vn/vd < 10^n]. *)
Definition decimal_exponent (vn vd : Z) : Z :=
  let l := decimal_length vn - decimal_length vd in
  if ge_pow10 vn vd l then l + 1 else l.

(** The integers next to [vn/vd * 10^(k-n)], the nearer one first (the even
    one first when both are as near). *)
Definition candidates (vn vd n k : Z) : list Z :=
  let (tn, td) :=
    if n <=? k then (vn * 10 ^ (k - n), vd) else (vn, vd * 10 ^ (n - k)) in
  let lo := tn / td in
  let r := tn mod td in
  if r =? 0 then [lo]
  else if 2 * r <? td then [lo; lo + 1]
  else if td <? 2 * r then [lo + 1; lo]
  else if Z.even lo then [lo; lo + 1] else [lo + 1; lo].

Definition double_eqb (x y : Z * Z) : bool :=
  (fst x =? fst y) && (snd x =? snd y).

(** The decimal [s * 10^de] reads as the double [x]. *)
Definition reads_as (x : Z * Z) (s de : Z) : bool :=
  (0 <? s) && double_eqb (round_decimal s de) x.

Fixpoint first_reading (x : Z * Z) (de : Z) (cands : list Z) : option (Z * Z) :=
  match cands with
  | [] => None
  | s :: rest =>
      let (s', de') := normalize s de in
      if reads_as x s' de' then Some (s', de') else first_reading x de rest
  end.

(** The search of [Number::toString] for the least number [k] of digits, from
    [k] on: [s * 10^(n-k)] reads as [x], and [s] is as near to [x] as can be. *)
Fixpoint search (fuel : nat) (x : Z * Z) (vn vd n k : Z) : option (Z * Z) :=
  match fuel with
  | O => None
  | S fuel' =>
      match first_reading x (n - k) (candidates vn vd n k) with
      | Some r => Some r
      | None => search fuel' x vn vd n (k + 1)
      end
  end.

(** The decimal expansion of a double, which is finite. *)
Definition exact_decimal (x : Z * Z) : Z * Z :=
  let (m, e) := x in
  if 0 <=? e then normalize (m * 2 ^ e) 0 else normalize (m * 5 ^ (- e)) e.

(** The digits and the exponent that [Number::toString] writes for a positive
    double: seventeen digits are enough for every double. *)
Definition shortest (x : Z * Z) : Z * Z :=
  let (vn, vd) := double_fraction x in
  match search 17 x vn vd (decimal_exponent vn vd) 1 with
  | Some r => r
  | None => exact_decimal x
  end.

(** The double nearest to [m * 10^e], for a positive [m]. *)
Definition double_of_decimal (m e : Z) : JSNumber :=
  let x := round_decimal m e in
  if IEEE.emax <? snd x then PosInfinity
  else if fst x =? 0 then Finite 0 0
  else let (s, de) := shortest x in Finite s de.

Definition pow10 (e : Z) : Q := (10 ^ e)%Q.
Definition pow5 (e : Z) : Q := (5 ^ e)%Q.
Definition decimal_value (s de : Z) : Q := (inject_Z s * pow10 de)%Q.

Definition negate (n : JSNumber) : JSNumber :=
  match n with
  | Finite m e => Finite (- m) e
  | PosInfinity => NegInfinity
  | NegInfinity => PosInfinity
  end.

(** The number an integer stands for. *)
Definition number_of_Z (z : Z) : JSNumber :=
  if z =? 0 then Finite 0 0
  else if z <? 0 then negate (double_of_decimal (- z) 0)
  else double_of_decimal z 0.

Definition number_of_literal (neg : bool) (int_ds frac_ds : list Z) (exp : Z) : JSNumber :=
  let ds := int_ds ++ frac_ds in
  let sig := strip_trailing_zeros ds in
  let m := digits_value sig in
  let e := exp - Z.of_nat (length frac_ds) + Z.of_nat (length ds - length sig) in
  if m =? 0 then Finite 0 0
  else if neg then negate (double_of_decimal m e) else double_of_decimal m e.

(** The number grammar of JSON: an optional minus sign; an integer part that is
    a single zero or starts with a non-zero digit; an optional fraction of a
    point and at least one digit; an optional exponent of [e] or [E], an
    optional sign and at least one digit. *)
Definition parse_int_part (s : string) : option (list Z * string) :=
  match s with
  | String c s' =>
      match digit_of c with
      | Some d =>
          if d =? 0 then Some ([0], s')
          else let (ds, r) := scan_digits s' in Some (d :: ds, r)
      | None => None
      end
  | EmptyString => None
  end.

Definition parse_frac_part (s : string) : option (list Z * string) :=
  match s with
  | String c s' =>
      if Ascii.eqb c "." then
        match scan_digits s' with
        | ([], _) => None
        | (ds, r) => Some (ds, r)
        end
      else Some ([], s)
  | EmptyString => Some ([], s)
  end.

Definition parse_exp_digits (neg : bool) (s : string) : option (Z * string) :=
  match scan_digits s with
  | ([], _) => None
  | (ds, r) => Some (if neg then - digits_value ds else digits_value ds, r)
  end.

Definition parse_exp_part (s : string) : option (Z * string) :=
  match s with
  | String c s' =>
      if Ascii.eqb c "e" || Ascii.eqb c "E" then
        match s' with
        | String c' s'' =>
            if Ascii.eqb c' "+" then parse_exp_digits false s''
            else if Ascii.eqb c' "-" then parse_exp_digits true s''
            else parse_exp_digits false s'
        | EmptyString => None
        end
      else Some (0, s)
  | EmptyString => Some (0, s)
  end.

Definition parse_sign (s : string) : bool * string :=
  match s with
  | String c s' => if Ascii.eqb c "-" then (true, s') else (false, s)
  | EmptyString => (false, s)
  end.

Definition parse_unsigned (neg : bool) (s0 : string) : option (JSNumber * string) :=
  match parse_int_part s0 with
  | Some (ids, s1) =>
      match parse_frac_part s1 with
      | Some (fds, s2) =>
          match parse_exp_part s2 with
          | Some (ex, s3) => Some (number_of_literal neg ids fds ex, s3)
          | None => None
          end
      | None => None
      end
  | None => None
  end.

Definition parse_number (s : string) : option (JSNumber * string) :=
  let (neg, s0) := parse_sign s in parse_unsigned neg s0.

(** The numbers of the model that stand for a double: a finite one is zero,
    or the decimal that names the double nearest to it. *)
Definition valid_number (n : JSNumber) : Prop :=
  match n with
  | Finite m e =>
      (m = 0 /\ e = 0) \/ (m <> 0 /\ double_of_decimal (Z.abs m) e = Finite (Z.abs m) e)
  | _ => True
  end.

(** The text after a number literal does not go on as a number. *)
Definition ends_number (rest : string) : bool :=
  match rest with
  | EmptyString => true
  | String c _ =>
      match digit_of c with
      | Some _ => false
      | None => negb (Ascii.eqb c "." || Ascii.eqb c "e" || Ascii.eqb c "E")
      end
  end.

Fixpoint zeros (n : nat) : list Z :=
  match n with
  | O => []
  | S n' => 0 :: zeros n'
  end.

Definition exponent_string (ex : Z) : string :=
  String (if ex <? 0 then "-"%char else "+"%char) (digits_string (Z_digits (Z.abs ex))).

(** The five layouts of [Number::toString] in ECMA-262, for the [k] digits
    [ds] of a positive number [m * 10^e] and [n = k + e]: digits and zeros;
    digits with a point inside; a zero, a point, zeros and digits; one digit
    and an exponent; a digit, a point, digits and an exponent. *)
Definition number_layout (ds : list Z) (e : Z) : string :=
  let k := Z.of_nat (length ds) in
  let n := k + e in
  if (k <=? n) && (n <=? 21) then
    digits_string (ds ++ zeros (Z.to_nat (n - k)))
  else if (0 <? n) && (n <=? 21) then
    String.append (digits_string (take (Z.to_nat n) ds))
      (String "." (digits_string (drop (Z.to_nat n) ds)))
  else if (-6 <? n) && (n <=? 0) then
    String "0" (String "." (digits_string (zeros (Z.to_nat (- n)) ++ ds)))
  else
    match ds with
    | [] => EmptyString
    | [d] => String (digit_char d) (String "e" (exponent_string (n - 1)))
    | d :: rest =>
        String (digit_char d)
          (String "." (String.append (digits_string rest)
                         (String "e" (exponent_string (n - 1)))))
    end.

(** [Number::toString] for the finite number whose digits are those of [m]. *)
Definition NumberToString (m e : Z) : string :=
  if m =? 0 then "0"%string
  else if m <? 0 then String "-" (number_layout (Z_digits (Z.abs m)) e)
  else number_layout (Z_digits (Z.abs m)) e.

(** *** Strings: [QuoteJSONString] and its inverse *)

Definition hex_char (n : Z) : ascii :=
  if n <? 10 then char_of_code (48 + n) else char_of_code (87 + n).

Definition hex_of (c : ascii) : option Z :=
  let n := code c in
  if (48 <=? n) && (n <=? 57) then Some (n - 48)
  else if (97 <=? n) && (n <=? 102) then Some (n - 87)
  else if (65 <=? n) && (n <=? 70) then Some (n - 55)
  else None.

Definition hex4 (a b c d : ascii) : option Z :=
  match hex_of a, hex_of b, hex_of c, hex_of d with
  | Some x, Some y, Some z, Some w => Some (((x * 16 + y) * 16 + z) * 16 + w)
  | _, _, _, _ => None
  end.

(** The UTF-8 form of a code point (of a lone surrogate too). *)
Definition utf8_encode (cp : Z) : string :=
  if cp <? 128 then str1 (char_of_code cp)
  else if cp <? 2048 then
    String (char_of_code (192 + cp / 64)) (str1 (char_of_code (128 + cp mod 64)))
  else if cp <? 65536 then
    String (char_of_code (224 + cp / 4096))
      (String (char_of_code (128 + (cp / 64) mod 64))
         (str1 (char_of_code (128 + cp mod 64))))
  else
    String (char_of_code (240 + cp / 262144))
      (String (char_of_code (128 + (cp / 4096) mod 64))
         (String (char_of_code (128 + (cp / 64) mod 64))
            (str1 (char_of_code (128 + cp mod 64))))).

Definition escape_char (c : ascii) : string :=
  let n := code c in
  if n =? 34 then String backslash (str1 dquote)
  else if n =? 92 then String backslash (str1 backslash)
  else if n =? 8 then String backslash "b"
  else if n =? 12 then String backslash "f"
  else if n =? 10 then String backslash "n"
  else if n =? 13 then String backslash "r"
  else if n =? 9 then String backslash "t"
  else if n <? 32 then
    String backslash (String "u" (String "0" (String "0"
      (String (hex_char (n / 16)) (str1 (hex_char (n mod 16)))))))
  else str1 c.

Fixpoint escape_string (s : string) : string :=
  match s with
  | EmptyString => EmptyString
  | String c s' => String.append (escape_char c) (escape_string s')
  end.

Definition QuoteJSONString (s : string) : string :=
  String dquote (String.append (escape_string s) (str1 dquote)).

(** The character a one-letter escape stands for. *)
Definition simple_escape (c : ascii) : option ascii :=
  let n := code c in
  if n =? 34 then Some dquote
  else if n =? 92 then Some backslash
  else if n =? 47 then Some "/"%char
  else if n =? 98 then Some (char_of_code 8)
  else if n =? 102 then Some (char_of_code 12)
  else if n =? 110 then Some (char_of_code 10)
  else if n =? 114 then Some (char_of_code 13)
  else if n =? 116 then Some (char_of_code 9)
  else None.

Definition prepend (p : string) (r : option (string * string)) : option (string * string) :=
  match r with
  | Some (s, rest) => Some (String.append p s, rest)
  | None => None
  end.

(** The second half of a surrogate pair written as an escape. *)
Definition low_surrogate (a b c d e f : ascii) : option Z :=
  if Ascii.eqb a backslash && Ascii.eqb b "u" then
    match hex4 c d e f with
    | Some lo => if (56320 <=? lo) && (lo <=? 57343) then Some lo else None
    | None => None
    end
  else None.

(** The characters of a string literal after its opening quote, up to the
    closing quote; the result is the string and the text after the quote. *)
Fixpoint parse_string_body (s : string) : option (string * string) :=
  match s with
  | EmptyString => None
  | String c s1 =>
      if Ascii.eqb c dquote then Some (EmptyString, s1)
      else if Ascii.eqb c backslash then
        match s1 with
        | EmptyString => None
        | String e s2 =>
            if Ascii.eqb e "u" then
              match s2 with
              | String h1 (String h2 (String h3 (String h4 s3))) =>
                  match hex4 h1 h2 h3 h4 with
                  | Some cu =>
                      if (55296 <=? cu) && (cu <=? 56319) then
                        match s3 with
                        | String a (String b (String g1 (String g2 (String g3 (String g4 s4))))) =>
                            match low_surrogate a b g1 g2 g3 g4 with
                            | Some lo =>
                                prepend
                                  (utf8_encode (65536 + (cu - 55296) * 1024 + (lo - 56320)))
                                  (parse_string_body s4)
                            | None => prepend (utf8_encode cu) (parse_string_body s3)
                            end
                        | _ => prepend (utf8_encode cu) (parse_string_body s3)
                        end
                      else prepend (utf8_encode cu) (parse_string_body s3)
                  | None => None
                  end
              | _ => None
              end
            else
              match simple_escape e with
              | Some ch => prepend (str1 ch) (parse_string_body s2)
              | None => None
              end
        end
      else if code c <? 32 then None
      else prepend (str1 c) (parse_string_body s1)
  end.

(** *** Values: [JSON.stringify] and [JSON.parse] *)

(** The texts of the elements of an array, or of the members of an object,
    with commas in between. *)
Fixpoint join_comma (parts : list string) : string :=
  match parts with
  | [] => EmptyString
  | [p] => p
  | p :: rest => String.append p (String "," (join_comma rest))
  end.

(** The text of a member of an object: the key, a colon and the value as
    [print] writes it. *)
Definition member_text (print : JSValue -> string) (kx : string * JSValue) : string :=
  String.append (QuoteJSONString (fst kx)) (String ":" (print (snd kx))).

Fixpoint JSON_stringify (v : JSValue) : string :=
  match v with
  | JNull => "null"
  | JBool true => "true"
  | JBool false => "false"
  | JNum (Finite m e) => NumberToString m e
  | JNum _ => "null"
  | JStr s => QuoteJSONString s
  | JArr elems =>
      String "[" (String.append (join_comma (map JSON_stringify elems)) "]")
  | JObj props =>
      String "{"
        (String.append (join_comma (map (member_text JSON_stringify) props)) "}")
  end.

(** The number of values in a value, elements and members counted twice: the
    fuel that reading its text takes. *)
Fixpoint value_size (v : JSValue) : nat :=
  match v with
  | JArr elems => S (list_sum (map (fun x => S (value_size x)) elems))
  | JObj props => S (list_sum (map (fun kx => S (value_size (snd kx))) props))
  | _ => 1
  end.

Definition is_ws (c : ascii) : bool :=
  let n := code c in
  (n =? 32) || (n =? 9) || (n =? 10) || (n =? 13).

Fixpoint skip_ws (s : string) : string :=
  match s with
  | EmptyString => s
  | String c s' => if is_ws c then skip_ws s' else s
  end.

Definition parse_literal (word : string) (v : JSValue) (s : string)
  : option (JSValue * string) :=
  match strip_prefix word s with
  | Some rest => Some (v, rest)
  | None => None
  end.

(** Recursive descent over the text; [fuel] bounds the number of values,
    elements and members read, and the length of the text is always enough. *)
Fixpoint parse_value (fuel : nat) (s : string) : option (JSValue * string) :=
  match fuel with
  | O => None
  | S fuel' =>
      match skip_ws s with
      | EmptyString => None
      | String c r =>
          if Ascii.eqb c "{" then
            match skip_ws r with
            | EmptyString => None
            | String c' r' =>
                if Ascii.eqb c' "}" then Some (JObj [], r')
                else parse_members fuel' r []
            end
          else if Ascii.eqb c "[" then
            match skip_ws r with
            | EmptyString => None
            | String c' r' =>
                if Ascii.eqb c' "]" then Some (JArr [], r')
                else parse_elements fuel' r []
            end
          else if Ascii.eqb c dquote then
            match parse_string_body r with
            | Some (str, r') => Some (JStr str, r')
            | None => None
            end
          else if Ascii.eqb c "t" then parse_literal "rue" (JBool true) r
          else if Ascii.eqb c "f" then parse_literal "alse" (JBool false) r
          else if Ascii.eqb c "n" then parse_literal "ull" JNull r
          else
            match parse_number (String c r) with
            | Some (n, r') => Some (JNum n, r')
            | None => None
            end
      end
  end
with parse_elements (fuel : nat) (s : string) (acc : list JSValue)
  : option (JSValue * string) :=
  match fuel with
  | O => None
  | S fuel' =>
      match parse_value fuel' s with
      | None => None
      | Some (v, r) =>
          match skip_ws r with
          | EmptyString => None
          | String c r' =>
              if Ascii.eqb c "," then parse_elements fuel' r' (acc ++ [v])
              else if Ascii.eqb c "]" then Some (JArr (acc ++ [v]), r')
              else None
          end
      end
  end
with parse_members (fuel : nat) (s : string) (acc : list (string * JSValue))
  : option (JSValue * string) :=
  match fuel with
  | O => None
  | S fuel' =>
      match skip_ws s with
      | EmptyString => None
      | String q r0 =>
          if Ascii.eqb q dquote then
            match parse_string_body r0 with
            | None => None
            | Some (k, r1) =>
                match skip_ws r1 with
                | EmptyString => None
                | String c1 r2 =>
                    if Ascii.eqb c1 ":" then
                      match parse_value fuel' r2 with
                      | None => None
                      | Some (v, r3) =>
                          match skip_ws r3 with
                          | EmptyString => None
                          | String c3 r4 =>
                              if Ascii.eqb c3 "," then parse_members fuel' r4 (obj_set k v acc)
                              else if Ascii.eqb c3 "}" then Some (JObj (obj_set k v acc), r4)
                              else None
                          end
                      end
                    else None
                end
            end
          else None
      end
  end.

(** [JSON.parse]: [None] stands for the [SyntaxError] it throws. *)
Definition JSON_parse (s : string) : option JSValue :=
  match parse_value (S (String.length s)) s with
  | Some (v, rest) =>
      match skip_ws rest with
      | EmptyString => Some v
      | String _ _ => None
      end
  | None => None
  end.

(** The values [JSON.parse] returns: their numbers are valid and no object
    has a key twice. *)
Fixpoint wf_value (v : JSValue) : Prop :=
  match v with
  | JNum n => valid_number n
  | JArr elems =>
      (fix all (l : list JSValue) : Prop :=
         match l with
         | [] => True
         | x :: l' => wf_value x /\ all l'
         end) elems
  | JObj props =>
      NoDup (map fst props)
      /\ (fix all (l : list (string * JSValue)) : Prop :=
            match l with
            | [] => True
            | kx :: l' => wf_value (snd kx) /\ all l'
            end) props
  | _ => True
  end.

(** The text after a value inside an array or an object, or at the end. *)
Definition ends_value (rest : string) : bool :=
  match rest with
  | EmptyString => true
  | String c _ => Ascii.eqb c "," || Ascii.eqb c "]" || Ascii.eqb c "}"
  end.

(** What [JSON.parse (JSON.stringify v)] is: [JSON.stringify] writes a number
    that is not finite as [null]. *)
Fixpoint reread (v : JSValue) : JSValue :=
  match v with
  | JNum n => if is_finite n then v else JNull
  | JArr elems => JArr (map reread elems)
  | JObj props => JObj (map (fun kv => (fst kv, reread (snd kv))) props)
  | _ => v
  end.

(** The text after the digits of a number literal does not go on with a
    digit. *)
Definition not_digit_start (rest : string) : Prop :=
  match rest with
  | EmptyString => True
  | String c _ => digit_of c = None
  end.

(** A character that starts a number: the minus sign or a digit. *)
Definition number_start (c : ascii) : Prop :=
  c = "-"%char \/ exists d, 0 <= d < 10 /\ c = digit_char d.

(** What reading the members [props] does to the properties read so far. *)
Definition read_members (props acc : list (string * JSValue)) : list (string * JSValue) :=
  fold_left (fun a (kx : string * JSValue) => obj_set (fst kx) (reread (snd kx)) a)
    props acc.

(** The text of [v], followed by the end of a value, reads back as [v]. *)
Definition reads_back (v : JSValue) : Prop :=
  wf_value v ->
  forall fuel rest,
    (value_size v <= fuel)%nat -> ends_value rest = true ->
    parse_value fuel (String.append (JSON_stringify v) rest) = Some (reread v, rest).

End JSON.

(** ** [Date.prototype.toISOString] *)

Module JSDate.

Definition msPerDay : Z := 86400000.

(** Year, month and day of the day number [days] counted from 1970-01-01, in
    the proleptic Gregorian calendar. *)
Definition civil_from_days (days : Z) : Z * Z * Z :=
  let z := days + 719468 in
  let era := z / 146097 in
  let doe := z - era * 146097 in
  let yoe := (doe - doe / 1460 + doe / 36524 - doe / 146096) / 365 in
  let doy := doe - (365 * yoe + yoe / 4 - yoe / 100) in
  let mp := (5 * doy + 2) / 153 in
  let d := doy - (153 * mp + 2) / 5 + 1 in
  let m := if mp <? 10 then mp + 3 else mp - 9 in
  let y := yoe + era * 400 + (if m <=? 2 then 1 else 0) in
  (y, m, d).

(** The decimal digit of [n] at position [p] (units are position 0). *)
Definition digit_at (n p : Z) : ascii := JSON.digit_char ((n / 10 ^ p) mod 10).

Definition pad2 (n : Z) (rest : string) : string :=
  String (digit_at n 1) (String (digit_at n 0) rest).

Definition pad3 (n : Z) (rest : string) : string :=
  String (digit_at n 2) (pad2 n rest).

Definition pad4 (n : Z) (rest : string) : string :=
  String (digit_at n 3) (pad3 n rest).

Definition pad6 (n : Z) (rest : string) : string :=
  String (digit_at n 5) (String (digit_at n 4) (pad4 n rest)).

(** [new Date(t).toISOString()] for the time value [t], in milliseconds since
    the epoch: [YYYY-MM-DDTHH:mm:ss.sssZ], the year written with a sign and six
    digits outside 0..9999. *)
Definition toISOString (t : Z) : string :=
  let '(y, m, d) := civil_from_days (t / msPerDay) in
  let ms := t mod msPerDay in
  let clock :=
    String "-" (pad2 m (String "-" (pad2 d (String "T"
      (pad2 (ms / 3600000) (String ":" (pad2 ((ms / 60000) mod 60) (String ":"
        (pad2 ((ms / 1000) mod 60) (String "." (pad3 (ms mod 1000) "Z"))))))))))) in
  if (0 <=? y) && (y <=? 9999) then pad4 y clock
  else String (if y <? 0 then "-"%char else "+"%char) (pad6 (Z.abs y) clock).

Inductive CharClass :=
| Digit
| Lit (c : ascii).

Definition is_digit (c : ascii) : bool :=
  match JSON.digit_of c with Some _ => true | None => false end.

Fixpoint matches (p : list CharClass) (s : string) : bool :=
  match p, s with
  | [], EmptyString => true
  | Digit :: p', String c s' => is_digit c && matches p' s'
  | Lit a :: p', String c s' => Ascii.eqb a c && matches p' s'
  | _, _ => false
  end.

Definition clock_pattern : list CharClass :=
  [Lit "-"; Digit; Digit; Lit "-"; Digit; Digit; Lit "T"; Digit; Digit; Lit ":";
   Digit; Digit; Lit ":"; Digit; Digit; Lit "."; Digit; Digit; Digit; Lit "Z"]%char.

(** The ISO 8601 date-time layout of ECMA-262, with a four-digit year or a
    signed six-digit year. *)
Definition is_iso_timestamp (s : string) : bool :=
  matches ([Digit; Digit; Digit; Digit] ++ clock_pattern) s
  || matches (Lit "+"%char :: [Digit; Digit; Digit; Digit; Digit; Digit] ++ clock_pattern) s
  || matches (Lit "-"%char :: [Digit; Digit; Digit; Digit; Digit; Digit] ++ clock_pattern) s.

End JSDate.

(** ** The part of zod the schemas of [protocol.ts] use (zod 3 semantics) *)

Module Zod.
Import JSON.

#[local] Unset Elimination Schemes.
Inductive ZodSchema :=
| ZString
| ZNumber
| ZLiteral (s : string)
| ZUnknown
| ZUnion (a b : ZodSchema)
| ZOptional (a : ZodSchema)
| ZRecord (value : ZodSchema)
| ZObject (shape : list (string * ZodSchema)).
#[local] Set Elimination Schemes.

(** The members of an object other than [__proto__]. *)
Definition without_proto (l : list (string * JSValue)) : list (string * JSValue) :=
  List.filter (fun kv => negb (String.eqb (fst kv) "__proto__")) l.

Section Loops.
Variable parse : ZodSchema -> option JSValue -> option (option JSValue).

(** The loop of [z.record] over the entries of the input.  Every value is
    parsed; the results are merged by [mergeObjectSync], which does not copy
    the key [__proto__]. *)
Fixpoint parse_entries (value : ZodSchema) (l : list (string * JSValue))
  : option (list (string * JSValue)) :=
  match l with
  | [] => Some []
  | (k, v) :: l' =>
      match parse value (Some v), parse_entries value l' with
      | Some out, Some rest =>
          if String.eqb k "__proto__" then Some rest
          else match out with
               | Some v' => Some ((k, v') :: rest)
               | None => Some rest
               end
      | _, _ => None
      end
  end.

(** The loop of [z.object] over the keys of its shape: a key whose value
    comes out [undefined] is left out of the result. *)
Fixpoint parse_fields (props : list (string * JSValue)) (shape : list (string * ZodSchema))
  : option (list (string * JSValue)) :=
  match shape with
  | [] => Some []
  | (k, s) :: shape' =>
      match parse s (obj_get k props), parse_fields props shape' with
      | Some (Some v), Some rest => Some ((k, v) :: rest)
      | Some None, Some rest => Some rest
      | _, _ => None
      end
  end.

End Loops.

(** [schema.parse(input)]: the input [None] is [undefined]; the result [None]
    is the [ZodError] thrown, [Some None] is the output [undefined].
    [z.number()] accepts every number that is not NaN, the infinities too;
    [z.object] reads the keys of its shape and strips the others;
    [z.record] takes an object that is not an array. *)
Fixpoint parse (schema : ZodSchema) (input : option JSValue) : option (option JSValue) :=
  match schema with
  | ZString => match input with Some (JStr _) => Some input | _ => None end
  | ZNumber => match input with Some (JNum _) => Some input | _ => None end
  | ZLiteral s =>
      match input with
      | Some (JStr s') => if String.eqb s s' then Some input else None
      | _ => None
      end
  | ZUnknown => Some input
  | ZUnion a b =>
      match parse a input with
      | Some out => Some out
      | None => parse b input
      end
  | ZOptional a =>
      match input with
      | None => Some None
      | Some _ => parse a input
      end
  | ZRecord value =>
      match input with
      | Some (JObj props) =>
          option_map (fun out => Some (JObj out)) (parse_entries parse value props)
      | _ => None
      end
  | ZObject shape =>
      match input with
      | Some (JObj props) =>
          option_map (fun out => Some (JObj out)) (parse_fields parse props shape)
      | _ => None
      end
  end.

Fixpoint shape_set (k : string) (s : ZodSchema) (shape : list (string * ZodSchema))
  : list (string * ZodSchema) :=
  match shape with
  | [] => [(k, s)]
  | (k', s') :: rest =>
      if String.eqb k k' then (k, s) :: rest else (k', s') :: shape_set k s rest
  end.

(** [base.extend(augmentation)]: the keys of [augmentation] replace or follow
    those of [base]. *)
Definition extend (base : ZodSchema) (augmentation : list (string * ZodSchema)) : ZodSchema :=
  match base with
  | ZObject shape => ZObject (fold_left (fun sh ks => shape_set (fst ks) (snd ks) sh) augmentation shape)
  | _ => base
  end.

End Zod.

(** ** Errors and results

    A JavaScript [Error] carries a message (its stack is not modelled);
    [createError] of [protocol.ts] and of [mcp-server.ts] add a numeric
    [code], the former also [data], the error it wraps. *)

Inductive Cause :=
| SyntaxErrorCause
| ZodErrorCause.

Record JSError := {
  err_message : string;
  err_code : option Z;
  err_data : option Cause
}.

(** [new Error(message)] *)
Definition new_Error (message : string) : JSError :=
  {| err_message := message; err_code := None; err_data := None |}.

(** The error of reading a [let] binding before its declaration has run, in
    its temporal dead zone. *)
Definition ReferenceError (name : string) : JSError :=
  new_Error (String.append "Cannot access '"
               (String.append name "' before initialization")).

(** A call either returns or throws. *)
Inductive Result (A : Type) :=
| Return (a : A)
| Throw (e : JSError).
Arguments Return {A} a.
Arguments Throw {A} e.

(** ** [src/server/protocol.ts] *)

Module Protocol.
Import JSON Zod.

Inductive MCPErrorCode :=
| PARSE_ERROR
| INVALID_REQUEST
| METHOD_NOT_FOUND
| INVALID_PARAMS
| INTERNAL_ERROR.

Definition code_of (c : MCPErrorCode) : Z :=
  match c with
  | PARSE_ERROR => -32700
  | INVALID_REQUEST => -32600
  | METHOD_NOT_FOUND => -32601
  | INVALID_PARAMS => -32602
  | INTERNAL_ERROR => -32603
  end.

Definition baseRequestSchema : ZodSchema :=
  ZObject [("jsonrpc", ZLiteral "2.0");
           ("id", ZUnion ZString ZNumber);
           ("method", ZString);
           ("params", ZOptional (ZRecord ZUnknown))]%string.

Definition initializeRequestSchema : ZodSchema :=
  extend baseRequestSchema
    [("method", ZLiteral "initialize");
     ("params", ZObject [("protocolVersion", ZString);
                         ("capabilities", ZOptional (ZRecord ZUnknown));
                         ("clientInfo", ZOptional (ZObject [("name", ZString);
                                                            ("version", ZString)]))])]%string.

Definition toolsListRequestSchema : ZodSchema :=
  extend baseRequestSchema
    [("method", ZLiteral "tools/list");
     ("params", ZOptional (ZObject []))]%string.

Definition toolsCallRequestSchema : ZodSchema :=
  extend baseRequestSchema
    [("method", ZLiteral "tools/call");
     ("params", ZObject [("name", ZString);
                         ("arguments", ZOptional (ZRecord ZUnknown))])]%string.

(** [BaseRequest], the type [baseRequestSchema] infers; [jsonrpc] is the
    literal 2.0. *)
Inductive RequestId :=
| IdString (s : string)
| IdNumber (n : JSNumber).

Record BaseRequest := {
  id : RequestId;
  method : string;
  params : option (list (string * JSValue))
}.

(** The ids [JSON.stringify] writes as they are: strings and finite numbers. *)
Definition finite_id (i : RequestId) : bool :=
  match i with
  | IdString _ => true
  | IdNumber n => is_finite n
  end.

Definition id_to_js (i : RequestId) : JSValue :=
  match i with
  | IdString s => JStr s
  | IdNumber n => JNum n
  end.

(** The object a [BaseRequest] is at run time. *)
Definition request_props (r : BaseRequest) : list (string * JSValue) :=
  [("jsonrpc", JStr "2.0"); ("id", id_to_js (id r)); ("method", JStr (method r))]%string
  ++ match params r with
     | Some p => [("params"%string, JObj p)]
     | None => []
     end.

Definition request_to_js (r : BaseRequest) : JSValue := JObj (request_props r).

Definition request_of_js (v : JSValue) : option BaseRequest :=
  match get "id" v, get "method" v with
  | Some i, Some (JStr m) =>
      let p := match get "params" v with
               | Some (JObj p) => Some p
               | _ => None
               end in
      match i with
      | JStr s => Some {| id := IdString s; method := m; params := p |}
      | JNum n => Some {| id := IdNumber n; method := m; params := p |}
      | _ => None
      end
  | _, _ => None
  end.

Record ErrorObject := {
  code : Z;
  message : string;
  data : option JSValue
}.

(** [BaseResponse]; [resp_id] is typed [string | number] but holds whatever
    value the caller passes at run time. *)
Record BaseResponse := {
  resp_id : JSValue;
  result : option JSValue;
  error : option ErrorObject
}.

Definition error_to_js (e : ErrorObject) : JSValue :=
  JObj ([("code", JNum (number_of_Z (code e))); ("message", JStr (message e))]%string
        ++ match data e with
           | Some d => [("data"%string, d)]
           | None => []
           end).

(** The object a [BaseResponse] is on the wire: [JSON.stringify] leaves out a
    property that is [undefined]. *)
Definition response_to_js (r : BaseResponse) : JSValue :=
  JObj ([("jsonrpc", JStr "2.0"); ("id", resp_id r)]%string
        ++ match result r with
           | Some x => [("result"%string, x)]
           | None => []
           end
        ++ match error r with
           | Some e => [("error"%string, error_to_js e)]
           | None => []
           end).

(** [ProtocolHandler.createError] *)
Definition createError (c : MCPErrorCode) (message : string) (data : option Cause) : JSError :=
  {| err_message := message; err_code := Some (code_of c); err_data := data |}.

(** [ProtocolHandler.parseMessage] *)
Definition parseMessage (message : string) : Result BaseRequest :=
  match JSON_parse message with
  | None =>
      Throw (createError PARSE_ERROR "Failed to parse JSON-RPC message" (Some SyntaxErrorCause))
  | Some parsed =>
      match Zod.parse baseRequestSchema (Some parsed) with
      | Some (Some out) =>
          match request_of_js out with
          | Some r => Return r
          | None =>
              Throw (createError PARSE_ERROR "Failed to parse JSON-RPC message" (Some ZodErrorCause))
          end
      | _ =>
          Throw (createError PARSE_ERROR "Failed to parse JSON-RPC message" (Some ZodErrorCause))
      end
  end.

(** [ProtocolHandler.validateRequest] *)
Definition validateRequest (request : BaseRequest) (schema : ZodSchema) : Result JSValue :=
  match Zod.parse schema (Some (request_to_js request)) with
  | Some (Some out) => Return out
  | _ => Throw (createError INVALID_REQUEST "Invalid request format" (Some ZodErrorCause))
  end.

(** [ProtocolHandler.createSuccessResponse] *)
Definition createSuccessResponse (id : RequestId) (result : JSValue) : BaseResponse :=
  {| resp_id := id_to_js id; result := Some result; error := None |}.

(** [id ?? 0] *)
Definition id_or_zero (id : JSValue) : JSValue :=
  match id with
  | JNull => JNum (Finite 0 0)
  | _ => id
  end.

(** [ProtocolHandler.createErrorResponse]; the argument [JNull] is [null]. *)
Definition createErrorResponse (id : JSValue) (code : Z) (message : string)
    (data : option JSValue) : BaseResponse :=
  {| resp_id := id_or_zero id;
     result := None;
     error := Some {| code := code; message := message; data := data |} |}.

(** [ProtocolHandler.formatResponse]: [JSON.stringify] of the object passed. *)
Definition formatResponse (response : JSValue) : string :=
  JSON_stringify response.

End Protocol.

(** ** [src/server/mcp-server.ts] *)

Module MCPServer.
Import JSON Zod Protocol.

(** The two fields of [config] the server reads. *)
Record Config := {
  serverName : string;
  version : string
}.

(** The defaults [loadConfig] falls back to. *)
Definition default_config : Config :=
  {| serverName := "skyfi-mcp-server"; version := "0.1.0" |}.

(** The mutable state of an [MCPServerManager]. *)
Record Manager := {
  initialized : bool
}.

(** The state the constructor leaves. *)
Definition new_Manager : Manager := {| initialized := false |}.

(** A method of the manager: reads and writes the state, returns or throws. *)
Definition M (A : Type) : Type := Manager -> Result A * Manager.

Definition ret {A} (a : A) : M A := fun st => (Return a, st).
Definition throw {A} (e : JSError) : M A := fun st => (Throw e, st).
Definition bind {A B} (m : M A) (k : A -> M B) : M B :=
  fun st =>
    match m st with
    | (Return a, st') => k a st'
    | (Throw e, st') => (Throw e, st')
    end.
Definition lift {A} (r : Result A) : M A := fun st => (r, st).
Definition get_initialized : M bool := fun st => (Return (initialized st), st).
Definition set_initialized (b : bool) : M unit := fun _ => (Return tt, {| initialized := b |}).

Notation "'let!' x ':=' m 'in' k" := (bind m (fun x => k))
  (at level 10, x name, m at level 100, k at level 200).

(** [MCPServerManager.createError] *)
Definition createError (c : MCPErrorCode) (message : string) : JSError :=
  {| err_message := message; err_code := Some (code_of c); err_data := None |}.

(** [MCPServerManager.createMethodNotFoundError] *)
Definition createMethodNotFoundError (method : string) : JSError :=
  createError METHOD_NOT_FOUND (String.append "Method not found: " method).

(** [MCPServerManager.ensureInitialized] *)
Definition ensureInitialized : M unit :=
  let! init := get_initialized in
  if negb init
  then throw (createError INVALID_REQUEST "Server not initialized. Call initialize first.")
  else ret tt.

Section Handlers.
Variable config : Config.

(** [MCPServerManager.handleInitialize] *)
Definition handleInitialize (request : BaseRequest) : M JSValue :=
  let! validatedRequest := lift (validateRequest request initializeRequestSchema) in
  let! _ := set_initialized true in
  ret (JObj [("protocolVersion", JStr "1.0.0");
             ("serverInfo", JObj [("name", JStr (serverName config));
                                  ("version", JStr (version config))]);
             ("capabilities", JObj [("tools", JObj [])])]%string).

(** [MCPServerManager.handleToolsList] *)
Definition handleToolsList (request : BaseRequest) : M JSValue :=
  let! _ := ensureInitialized in
  let! _ := lift (validateRequest request toolsListRequestSchema) in
  ret (JObj [("tools"%string, JArr [])]).

(** [validatedRequest.params.name], a string once [toolsCallRequestSchema]
    has accepted the request. *)
Definition params_name (validatedRequest : JSValue) : string :=
  match get "params" validatedRequest with
  | Some p => match get "name" p with
              | Some (JStr name) => name
              | _ => EmptyString
              end
  | None => EmptyString
  end.

(** [MCPServerManager.handleToolsCall] *)
Definition handleToolsCall (request : BaseRequest) : M JSValue :=
  let! _ := ensureInitialized in
  let! validatedRequest := lift (validateRequest request toolsCallRequestSchema) in
  throw (createMethodNotFoundError
           (String.append "Tool not found: " (params_name validatedRequest))).

(** [MCPServerManager.handlePing]; [now] is the time value of [new Date()]. *)
Definition handlePing (now : Z) : M JSValue :=
  ret (JObj [("status", JStr "pong");
             ("timestamp", JStr (JSDate.toISOString now))]%string).

(** [MCPServerManager.handleRequest]: the [catch] logs and throws the error
    again. *)
Definition handleRequest (now : Z) (request : BaseRequest) : M JSValue :=
  let method := method request in
  if String.eqb method "initialize" then handleInitialize request
  else if String.eqb method "tools/list" then handleToolsList request
  else if String.eqb method "tools/call" then handleToolsCall request
  else if String.eqb method "ping" then handlePing now
  else throw (createMethodNotFoundError method).

End Handlers.

(** [MCPServerManager.isInitialized] *)
Definition isInitialized (st : Manager) : bool := initialized st.

(** The four methods [handleRequest] has a case for. *)
Definition recognized (method : string) : bool :=
  String.eqb method "initialize" || String.eqb method "tools/list"
  || String.eqb method "tools/call" || String.eqb method "ping".

(** The state after a sequence of requests, each dispatched at its own time. *)
Fixpoint serve (config : Config) (requests : list (Z * BaseRequest)) (st : Manager) : Manager :=
  match requests with
  | [] => st
  | (now, request) :: rest => serve config rest (snd (handleRequest config now request st))
  end.

End MCPServer.

(** ** [src/server/transport.ts] *)

Module Transport.
Import JSON Protocol MCPServer.

(** *** The request/response endpoint [POST /mcp] *)

(** What the server answers: the status code and the object given to
    [res.json]. *)
Record HttpResponse := {
  status : Z;
  body : JSValue
}.

(** [!!v] *)
Definition truthy (v : JSValue) : bool :=
  match v with
  | JNull => false
  | JBool b => b
  | JNum (Finite m _) => negb (m =? 0)
  | JNum _ => true
  | JStr s => negb (String.eqb s EmptyString)
  | JArr _ | JObj _ => true
  end.

(** The handler [setRequestHandler] stores: [undefined] until it is called. *)
Definition RequestHandler : Type := BaseRequest -> M JSValue.

(** The [try] block of the route. [req_body] is [req.body], [None] when it is
    [undefined]. *)
Definition mcp_try (requestHandler : option RequestHandler) (req_body : option JSValue)
  : M BaseResponse :=
  match req_body with
  | None => throw (new_Error "Request body is required")
  | Some b =>
      if negb (truthy b) then throw (new_Error "Request body is required")
      else
        let! mcpRequest := lift (parseMessage (JSON_stringify b)) in
        match requestHandler with
        | None => throw (new_Error "Request handler not configured")
        | Some handler =>
            let! result := handler mcpRequest in
            ret (createSuccessResponse (id mcpRequest) result)
        end
  end.

(** The [catch] block of the route.  Its first statement,
    [logger.error('MCP request failed', { requestId, ... })], reads
    [requestId].  Inside the block that name is the [let requestId] the block
    declares further down, not the constant of the enclosing function, and
    the read comes before the declaration has run: it throws a
    [ReferenceError].  Nothing after it runs: no error code is chosen, no id
    is taken from the body, [createErrorResponse] is not called and nothing is
    written to [res]. *)
Definition mcp_catch (req_body : option JSValue) (error : JSError) : Result HttpResponse :=
  Throw (ReferenceError "requestId").

(** The handler of [POST /mcp].  [Return] is the response it sends.  [Throw]
    is the error the promise of its asynchronous body is rejected with:
    nothing awaits that promise, no response is sent and the request is left
    open. *)
Definition mcp_route (requestHandler : option RequestHandler) (req_body : option JSValue)
  : Manager -> Result HttpResponse * Manager :=
  fun st =>
    match mcp_try requestHandler req_body st with
    | (Return response, st') =>
        (Return {| status := 200; body := response_to_js response |}, st')
    | (Throw error, st') => (mcp_catch req_body error, st')
    end.

(** The outcome of the [express.json()] middleware: it fills [req.body], or
    hands an error (whose [status] is 400) to the error handlers. *)
Inductive BodyOutcome :=
| BodyError (err : JSError)
| BodyReady (req_body : option JSValue).

(** The strict mode of [express.json()]: the first character that is not
    white space opens an object or an array. *)
Definition strict_first_char (text : string) : bool :=
  match skip_ws text with
  | String c _ => Ascii.eqb c "{" || Ascii.eqb c "["
  | EmptyString => false
  end.

(** [express.json()] on the body text of a request whose content type is JSON;
    [None] is a request without such a body, which the middleware of Express 5
    leaves alone ([req.body] stays [undefined]; Express 4 would set an empty
    object). The text of the engine's error message is not modelled. *)
Definition express_json (raw : option string) : BodyOutcome :=
  match raw with
  | None => BodyReady None
  | Some text =>
      if (String.length text =? 0)%nat then BodyReady (Some (JObj []))
      else if strict_first_char text then
        match JSON_parse text with
        | Some v => BodyReady (Some v)
        | None => BodyError (new_Error "Unexpected token in JSON")
        end
      else BodyError (new_Error "Unexpected token in JSON")
  end.

(** The texts [express.json()] cannot read. *)
Definition unparseable (text : string) : Prop :=
  text <> EmptyString /\ (strict_first_char text = false \/ JSON_parse text = None).

(** The error-handling middleware [setupRoutes] installs last. *)
Definition error_middleware (err : JSError) : HttpResponse :=
  {| status := 500;
     body := JObj [("error", JStr "Internal server error");
                   ("message", JStr (err_message err))]%string |}.

(** A [POST /mcp] request through the middleware chain. *)
Definition post_mcp (requestHandler : option RequestHandler) (raw : option string)
  : Manager -> Result HttpResponse * Manager :=
  fun st =>
    match express_json raw with
    | BodyError err => (Return (error_middleware err), st)
    | BodyReady req_body => mcp_route requestHandler req_body st
    end.

(** *** The streaming endpoint [GET /sse] *)

(** [response] names the response stream of the client's connection. *)
Record SSEClient := {
  client_id : string;
  response : nat;
  lastActivity : Z
}.

(** What an operation does to response streams. *)
Inductive Effect :=
| WriteHead (res : nat)
| Write (res : nat) (chunk : string)
| End (res : nat).

(** [client.lastActivity = new Date()] *)
Definition touch (now : Z) (client : SSEClient) : SSEClient :=
  {| client_id := client_id client; response := response client; lastActivity := now |}.

(** The frame of one message: an [event:] line, a [data:] line and an empty
    line. *)
Definition sse_message (event : string) (data : JSValue) : string :=
  String.append "event: "
    (String.append event
       (String newline
          (String.append "data: "
             (String.append (JSON_stringify data) (String newline (str1 newline)))))).

(** [HTTPTransport.sendSSEMessage] *)
Definition sendSSEMessage (clientId event : string) (data : JSValue) (now : Z)
    (sseClients : gmap string SSEClient) : bool * gmap string SSEClient * list Effect :=
  match sseClients !! clientId with
  | None => (false, sseClients, [])
  | Some client =>
      (true, <[clientId := touch now client]> sseClients,
       [Write (response client) (sse_message event data)])
  end.

(** The body of the loop of [broadcastSSEMessage]. *)
Definition broadcast_visit (message : string) (now : Z) (clientId : string)
    (client : SSEClient) (acc : gmap string SSEClient * list Effect)
  : gmap string SSEClient * list Effect :=
  (<[clientId := touch now client]> (fst acc), Write (response client) message :: snd acc).

(** [HTTPTransport.broadcastSSEMessage]: the loop visits every client once. *)
Definition broadcastSSEMessage (event : string) (data : JSValue) (now : Z)
    (sseClients : gmap string SSEClient) : gmap string SSEClient * list Effect :=
  map_fold (broadcast_visit (sse_message event data) now) (sseClients, []) sseClients.

(** [inactiveMinutes]: the difference of the two time values, divided by
    1000 and then by 60; each of the three operations gives the double
    nearest to its exact result. *)
Definition inactiveMinutes (now : Z) (client : SSEClient) : Q :=
  IEEE.div (IEEE.div (IEEE.sub (inject_Z now) (inject_Z (lastActivity client))) 1000) 60.

(** [inactiveMinutes > maxInactiveMinutes] *)
Definition is_inactive (maxInactiveMinutes : Q) (now : Z) (client : SSEClient) : bool :=
  negb (Qle_bool (inactiveMinutes now client) maxInactiveMinutes).

(** The body of the loop of [cleanupInactiveClients]. *)
Definition cleanup_visit (maxInactiveMinutes : Q) (now : Z) (clientId : string)
    (client : SSEClient) (acc : gmap string SSEClient * list Effect * list string)
  : gmap string SSEClient * list Effect * list string :=
  if is_inactive maxInactiveMinutes now client
  then (delete clientId (fst (fst acc)), End (response client) :: snd (fst acc),
        clientId :: snd acc)
  else acc.

(** [HTTPTransport.cleanupInactiveClients]: the registry left, what was done
    to the streams, and [removedClients]. *)
Definition cleanupInactiveClients (maxInactiveMinutes : Q) (now : Z)
    (sseClients : gmap string SSEClient)
  : gmap string SSEClient * list Effect * list string :=
  map_fold (cleanup_visit maxInactiveMinutes now) (sseClients, [], []) sseClients.

(** The default of the parameter [maxInactiveMinutes]. *)
Definition default_maxInactiveMinutes : Q := 30.

(** The handler of [GET /sse] for the fresh identifier [clientId] and the
    response stream [res]. *)
Definition sse_connect (clientId : string) (res : nat) (now : Z)
    (sseClients : gmap string SSEClient) : gmap string SSEClient * list Effect :=
  let client := {| client_id := clientId; response := res; lastActivity := now |} in
  let '(_, clients, effects) :=
    sendSSEMessage clientId "connected"
      (JObj [("clientId", JStr clientId);
             ("timestamp", JStr (JSDate.toISOString now))]%string)
      now (<[clientId := client]> sseClients) in
  (clients, WriteHead res :: effects).

(** The [close] listener of the connection. *)
Definition sse_close (clientId : string) (sseClients : gmap string SSEClient)
  : gmap string SSEClient :=
  delete clientId sseClients.

(** The period of the keep-alive timer, in milliseconds. *)
Definition keepAlivePeriod : Z := 30000.

(** One firing of the keep-alive timer of [clientId]; the boolean tells
    whether the timer stays armed. *)
Definition keepAlive_tick (clientId : string) (now : Z)
    (sseClients : gmap string SSEClient) : gmap string SSEClient * list Effect * bool :=
  match sseClients !! clientId with
  | None => (sseClients, [], false)
  | Some _ =>
      let '(_, clients, effects) :=
        sendSSEMessage clientId "ping"
          (JObj [("timestamp"%string, JStr (JSDate.toISOString now))]) now sseClients in
      (clients, effects, true)
  end.

(** What can happen to the registry, and a run of such events, each with the
    time at which it happens. *)
Inductive Event :=
| EvConnect (clientId : string) (res : nat)
| EvClose (clientId : string)
| EvKeepAlive (clientId : string)
| EvSend (clientId event : string) (data : JSValue)
| EvBroadcast (event : string) (data : JSValue)
| EvCleanup (maxInactiveMinutes : Q).

Definition step (now : Z) (ev : Event) (sseClients : gmap string SSEClient)
  : gmap string SSEClient :=
  match ev with
  | EvConnect clientId res => fst (sse_connect clientId res now sseClients)
  | EvClose clientId => sse_close clientId sseClients
  | EvKeepAlive clientId => fst (fst (keepAlive_tick clientId now sseClients))
  | EvSend clientId event data => snd (fst (sendSSEMessage clientId event data now sseClients))
  | EvBroadcast event data => fst (broadcastSSEMessage event data now sseClients)
  | EvCleanup maxInactiveMinutes =>
      fst (fst (cleanupInactiveClients maxInactiveMinutes now sseClients))
  end.

Fixpoint run (events : list (Z * Event)) (sseClients : gmap string SSEClient)
  : gmap string SSEClient :=
  match events with
  | [] => sseClients
  | (now, ev) :: rest => run rest (step now ev sseClients)
  end.

End Transport.

(** ** Concrete requests, bodies and registries *)

Module Scenarios.
Import JSON Zod Protocol MCPServer Transport.
Local Open Scope string_scope.

(** A tools/call request without params: its schema rejects it. *)
Definition call_without_params : BaseRequest :=
  {| id := IdNumber (Finite 1 0); method := "tools/call"; params := None |}.

(** Scenario C of the specification: a call of a tool nobody registered. *)
Definition call_unknown_tool : BaseRequest :=
  {| id := IdNumber (Finite 2 0);
     method := "tools/call";
     params := Some [("name", JStr "unknown-tool"); ("arguments", JObj [])] |}.

(** Scenario A: an initialize request with a protocol version. *)
Definition initialize_request : BaseRequest :=
  {| id := IdNumber (Finite 1 0);
     method := "initialize";
     params := Some [("protocolVersion", JStr "1.0.0")] |}.

(** Scenario B: an initialize request whose params lack the version. *)
Definition initialize_without_version : BaseRequest :=
  {| id := IdNumber (Finite 1 0); method := "initialize"; params := Some [] |}.

Definition ping_request : BaseRequest :=
  {| id := IdString "a"; method := "ping"; params := None |}.

(** The handler [setupHandlers] installs, with the default configuration and
    the clock at the epoch. *)
Definition handler : option RequestHandler := Some (handleRequest default_config 0).

End Scenarios.

(** Bodies of [POST /mcp] requests. *)
Module Bodies.
Import JSON Protocol.
Local Open Scope string_scope.

(** Text that is not JSON. *)
Definition invalid_json : string := "invalid json".

(** A request without a method and with the string id [abc]. *)
Definition no_method_string_id : JSValue :=
  JObj [("jsonrpc", JStr "2.0"); ("id", JStr "abc")].

End Bodies.

(** Schedules and registries of streaming clients. *)
Module Streams.
Import JSON Transport.
Local Open Scope string_scope.

(** [threshold_exceeds period maxInactiveMinutes]: the idle threshold, in
    minutes, is longer than [period] milliseconds. *)
Definition threshold_exceeds (period : Z) (maxInactiveMinutes : Q) : bool :=
  negb (Qle_bool maxInactiveMinutes (inject_Z period / 1000 / 60)%Q).

(** [kept_alive clientId period last events]: in the run [events], which
    starts when [clientId] was last written to at time [last], time does not go
    backwards, the keep-alive timer of [clientId] fires before more than
    [period] milliseconds have passed since its last firing, the connection of
    [clientId] is not closed, and the threshold of every sweep exceeds
    [period]. *)
Fixpoint kept_alive (clientId : string) (period last : Z) (events : list (Z * Event)) : bool :=
  match events with
  | [] => true
  | (now, ev) :: rest =>
      (last <=? now)%Z && (now - last <=? period)%Z
      && match ev with
         | EvClose id => negb (String.eqb id clientId)
         | EvCleanup maxInactiveMinutes => threshold_exceeds period maxInactiveMinutes
         | _ => true
         end
      && kept_alive clientId period
           (match ev with
            | EvKeepAlive id => if String.eqb id clientId then now else last
            | _ => last
            end) rest
  end.

Definition client_a : SSEClient :=
  {| client_id := "a"; response := 1; lastActivity := 1800000 |}.
Definition client_b : SSEClient :=
  {| client_id := "b"; response := 2; lastActivity := 0 |}.

(** Two clients, half an hour after the epoch: [a] was written to just now,
    [b] has been idle since the epoch. *)
Definition two_clients : gmap string SSEClient :=
  <["a" := client_a]> (<["b" := client_b]> ∅).

(** Two minutes in the life of client [a]: its timer fires every 30 seconds,
    and sweeps with thresholds of 30 minutes, of one minute and of 40 seconds
    run in between. *)
Definition two_minutes : list (Z * Event) :=
  [(1830000, EvKeepAlive "a"); (1845000, EvCleanup 30); (1860000, EvKeepAlive "a");
   (1889999, EvCleanup 1); (1890000, EvKeepAlive "a");
   (1900000, EvBroadcast "news" JNull); (1919000, EvCleanup (2 # 3))]%Z.

End Streams.

(** Texts of requests. *)
Module Texts.
Import JSON.
Local Open Scope string_scope.

Definition q (s : string) : string := QuoteJSONString s.

(** A ping whose id is the number 7. *)
Definition ping_7 : string :=
  "{" +:+ q "jsonrpc" +:+ ":" +:+ q "2.0" +:+ "," +:+ q "id" +:+ ":7,"
  +:+ q "method" +:+ ":" +:+ q "ping" +:+ "}".

(** A ping whose id is the string [a], with white space and a member that is
    not part of the envelope. *)
Definition ping_a : string :=
  "{ " +:+ q "jsonrpc" +:+ " : " +:+ q "2.0" +:+ ", " +:+ q "extra" +:+ ": [1, 2.5e3], "
  +:+ q "id" +:+ ": " +:+ q "a" +:+ ", " +:+ q "method" +:+ ": " +:+ q "ping" +:+ " }".

(** A ping whose id is a number literal beyond the range of a double. *)
Definition ping_1e400 : string :=
  "{" +:+ q "jsonrpc" +:+ ":" +:+ q "2.0" +:+ "," +:+ q "id" +:+ ":1e400,"
  +:+ q "method" +:+ ":" +:+ q "ping" +:+ "}".

End Texts.

(** ** Runs of the streaming endpoint, with what they do to the streams *)

Module Traces.
Import JSON Transport.

(** [HTTPTransport.getSSEClientCount] *)
Definition getSSEClientCount (sseClients : gmap string SSEClient) : nat :=
  size sseClients.

(** What one event does to the response streams. The [close] listener touches
    no stream. *)
Definition step_effects (now : Z) (ev : Event) (sseClients : gmap string SSEClient)
  : list Effect :=
  match ev with
  | EvConnect clientId res => snd (sse_connect clientId res now sseClients)
  | EvClose clientId => []
  | EvKeepAlive clientId => snd (fst (keepAlive_tick clientId now sseClients))
  | EvSend clientId event data => snd (sendSSEMessage clientId event data now sseClients)
  | EvBroadcast event data => snd (broadcastSSEMessage event data now sseClients)
  | EvCleanup maxInactiveMinutes =>
      snd (fst (cleanupInactiveClients maxInactiveMinutes now sseClients))
  end.

(** The effects of a run, event by event. *)
Fixpoint run_effects (events : list (Z * Event)) (sseClients : gmap string SSEClient)
  : list (list Effect) :=
  match events with
  | [] => []
  | (now, ev) :: rest =>
      step_effects now ev sseClients :: run_effects rest (step now ev sseClients)
  end.

(** The response streams of the connections a run accepts, in order. *)
Fixpoint opened (events : list (Z * Event)) : list nat :=
  match events with
  | [] => []
  | (_, EvConnect _ res) :: rest => res :: opened rest
  | _ :: rest => opened rest
  end.

(** The stream an effect is on. *)
Definition stream_of (e : Effect) : nat :=
  match e with
  | WriteHead res => res
  | Write res _ => res
  | End res => res
  end.

(** The response streams of the registered clients. *)
Definition streams (sseClients : gmap string SSEClient) : list nat :=
  (fun kc : string * SSEClient => response (snd kc)) <$> map_to_list sseClients.

End Traces.

(** ** The middleware chain and the routes of [HTTPTransport]

    Express runs the middleware and the routes in the order in which
    [setupMiddleware] and [setupRoutes] install them; an error handed to
    [next] skips to the error-handling middleware. *)

Module HTTPTransport.

(** The lower-case form of an ASCII letter. *)
Definition lower (c : ascii) : ascii :=
  let n := code c in
  if (65 <=? n) && (n <=? 90) then char_of_code (n + 32) else c.

Fixpoint eqb_nocase (a b : string) : bool :=
  match a, b with
  | EmptyString, EmptyString => true
  | String x a', String y b' => Ascii.eqb (lower x) (lower y) && eqb_nocase a' b'
  | _, _ => false
  end.

Import JSON Protocol MCPServer Transport.
Local Open Scope string_scope.

(** A request as the chain sees it: [req.method], [req.path], and the text of
    its body when it is sent as [application/json]. *)
Record Request := {
  req_method : string;
  req_path : string;
  req_json : option string
}.

(** What a response carries: the value given to [res.json], the text of
    [res.sendStatus], or the event stream [GET /sse] leaves open; [Pending]
    is a response to which nothing has been written when the handlers are
    done: the request is left without an answer. *)
Inductive Content :=
| JsonContent (v : JSValue)
| TextContent (s : string)
| EventStream
| Pending.

(** The response object when the handlers are done: its status (200 until
    it is set), the headers the code has set, and its content. *)
Record Response := {
  res_status : Z;
  res_headers : list (string * string);
  res_content : Content
}.

(** [headers[name]] *)
Fixpoint header_get (name : string) (headers : list (string * string)) : option string :=
  match headers with
  | [] => None
  | (name', value) :: rest =>
      if String.eqb name name' then Some value else header_get name rest
  end.

(** [res.header(name, value)]: a header set before is replaced. *)
Fixpoint set_header (name value : string) (headers : list (string * string))
  : list (string * string) :=
  match headers with
  | [] => [(name, value)]
  | (name', value') :: rest =>
      if String.eqb name name' then (name, value) :: rest
      else (name', value') :: set_header name value rest
  end.

(** The headers the CORS middleware sets. *)
Definition cors_headers : list (string * string) :=
  set_header "Access-Control-Allow-Headers" "Content-Type, Authorization"
    (set_header "Access-Control-Allow-Methods" "GET, POST, OPTIONS"
       (set_header "Access-Control-Allow-Origin" "*" [])).

(** [res.writeHead(200, {...})] of [GET /sse], on top of the headers set
    before. *)
Definition sse_headers (headers : list (string * string)) : list (string * string) :=
  set_header "Access-Control-Allow-Origin" "*"
    (set_header "Connection" "keep-alive"
       (set_header "Cache-Control" "no-cache"
          (set_header "Content-Type" "text/event-stream" headers))).

(** The path of a route matches without regard to the case of letters, and
    with or without one slash at the end (the routing of Express is neither
    case sensitive nor strict unless it is asked to be). *)
Definition route_matches (route path : string) : bool :=
  eqb_nocase route path || eqb_nocase (route +:+ "/") path.

(** [app.get] serves GET, and HEAD when the route has no handler of its own
    for it. *)
Definition handles_get (method : string) : bool :=
  String.eqb method "GET" || String.eqb method "HEAD".

(** The limit of [express.json()] on the size of a body: 100kb, in bytes. *)
Definition body_limit : Z := 102400.

(** [express.json()] with its limit: a longer body is refused, before it is
    parsed, with an error (whose [status] is 413) that goes to the error
    handlers. *)
Definition read_json (raw : option string) : BodyOutcome :=
  match raw with
  | Some text =>
      if (body_limit <? Z.of_nat (String.length text))%Z
      then BodyError (new_Error "request entity too large")
      else express_json raw
  | None => express_json raw
  end.

(** The session of the server and the registry of streaming clients. *)
Record Server := {
  session : Manager;
  sseClients : gmap string SSEClient
}.

Section App.
Variable config : Config.
Variable requestHandler : option RequestHandler.

(** The answer of [GET /health]. *)
Definition health (now : Z) : JSValue :=
  JObj [("status", JStr "healthy");
        ("name", JStr (serverName config));
        ("version", JStr (version config));
        ("timestamp", JStr (JSDate.toISOString now))].

(** The answer of the 404 handler. *)
Definition not_found (path : string) : JSValue :=
  JObj [("error", JStr "Not found"); ("path", JStr path)].

(** One request through the application, at the time [now]. [clientId] is the
    identifier [randomUUID] draws and [stream] the response object, both used
    by [GET /sse] only. The result is the response, the server afterwards and
    what was done to the response streams. The request logging middleware
    only logs and is left out. When the handler of [POST /mcp] ends with an
    error, nothing has been written to the response. *)
Definition handle (clientId : string) (stream : nat) (now : Z) (req : Request)
    (server : Server) : Response * Server * list Effect :=
  match read_json (req_json req) with
  | BodyError err =>
      let r := error_middleware err in
      ({| res_status := status r; res_headers := []; res_content := JsonContent (body r) |},
       server, [])
  | BodyReady req_body =>
      if String.eqb (req_method req) "OPTIONS" then
        ({| res_status := 200; res_headers := cors_headers; res_content := TextContent "OK" |},
         server, [])
      else if handles_get (req_method req) && route_matches "/health" (req_path req) then
        ({| res_status := 200; res_headers := cors_headers;
            res_content := JsonContent (health now) |}, server, [])
      else if String.eqb (req_method req) "POST" && route_matches "/mcp" (req_path req) then
        let '(outcome, st) := mcp_route requestHandler req_body (session server) in
        (match outcome with
         | Return r =>
             {| res_status := status r; res_headers := cors_headers;
                res_content := JsonContent (body r) |}
         | Throw _ =>
             {| res_status := 200; res_headers := cors_headers; res_content := Pending |}
         end,
         {| session := st; sseClients := sseClients server |}, [])
      else if handles_get (req_method req) && route_matches "/sse" (req_path req) then
        let '(clients, effects) := sse_connect clientId stream now (sseClients server) in
        ({| res_status := 200; res_headers := sse_headers cors_headers;
            res_content := EventStream |},
         {| session := session server; sseClients := clients |}, effects)
      else
        ({| res_status := 404; res_headers := cors_headers;
            res_content := JsonContent (not_found (req_path req)) |}, server, [])
  end.

End App.

End HTTPTransport.

(** ** [src/server/config.ts] *)

Module Configuration.

(** The white space [parseInt] skips at the start of its argument: the ASCII
    tab, line feed, vertical tab, form feed, carriage return and space, and,
    in UTF-8, the no-break space, the Unicode space separators, the line and
    paragraph separators and the byte order mark. *)
Definition is_space3 (x y z : Z) : bool :=
  ((x =? 225) && (y =? 154) && (z =? 128))
  || ((x =? 226) && (y =? 128)
      && (((128 <=? z) && (z <=? 138)) || (z =? 168) || (z =? 169) || (z =? 175)))
  || ((x =? 226) && (y =? 129) && (z =? 159))
  || ((x =? 227) && (y =? 128) && (z =? 128))
  || ((x =? 239) && (y =? 187) && (z =? 191)).

Fixpoint trim_start (s : string) : string :=
  match s with
  | EmptyString => s
  | String a s1 =>
      let x := code a in
      if (x =? 9) || (x =? 10) || (x =? 11) || (x =? 12) || (x =? 13) || (x =? 32)
      then trim_start s1
      else
        match s1 with
        | EmptyString => s
        | String b s2 =>
            if (x =? 194) && (code b =? 160) then trim_start s2
            else
              match s2 with
              | EmptyString => s
              | String c s3 =>
                  if is_space3 x (code b) (code c) then trim_start s3 else s
              end
        end
  end.

(** [parseInt(text, 10)]: white space, an optional sign, then the longest run
    of decimal digits; what follows them is ignored. [None] is NaN. The
    integer stands for the double nearest to it, and for an infinity from
    [JSON.double_overflow_bound] on. *)
Definition parseInt (text : string) : option Z :=
  let s := trim_start text in
  let signed :=
    match s with
    | String c r =>
        if Ascii.eqb c "-" then (true, r)
        else if Ascii.eqb c "+" then (false, r)
        else (false, s)
    | EmptyString => (false, s)
    end in
  match JSON.scan_digits (snd signed) with
  | ([], _) => None
  | (ds, _) =>
      Some (if fst signed then - JSON.digits_value ds else JSON.digits_value ds)
  end.

(** [Config], the type [configSchema] infers. *)
Record Config := {
  nodeEnv : string;
  serverName : string;
  version : string;
  port : Z;
  host : string;
  logLevel : string;
  skyfiApiKey : option string;
  skyfiApiBaseUrl : string
}.

(** [process.env[name] ?? fallback] *)
Definition env_or (env : gmap string string) (name fallback : string) : string :=
  match env !! name with
  | Some value => value
  | None => fallback
  end.

(** [z.enum(values)] on a string. *)
Definition z_enum (values : list string) (s : string) : bool :=
  existsb (String.eqb s) values.

(** [z.number().int().positive()] on the result of [parseInt]: a number that
    is not NaN, is finite and is greater than zero. *)
Definition positive_int (n : option Z) : bool :=
  match n with
  | Some n => (0 <? n) && (n <? JSON.double_overflow_bound)
  | None => false
  end.

Section Load.

(** [z.string().url()] accepts the strings the [URL] constructor of the engine
    accepts; the parser of URLs is not modelled. *)
Variable URL_ok : string -> bool.

(** [loadConfig] on the environment [process.env]: [None] is the [ZodError]
    that [configSchema.parse] throws. A variable that is not set takes its
    default; [PORT] also when it is set to the empty string. *)
Definition loadConfig (env : gmap string string) : option Config :=
  let rawConfig_nodeEnv := env_or env "NODE_ENV" "development" in
  let rawConfig_serverName := env_or env "SERVER_NAME" "skyfi-mcp-server" in
  let rawConfig_version := env_or env "npm_package_version" "0.1.0" in
  let rawConfig_port :=
    match env !! "PORT"%string with
    | Some (String c r) => parseInt (String c r)
    | _ => Some 3000
    end in
  let rawConfig_host := env_or env "HOST" "0.0.0.0" in
  let rawConfig_logLevel := env_or env "LOG_LEVEL" "info" in
  let rawConfig_skyfiApiKey := env !! "SKYFI_API_KEY"%string in
  let rawConfig_skyfiApiBaseUrl :=
    env_or env "SKYFI_API_BASE_URL" "https://api.skyfi.com/v1" in
  if z_enum ["development"; "production"; "test"]%string rawConfig_nodeEnv
     && positive_int rawConfig_port
     && z_enum ["debug"; "info"; "warn"; "error"]%string rawConfig_logLevel
     && URL_ok rawConfig_skyfiApiBaseUrl
  then
    match rawConfig_port with
    | Some n =>
        Some {| nodeEnv := rawConfig_nodeEnv;
                serverName := rawConfig_serverName;
                version := rawConfig_version;
                port := n;
                host := rawConfig_host;
                logLevel := rawConfig_logLevel;
                skyfiApiKey := rawConfig_skyfiApiKey;
                skyfiApiBaseUrl := rawConfig_skyfiApiBaseUrl |}
    | None => None
    end
  else None.

End Load.

(** The two fields the server reads. *)
Definition server_config (c : Config) : MCPServer.Config :=
  {| MCPServer.serverName := serverName c; MCPServer.version := version c |}.

End Configuration.

(** ** More requests, texts, runs and environments *)

Module Examples.
Import JSON Protocol MCPServer Transport Texts.
Local Open Scope string_scope.

(** A tools/list request without params. *)
Definition tools_list_request : BaseRequest :=
  {| id := IdNumber (Finite 3 0); method := "tools/list"; params := None |}.

(** The text of a tools/list request whose id is the number 3. *)
Definition tools_list_3 : string :=
  "{" +:+ q "jsonrpc" +:+ ":" +:+ q "2.0" +:+ "," +:+ q "id" +:+ ":3,"
  +:+ q "method" +:+ ":" +:+ q "tools/list" +:+ "}".

(** The members of [ping_7] and of [tools_list_3]. *)
Definition ping_7_props : list (string * JSValue) :=
  [("jsonrpc", JStr "2.0"); ("id", JNum (Finite 7 0)); ("method", JStr "ping")].

Definition tools_list_3_props : list (string * JSValue) :=
  [("jsonrpc", JStr "2.0"); ("id", JNum (Finite 3 0)); ("method", JStr "tools/list")].

(** A ping whose id is the literal 9007199254740993, which is [2^53 + 1] and
    not a double, and the members [JSON.parse] reads from it: the id is the
    double [2^53]. *)
Definition ping_odd : string :=
  "{" +:+ q "jsonrpc" +:+ ":" +:+ q "2.0" +:+ "," +:+ q "id" +:+ ":9007199254740993,"
  +:+ q "method" +:+ ":" +:+ q "ping" +:+ "}".

Definition ping_odd_props : list (string * JSValue) :=
  [("jsonrpc", JStr "2.0"); ("id", JNum (Finite 9007199254740992 0));
   ("method", JStr "ping")].

(** A ping whose params have a member [__proto__]. *)
Definition ping_proto : string :=
  "{" +:+ q "jsonrpc" +:+ ":" +:+ q "2.0" +:+ "," +:+ q "id" +:+ ":7,"
  +:+ q "method" +:+ ":" +:+ q "ping" +:+ "," +:+ q "params" +:+ ":{"
  +:+ q "__proto__" +:+ ":{}," +:+ q "a" +:+ ":1}}".

(** A sweep with the default threshold, three quarters of a minute after the
    half hour, and a broadcast after it. *)
Definition sweep_then_broadcast : list (Z * Event) :=
  [(1845000, EvCleanup 30); (1850000, EvBroadcast "news" JNull)]%Z.

(** An environment that sets the port and nothing else. *)
Definition port_env : gmap string string := {[ "PORT" := "8080" ]}.

(** A health check sent with capitals and a final slash, and a server that
    has just started. *)
Definition health_check : HTTPTransport.Request :=
  {| HTTPTransport.req_method := "GET";
     HTTPTransport.req_path := "/Health/";
     HTTPTransport.req_json := None |}.

Definition fresh_server : HTTPTransport.Server :=
  {| HTTPTransport.session := new_Manager; HTTPTransport.sseClients := ∅ |}.

(** A stand-in for the URL parser that accepts the URLs with the scheme
    https. *)
Definition https_only (url : string) : bool :=
  match strip_prefix "https://" url with
  | Some _ => true
  | None => false
  end.

End Examples.

(** * Verification *)

(** ** Doubles

    Rounding to the nearest double does not cross a double, and a double is
    its own nearest double. *)

Section Doubles.
Import IEEE.
Local Open Scope Z_scope.


Lemma pow2_pos e : (0 < pow2 e)%Q.
Proof. apply Qpower_0_lt. reflexivity. Qed.

Lemma pow2_add a b : (pow2 (a + b) == pow2 a * pow2 b)%Q.
Proof. apply Qpower_plus. discriminate. Qed.

Lemma pow2_le a b : a <= b -> (pow2 a <= pow2 b)%Q.
Proof. intros H. apply Qpower_le_compat_l; [exact H | discriminate]. Qed.

Lemma pow2_lt a b : a < b -> (pow2 a < pow2 b)%Q.
Proof. intros H. apply Qpower_lt_compat_l; [exact H | reflexivity]. Qed.

Lemma pow2_Z e : 0 <= e -> (pow2 e == inject_Z (2 ^ e))%Q.
Proof. intros H. unfold pow2. rewrite Zpower_Qpower by exact H. reflexivity. Qed.

Lemma pow2_opp e : (pow2 (- e) == / pow2 e)%Q.
Proof. apply Qpower_opp. Qed.

Lemma pow2_split e : (pow2 e * inject_Z (2 ^ Z.max 0 (- e)) == inject_Z (2 ^ Z.max 0 e))%Q.
Proof.
  destruct (Z.le_gt_cases 0 e) as [H | H].
  - rewrite (Z.max_l 0 (- e)) by lia. rewrite (Z.max_r 0 e) by lia.
    rewrite pow2_Z by exact H. change (2 ^ 0) with 1. ring.
  - rewrite (Z.max_r 0 (- e)) by lia. rewrite (Z.max_l 0 e) by lia.
    rewrite <- (pow2_Z (- e)) by lia. rewrite <- pow2_add.
    replace (e + - e) with 0 by lia. reflexivity.
Qed.

Lemma inject_pos D : 0 < D -> (0 < inject_Z D)%Q.
Proof. intros H. unfold Qlt. simpl. lia. Qed.

Lemma frac_le_Z N D K : 0 < D -> (frac N D <= inject_Z K)%Q <-> N <= K * D.
Proof.
  intros HD. unfold frac.
  pose proof (inject_pos D HD) as HDq.
  split; intros H.
  - rewrite Zle_Qle, inject_Z_mult.
    apply Qle_shift_div_r in H || idtac.
    apply (Qmult_le_compat_r _ _ (inject_Z D)) in H; [| apply Qlt_le_weak; exact HDq].
    setoid_replace (inject_Z N / inject_Z D * inject_Z D)%Q with (inject_Z N)
      using relation Qeq in H by (field; intros E; rewrite E in HDq; discriminate).
    exact H.
  - apply Qle_shift_div_r; [exact HDq |]. rewrite <- inject_Z_mult, <- Zle_Qle. exact H.
Qed.

Lemma frac_ge_Z N D K : 0 < D -> (inject_Z K <= frac N D)%Q <-> K * D <= N.
Proof.
  intros HD. unfold frac.
  pose proof (inject_pos D HD) as HDq.
  split; intros H.
  - rewrite Zle_Qle, inject_Z_mult.
    apply (Qmult_le_compat_r _ _ (inject_Z D)) in H; [| apply Qlt_le_weak; exact HDq].
    setoid_replace (inject_Z N / inject_Z D * inject_Z D)%Q with (inject_Z N)
      using relation Qeq in H by (field; intros E; rewrite E in HDq; discriminate).
    exact H.
  - apply Qle_shift_div_l; [exact HDq |]. rewrite <- inject_Z_mult, <- Zle_Qle. exact H.
Qed.

Lemma frac_lt_Z N D K : 0 < D -> (frac N D < inject_Z K)%Q <-> N < K * D.
Proof.
  intros HD. split; intros H.
  - apply Z.nle_gt. intros C. apply (frac_ge_Z N D K HD) in C.
    exact (Qlt_not_le _ _ H C).
  - apply Qnot_le_lt. intros C. apply (frac_ge_Z N D K HD) in C. lia.
Qed.

Lemma rne_le p q K : 0 < q -> p <= K * q -> rne p q <= K.
Proof.
  intros Hq H. unfold rne.
  pose proof (Z.div_mod p q ltac:(lia)) as E.
  pose proof (Z.mod_pos_bound p q Hq) as B.
  assert (p / q <= K) by nia.
  assert (0 < p mod q -> p / q + 1 <= K) by nia.
  destruct (2 * (p mod q) <? q) eqn:E1; [assumption |].
  apply Z.ltb_ge in E1.
  destruct (q <? 2 * (p mod q)) eqn:E2; [apply H1; lia |].
  destruct (Z.even (p / q)); [assumption | apply H1; lia].
Qed.

Lemma rne_ge p q K : 0 < q -> K * q <= p -> K <= rne p q.
Proof.
  intros Hq H. unfold rne.
  pose proof (Z.div_mod p q ltac:(lia)) as E.
  pose proof (Z.mod_pos_bound p q Hq) as B.
  assert (K <= p / q) by nia.
  destruct (2 * (p mod q) <? q); [assumption |].
  destruct (q <? 2 * (p mod q)); [lia |].
  destruct (Z.even (p / q)); lia.
Qed.

Lemma round_mantissa n d :
  let e := Z.max (ilog2 n d - 52) emin in
  let m := rne (scaled_num n e) (scaled_den d e) in
  round n d = if m =? 2 ^ 53 then (2 ^ 52, e + 1) else (m, e).
Proof.
  intros e m. unfold round. fold e.
  replace (if 0 <=? e then rne n (d * 2 ^ e) else rne (n * 2 ^ (- e)) d) with m; [reflexivity |].
  unfold m, scaled_num, scaled_den.
  destruct (0 <=? e) eqn:E.
  - apply Z.leb_le in E. rewrite (Z.max_l 0 (- e)), (Z.max_r 0 e) by lia.
    change (2 ^ 0) with 1. rewrite Z.mul_1_r. reflexivity.
  - apply Z.leb_gt in E. rewrite (Z.max_r 0 (- e)), (Z.max_l 0 e) by lia.
    change (2 ^ 0) with 1. rewrite Z.mul_1_r. reflexivity.
Qed.

Lemma scaled_den_pos d e : 0 < d -> 0 < scaled_den d e.
Proof. intros H. unfold scaled_den. pose proof (Z.pow_pos_nonneg 2 (Z.max 0 e)). nia. Qed.

Lemma scaled_frac n d e :
  0 < d -> (frac (scaled_num n e) (scaled_den d e) * pow2 e == frac n d)%Q.
Proof.
  intros Hd. unfold frac, scaled_num, scaled_den.
  rewrite !inject_Z_mult.
  pose proof (pow2_split e) as S.
  assert (Hp : forall k, (0 < inject_Z (2 ^ Z.max 0 k))%Q).
  { intros k. apply inject_pos. apply Z.pow_pos_nonneg; lia. }
  pose proof (Hp e) as P1. pose proof (Hp (- e)) as P2.
  pose proof (inject_pos d Hd) as HD.
  rewrite <- S.
  field. split.
  - intros E. rewrite E in HD. discriminate.
  - split.
    + intros E. rewrite E in P2. discriminate.
    + pose proof (pow2_pos e) as P. intros E. rewrite E in P. discriminate.
Qed.

Lemma frac_pos n d : 0 < n -> 0 < d -> (0 < frac n d)%Q.
Proof.
  intros Hn Hd. unfold frac. apply Qlt_shift_div_l; [apply inject_pos; exact Hd |].
  rewrite Qmult_0_l. apply inject_pos. exact Hn.
Qed.

Lemma frac_mul n d : 0 < d -> (frac n d * inject_Z d == inject_Z n)%Q.
Proof.
  intros Hd. unfold frac. pose proof (inject_pos d Hd) as P. field.
  intros E. rewrite E in P. discriminate.
Qed.

Lemma ge_pow2_spec n d l :
  0 < d -> ge_pow2 n d l = true <-> (pow2 l <= frac n d)%Q.
Proof.
  intros Hd.
  assert (E : ge_pow2 n d l = (scaled_den d l <=? scaled_num n l)).
  { unfold ge_pow2, scaled_den, scaled_num. destruct (0 <=? l) eqn:E.
    - apply Z.leb_le in E. rewrite (Z.max_l 0 (- l)), (Z.max_r 0 l) by lia.
      change (2 ^ 0) with 1. rewrite Z.mul_1_r. reflexivity.
    - apply Z.leb_gt in E. rewrite (Z.max_r 0 (- l)), (Z.max_l 0 l) by lia.
      change (2 ^ 0) with 1. rewrite Z.mul_1_r. reflexivity. }
  rewrite E, Z.leb_le.
  rewrite <- (scaled_frac n d l Hd).
  pose proof (frac_ge_Z (scaled_num n l) (scaled_den d l) 1 (scaled_den_pos d l Hd)) as F.
  rewrite Z.mul_1_l in F. rewrite <- F.
  pose proof (pow2_pos l) as P.
  split; intros H.
  - setoid_replace (pow2 l) with (inject_Z 1 * pow2 l)%Q using relation Qeq at 1 by (change (inject_Z 1) with 1%Q; ring).
    apply Qmult_le_compat_r; [exact H | apply Qlt_le_weak; exact P].
  - setoid_replace (pow2 l) with (inject_Z 1 * pow2 l)%Q using relation Qeq in H at 1 by (change (inject_Z 1) with 1%Q; ring).
    apply Qmult_le_r in H; [exact H | exact P].
Qed.

Lemma log2_bounds n : 0 < n -> (pow2 (Z.log2 n) <= inject_Z n < pow2 (Z.log2 n + 1))%Q.
Proof.
  intros Hn. pose proof (Z.log2_spec n Hn) as [L U].
  pose proof (Z.log2_nonneg n) as P.
  rewrite !pow2_Z by lia. split.
  - rewrite <- Zle_Qle. exact L.
  - rewrite <- Zlt_Qlt. replace (Z.log2 n + 1) with (Z.succ (Z.log2 n)) by lia. exact U.
Qed.

Lemma ilog2_spec n d :
  0 < n -> 0 < d -> (pow2 (ilog2 n d) <= frac n d < pow2 (ilog2 n d + 1))%Q.
Proof.
  intros Hn Hd.
  pose proof (log2_bounds n Hn) as [Ln Un]. pose proof (log2_bounds d Hd) as [Ld Ud].
  set (a := Z.log2 n) in *. set (b := Z.log2 d) in *.
  pose proof (inject_pos d Hd) as Pd.
  pose proof (frac_mul n d Hd) as M.
  assert (Lo : (pow2 (a - b - 1) <= frac n d)%Q).
  { apply (Qmult_le_r _ _ (inject_Z d) Pd). rewrite M.
    apply Qle_trans with (pow2 a); [| exact Ln].
    replace a with ((a - b - 1) + (b + 1)) at 2 by lia. rewrite pow2_add.
    apply Qmult_le_l; [apply pow2_pos | apply Qlt_le_weak; exact Ud]. }
  assert (Hi : (frac n d < pow2 (a - b + 1))%Q).
  { apply (Qmult_lt_r _ _ (inject_Z d) Pd). rewrite M.
    apply Qlt_le_trans with (pow2 (a + 1)); [exact Un |].
    replace (a + 1) with ((a - b + 1) + b) by lia. rewrite pow2_add.
    apply Qmult_le_l; [apply pow2_pos | exact Ld]. }
  unfold ilog2. fold a b.
  destruct (ge_pow2 n d (a - b)) eqn:E.
  - apply (ge_pow2_spec n d (a - b) Hd) in E. split; assumption.
  - split; [exact Lo |].
    replace (a - b - 1 + 1) with (a - b) by lia.
    apply Qnot_le_lt. intros C. apply (ge_pow2_spec n d (a - b) Hd) in C. congruence.
Qed.

Section Rounding.
Variables n d : Z.
Hypothesis Hn : 0 < n.
Hypothesis Hd : 0 < d.

Abbreviation e := (Z.max (ilog2 n d - 52) emin).
Abbreviation m := (rne (scaled_num n e) (scaled_den d e)).

Lemma mantissa_ge K : (inject_Z K * pow2 e <= frac n d)%Q -> K <= m.
Proof.
  intros H. apply rne_ge; [apply scaled_den_pos; exact Hd |].
  apply frac_ge_Z; [apply scaled_den_pos; exact Hd |].
  rewrite <- (scaled_frac n d e Hd) in H.
  apply Qmult_le_r in H; [exact H | apply pow2_pos].
Qed.

Lemma mantissa_le K : (frac n d <= inject_Z K * pow2 e)%Q -> m <= K.
Proof.
  intros H. apply rne_le; [apply scaled_den_pos; exact Hd |].
  apply frac_le_Z; [apply scaled_den_pos; exact Hd |].
  rewrite <- (scaled_frac n d e Hd) in H.
  apply Qmult_le_r in H; [exact H | apply pow2_pos].
Qed.

Lemma round_value : (value (round n d) == inject_Z m * pow2 e)%Q.
Proof.
  rewrite round_mantissa. cbv zeta.
  destruct (m =? 2 ^ 53) eqn:E; [| reflexivity].
  apply Z.eqb_eq in E. rewrite E. unfold value. cbn [fst snd].
  fold (pow2 (e + 1)) . rewrite Z.add_comm, pow2_add.
  change (pow2 1) with 2%Q.
  replace (2 ^ 53) with (2 ^ 52 * 2) by reflexivity. rewrite inject_Z_mult.
  change (inject_Z 2) with 2%Q. ring.
Qed.

Lemma exponent_normal : emin <= ilog2 n d - 52 -> e = ilog2 n d - 52.
Proof. lia. Qed.

Lemma mantissa_nonneg : 0 <= m.
Proof.
  apply mantissa_ge. change (inject_Z 0) with 0%Q. rewrite Qmult_0_l.
  apply Qlt_le_weak, frac_pos; assumption.
Qed.

Lemma mantissa_normal : emin <= ilog2 n d - 52 -> 2 ^ 52 <= m <= 2 ^ 53.
Proof.
  intros H. pose proof (exponent_normal H) as E.
  pose proof (ilog2_spec n d Hn Hd) as [Lo Hi].
  split.
  - apply mantissa_ge. rewrite <- pow2_Z by lia. rewrite <- pow2_add.
    replace (52 + e) with (ilog2 n d) by lia. exact Lo.
  - apply mantissa_le. rewrite <- pow2_Z by lia. rewrite <- pow2_add.
    replace (53 + e) with (ilog2 n d + 1) by lia. apply Qlt_le_weak. exact Hi.
Qed.

Lemma mantissa_subnormal : ilog2 n d - 52 < emin -> m <= 2 ^ 52.
Proof.
  intros H. pose proof (ilog2_spec n d Hn Hd) as [Lo Hi].
  assert (E : e = emin) by lia.
  apply mantissa_le. rewrite <- pow2_Z by lia. rewrite <- pow2_add.
  apply Qlt_le_weak. apply Qlt_le_trans with (1 := Hi). apply pow2_le.
  lia.
Qed.

Lemma exponent_min : emin <= e.
Proof. lia. Qed.

Lemma round_canonical : canonical (round n d) = true.
Proof.
  rewrite round_mantissa. cbv zeta.
  pose proof exponent_min as He. pose proof mantissa_nonneg as H0.
  destruct (m =? 2 ^ 53) eqn:E.
  - unfold canonical. apply orb_true_iff. left.
    rewrite !andb_true_iff, Z.leb_le, Z.ltb_lt, Z.leb_le. lia.
  - apply Z.eqb_neq in E. unfold canonical. apply orb_true_iff.
    destruct (Z.lt_ge_cases (ilog2 n d - 52) emin) as [Q | Q].
    + pose proof (mantissa_subnormal Q) as U.
      assert (e = emin) by lia.
      destruct (Z.eq_dec m (2 ^ 52)) as [T | T].
      * left. rewrite !andb_true_iff, Z.leb_le, Z.ltb_lt, Z.leb_le. lia.
      * right. rewrite !andb_true_iff, Z.leb_le, Z.ltb_lt, Z.eqb_eq. lia.
    + pose proof (mantissa_normal Q) as U.
      left. rewrite !andb_true_iff, Z.leb_le, Z.ltb_lt, Z.leb_le. lia.
Qed.

End Rounding.

Lemma canonical_cases mc ec :
  canonical (mc, ec) = true ->
  (2 ^ 52 <= mc < 2 ^ 53 /\ emin <= ec) \/ (0 <= mc < 2 ^ 52 /\ ec = emin).
Proof.
  unfold canonical. rewrite orb_true_iff, !andb_true_iff, !Z.leb_le, !Z.ltb_lt, Z.eqb_eq.
  tauto.
Qed.

Lemma inject_le a b : a <= b -> (inject_Z a <= inject_Z b)%Q.
Proof. rewrite Zle_Qle. tauto. Qed.

Lemma inject_lt a b : a < b -> (inject_Z a < inject_Z b)%Q.
Proof. rewrite Zlt_Qlt. tauto. Qed.

(** Rounding does not cross a double. *)
Lemma round_le n d mc ec :
  0 < n -> 0 < d -> canonical (mc, ec) = true ->
  (frac n d <= value (mc, ec))%Q -> (value (round n d) <= value (mc, ec))%Q.
Proof.
  intros Hn Hd Hc H. rewrite (round_value n d).
  set (e := Z.max (ilog2 n d - 52) emin) in *.
  set (m := rne (scaled_num n e) (scaled_den d e)).
  unfold value in *. cbn [fst snd] in *. fold (pow2 ec) in *.
  apply canonical_cases in Hc.
  pose proof (ilog2_spec n d Hn Hd) as [Lo Hi].
  assert (He : e <= ec).
  { apply Z.le_ngt. intros C.
    assert (E : e = ilog2 n d - 52) by (unfold e in *; lia).
    assert (X : (inject_Z mc * pow2 ec < pow2 (ilog2 n d))%Q).
    { apply Qlt_le_trans with (pow2 (53 + ec)); [| apply pow2_le; lia].
      rewrite pow2_add. apply Qmult_lt_r; [apply pow2_pos |].
      rewrite pow2_Z by lia. apply inject_lt. lia. }
    apply (Qlt_irrefl (frac n d)).
    apply Qle_lt_trans with (1 := H). apply Qlt_le_trans with (1 := X). exact Lo. }
  assert (K : (inject_Z mc * pow2 ec == inject_Z (mc * 2 ^ (ec - e)) * pow2 e)%Q).
  { rewrite inject_Z_mult, <- pow2_Z by lia. rewrite <- Qmult_assoc, <- pow2_add.
    replace (ec - e + e) with ec by lia. reflexivity. }
  rewrite K in *. apply Qmult_le_compat_r; [| apply Qlt_le_weak, pow2_pos].
  apply inject_le. apply (mantissa_le n d Hd). exact H.
Qed.

Lemma round_ge n d mc ec :
  0 < n -> 0 < d -> canonical (mc, ec) = true ->
  (value (mc, ec) <= frac n d)%Q -> (value (mc, ec) <= value (round n d))%Q.
Proof.
  intros Hn Hd Hc H. rewrite (round_value n d).
  pose proof (mantissa_normal n d Hn Hd) as Hnorm.
  pose proof (mantissa_ge n d Hd) as Hge.
  set (e := Z.max (ilog2 n d - 52) emin) in *.
  set (m := rne (scaled_num n e) (scaled_den d e)) in *.
  unfold value in *. cbn [fst snd] in *. fold (pow2 ec) in *.
  apply canonical_cases in Hc.
  pose proof (ilog2_spec n d Hn Hd) as [Lo Hi].
  assert (He : ec <= e).
  { apply Z.le_ngt. intros C.
    assert (N : 2 ^ 52 <= mc) by (unfold e in *; lia).
    apply (Qlt_irrefl (frac n d)).
    apply Qlt_le_trans with (1 := Hi). apply Qle_trans with (2 := H).
    apply Qle_trans with (pow2 (52 + ec)); [apply pow2_le; unfold e in *; lia |].
    rewrite pow2_add. apply Qmult_le_compat_r; [| apply Qlt_le_weak, pow2_pos].
    rewrite pow2_Z by lia. apply inject_le. exact N. }
  destruct (Z.eq_dec ec e) as [E | E].
  - rewrite E in *. apply Qmult_le_compat_r; [| apply Qlt_le_weak, pow2_pos].
    apply inject_le. apply Hge. exact H.
  - assert (N : 2 ^ 52 <= m) by (apply Hnorm; unfold e in *; lia).
    apply Qle_trans with (pow2 (53 + ec)).
    + rewrite pow2_add. apply Qmult_le_compat_r; [| apply Qlt_le_weak, pow2_pos].
      rewrite pow2_Z by lia. apply inject_le. lia.
    + apply Qle_trans with (pow2 (52 + e)); [apply pow2_le; lia |].
      rewrite pow2_add. apply Qmult_le_compat_r; [| apply Qlt_le_weak, pow2_pos].
      rewrite pow2_Z by lia. apply inject_le. exact N.
Qed.

Lemma canonical_inj x y :
  canonical x = true -> canonical y = true -> (value x == value y)%Q -> x = y.
Proof.
  assert (W : forall m1 e1 m2 e2, e1 <= e2 ->
    canonical (m1, e1) = true -> canonical (m2, e2) = true ->
    (value (m1, e1) == value (m2, e2))%Q -> (m1, e1) = (m2, e2)).
  { intros m1 e1 m2 e2 Hle C1 C2 V.
    apply canonical_cases in C1, C2. unfold value in V. cbn [fst snd] in V.
    fold (pow2 e1) (pow2 e2) in V.
    assert (K : (inject_Z m1 == inject_Z (m2 * 2 ^ (e2 - e1)))%Q).
    { rewrite inject_Z_mult, <- pow2_Z by lia.
      apply (Qmult_inj_r _ _ (pow2 e1)).
      - pose proof (pow2_pos e1) as P. intros E. rewrite E in P. discriminate.
      - rewrite V, <- Qmult_assoc, <- pow2_add. replace (e2 - e1 + e1) with e2 by lia.
        reflexivity. }
    apply (proj1 (inject_Z_injective _ _)) in K.
    destruct (Z.eq_dec e1 e2) as [E | E].
    - subst e2. rewrite Z.sub_diag, Z.pow_0_r, Z.mul_1_r in K. rewrite K. reflexivity.
    - exfalso.
      assert (P : 2 <= 2 ^ (e2 - e1)).
      { change 2 with (2 ^ 1) at 1. apply Z.pow_le_mono_r; lia. }
      nia. }
  intros Cx Cy V. destruct x as [m1 e1], y as [m2 e2].
  destruct (Z.le_ge_cases e1 e2) as [L | L].
  - apply W; assumption.
  - symmetry. apply W; try assumption. symmetry. exact V.
Qed.

(** A double is its own nearest double. *)
Lemma round_exact n d x :
  0 < n -> 0 < d -> canonical x = true -> (frac n d == value x)%Q -> round n d = x.
Proof.
  intros Hn Hd Hc V. apply canonical_inj; [apply round_canonical; assumption | exact Hc |].
  destruct x as [mc ec]. apply Qle_antisym.
  - apply round_le; try assumption. rewrite V. apply Qle_refl.
  - apply round_ge; try assumption. rewrite V. apply Qle_refl.
Qed.

Lemma value_nonneg x : canonical x = true -> (0 <= value x)%Q.
Proof.
  destruct x as [m e]. intros C. apply canonical_cases in C. unfold value. cbn [fst snd].
  apply Qmult_le_0_compat; [| apply Qlt_le_weak, (pow2_pos e)].
  change 0%Q with (inject_Z 0). apply inject_le. lia.
Qed.

Lemma frac_Qmake p q : (frac (Zpos p) (Zpos q) == Zpos p # q)%Q.
Proof. unfold frac. symmetry. apply Qmake_Qdiv. Qed.

Lemma round_Q_pos v :
  (0 < v)%Q -> round_Q v = value (round (Qnum v) (Zpos (Qden v))) /\ 0 < Qnum v.
Proof.
  intros H. destruct v as [[| p | p] q]; unfold Qlt in H; simpl in H; try lia.
  split; [reflexivity | simpl; lia].
Qed.

Lemma Q_frac v : (frac (Qnum v) (Zpos (Qden v)) == v)%Q.
Proof. destruct v as [a q]. unfold frac. simpl. symmetry. apply Qmake_Qdiv. Qed.

Lemma round_Q_nonpos v : (v <= 0)%Q -> (round_Q v <= 0)%Q.
Proof.
  intros H. destruct v as [[| p | p] q]; unfold round_Q; simpl.
  - apply Qle_refl.
  - unfold Qle in H. simpl in H. lia.
  - pose proof (value_nonneg _ (round_canonical (Zpos p) (Zpos q) eq_refl eq_refl)) as V.
    apply (Qopp_le_compat 0). exact V.
Qed.

Lemma is_double_value c :
  is_double c -> exists x, canonical x = true /\ (value x == c)%Q.
Proof.
  intros [P E]. destruct (round_Q_pos c P) as [R N]. rewrite R in E.
  exists (round (Qnum c) (Zpos (Qden c))). split; [| exact E].
  apply round_canonical; [exact N | reflexivity].
Qed.

Lemma round_Q_le v c : is_double c -> (v <= c)%Q -> (round_Q v <= c)%Q.
Proof.
  intros Hc H. destruct (Qlt_le_dec 0 v) as [P | P].
  - destruct (round_Q_pos v P) as [R N]. rewrite R.
    destruct (is_double_value c Hc) as [[mc ec] [C V]]. rewrite <- V.
    apply round_le; [exact N | reflexivity | exact C |].
    rewrite Q_frac, V. exact H.
  - apply Qle_trans with 0%Q; [apply round_Q_nonpos; exact P |].
    apply Qlt_le_weak. apply Hc.
Qed.

Lemma round_Q_ge v c : is_double c -> (c <= v)%Q -> (c <= round_Q v)%Q.
Proof.
  intros Hc H.
  assert (P : (0 < v)%Q) by (apply Qlt_le_trans with c; [apply Hc | exact H]).
  destruct (round_Q_pos v P) as [R N]. rewrite R.
  destruct (is_double_value c Hc) as [[mc ec] [C V]]. rewrite <- V.
  apply round_ge; [exact N | reflexivity | exact C |].
  rewrite Q_frac, V. exact H.
Qed.











(** A quotient of doubles on one side of a double. *)
Lemma div_le x c y d :
  is_double d -> (0 < y)%Q -> (x <= c)%Q -> (c / y <= d)%Q -> (div x y <= d)%Q.
Proof.
  intros Hd Hy Hx Hc. apply round_Q_le; [exact Hd |].
  apply Qle_trans with (2 := Hc). unfold Qdiv.
  apply Qmult_le_compat_r; [exact Hx |]. apply Qlt_le_weak, Qinv_lt_0_compat, Hy.
Qed.

Lemma div_ge x c y d :
  is_double d -> (0 < y)%Q -> (c <= x)%Q -> (d <= c / y)%Q -> (d <= div x y)%Q.
Proof.
  intros Hd Hy Hx Hc. apply round_Q_ge; [exact Hd |].
  apply Qle_trans with (1 := Hc). unfold Qdiv.
  apply Qmult_le_compat_r; [exact Hx |]. apply Qlt_le_weak, Qinv_lt_0_compat, Hy.
Qed.

Lemma sub_le a b c :
  is_double (inject_Z c) -> a - b <= c -> (sub (inject_Z a) (inject_Z b) <= inject_Z c)%Q.
Proof.
  intros Hc H. apply round_Q_le; [exact Hc |].
  unfold Qminus. rewrite <- inject_Z_opp, <- inject_Z_plus. apply inject_le. lia.
Qed.

Lemma sub_ge a b c :
  is_double (inject_Z c) -> c <= a - b -> (inject_Z c <= sub (inject_Z a) (inject_Z b))%Q.
Proof.
  intros Hc H. apply round_Q_ge; [exact Hc |].
  unfold Qminus. rewrite <- inject_Z_opp, <- inject_Z_plus. apply inject_le. lia.
Qed.

End Doubles.

(** ** Decimal literals and doubles *)

Section Decimals.
Import IEEE JSON.
Local Open Scope Z_scope.

Lemma pow10_pos e : (0 < pow10 e)%Q.
Proof. apply Qpower_0_lt. reflexivity. Qed.

Lemma pow10_add a b : (pow10 (a + b) == pow10 a * pow10 b)%Q.
Proof. apply Qpower_plus. discriminate. Qed.

Lemma pow10_Z e : 0 <= e -> (pow10 e == inject_Z (10 ^ e))%Q.
Proof. intros H. unfold pow10. rewrite Zpower_Qpower by exact H. reflexivity. Qed.

Lemma normalize_aux_value fuel : forall s de,
  let r := normalize_aux fuel s de in
  de <= snd r /\ s = fst r * 10 ^ (snd r - de).
Proof.
  induction fuel as [| fuel IH]; intros s de; cbn [normalize_aux].
  - cbn [fst snd]. rewrite Z.sub_diag. split; [lia | change (10 ^ 0) with 1; lia].
  - destruct (s mod 10 =? 0) eqn:E.
    + apply Z.eqb_eq in E. specialize (IH (s / 10) (de + 1)). cbv zeta in *.
      destruct IH as [L V]. split; [lia |].
      set (r := normalize_aux fuel (s / 10) (de + 1)) in *.
      replace (snd r - de) with (Z.succ (snd r - (de + 1))) by lia.
      rewrite Z.pow_succ_r by lia.
      pose proof (Z.div_mod s 10 ltac:(lia)) as D. lia.
    + cbn [fst snd]. rewrite Z.sub_diag. split; [lia | change (10 ^ 0) with 1; lia].
Qed.

Lemma normalize_aux_normal fuel : forall s de,
  0 < s < 10 ^ Z.of_nat fuel -> fst (normalize_aux fuel s de) mod 10 <> 0.
Proof.
  induction fuel as [| fuel IH]; intros s de H; cbn [normalize_aux].
  - change (10 ^ Z.of_nat 0) with 1 in H. lia.
  - destruct (s mod 10 =? 0) eqn:E.
    + apply Z.eqb_eq in E. apply IH.
      rewrite Nat2Z.inj_succ, Z.pow_succ_r in H by lia.
      pose proof (Z.div_mod s 10 ltac:(lia)) as D. lia.
    + apply Z.eqb_neq in E. exact E.
Qed.

Lemma normalize_value s de :
  let r := normalize s de in de <= snd r /\ s = fst r * 10 ^ (snd r - de).
Proof. apply normalize_aux_value. Qed.

Lemma normalize_pos s de : 0 < fst (normalize s de) <-> 0 < s.
Proof.
  destruct (normalize_value s de) as [L V].
  pose proof (Z.pow_pos_nonneg 10 (snd (normalize s de) - de) ltac:(lia) ltac:(lia)) as P.
  split; intros H; nia.
Qed.

Lemma normalize_normal s de : 0 < s -> fst (normalize s de) mod 10 <> 0.
Proof.
  intros H. apply normalize_aux_normal. split; [exact H |].
  pose proof (Z.log2_spec s H) as [_ U]. pose proof (Z.log2_nonneg s) as P.
  apply Z.lt_le_trans with (1 := U).
  rewrite Nat2Z.inj_succ, Z2Nat.id by exact P.
  apply Z.pow_le_mono_l. lia.
Qed.

Lemma normalize_decimal s de :
  (decimal_value (fst (normalize s de)) (snd (normalize s de)) == decimal_value s de)%Q.
Proof.
  destruct (normalize_value s de) as [L V]. unfold decimal_value.
  set (r := normalize s de) in *.
  assert (E : (inject_Z s == inject_Z (fst r) * pow10 (snd r - de))%Q).
  { rewrite pow10_Z by lia. rewrite <- inject_Z_mult, <- V. reflexivity. }
  rewrite E, <- Qmult_assoc, <- pow10_add.
  replace (snd r - de + de) with (snd r) by lia. reflexivity.
Qed.

Lemma decimal_fraction_spec s de :
  0 < s ->
  0 < fst (decimal_fraction s de) /\ 0 < snd (decimal_fraction s de)
  /\ (frac (fst (decimal_fraction s de)) (snd (decimal_fraction s de)) == decimal_value s de)%Q.
Proof.
  intros H. unfold decimal_fraction, decimal_value.
  destruct (0 <=? de) eqn:E; cbn [fst snd].
  - apply Z.leb_le in E. pose proof (Z.pow_pos_nonneg 10 de ltac:(lia) E) as P.
    split; [nia |]. split; [lia |].
    unfold frac. rewrite inject_Z_mult, pow10_Z by exact E.
    change (inject_Z 1) with 1%Q. field.
  - apply Z.leb_gt in E. pose proof (Z.pow_pos_nonneg 10 (- de) ltac:(lia) ltac:(lia)) as P.
    split; [exact H |]. split; [exact P |].
    unfold frac. rewrite <- pow10_Z by lia.
    pose proof (pow10_pos (- de)) as Q1.
    assert (Q2 : (pow10 de == / pow10 (- de))%Q).
    { unfold pow10. rewrite Qpower_opp, Qinv_involutive. reflexivity. }
    rewrite Q2. field. intros C. rewrite C in Q1. discriminate.
Qed.

Lemma double_eqb_eq x y : double_eqb x y = true <-> x = y.
Proof.
  destruct x, y. unfold double_eqb. cbn [fst snd].
  rewrite andb_true_iff, !Z.eqb_eq. split; [intros [-> ->]; reflexivity | intros E; injection E; auto].
Qed.

Lemma first_reading_spec x de cands r :
  first_reading x de cands = Some r ->
  0 < fst r /\ fst r mod 10 <> 0 /\ round_decimal (fst r) (snd r) = x.
Proof.
  induction cands as [| s rest IH]; cbn [first_reading]; [discriminate |].
  destruct (normalize s de) as [s' de'] eqn:N.
  destruct (reads_as x s' de') eqn:R; [| exact IH].
  intros E. injection E as <-. cbn [fst snd].
  unfold reads_as in R. apply andb_true_iff in R. destruct R as [P R].
  apply Z.ltb_lt in P. apply double_eqb_eq in R.
  split; [exact P |]. split; [| exact R].
  assert (0 < s) by (apply (normalize_pos s de); rewrite N; exact P).
  pose proof (normalize_normal s de H) as M. rewrite N in M. exact M.
Qed.

Lemma search_spec fuel : forall x vn vd n k r,
  search fuel x vn vd n k = Some r ->
  0 < fst r /\ fst r mod 10 <> 0 /\ round_decimal (fst r) (snd r) = x.
Proof.
  induction fuel as [| fuel IH]; intros x vn vd n k r; cbn [search]; [discriminate |].
  destruct (first_reading x (n - k) (candidates vn vd n k)) as [r' |] eqn:F.
  - intros E. injection E as <-. exact (first_reading_spec _ _ _ _ F).
  - apply IH.
Qed.

Lemma pow10_split e : (pow10 e == pow2 e * pow5 e)%Q.
Proof. unfold pow10, pow2, pow5. rewrite <- Qmult_power. reflexivity. Qed.

Lemma exact_decimal_value m e :
  (decimal_value (fst (exact_decimal (m, e))) (snd (exact_decimal (m, e))) == value (m, e))%Q.
Proof.
  unfold exact_decimal, value. cbn [fst snd]. fold (pow2 e).
  destruct (0 <=? e) eqn:E.
  - apply Z.leb_le in E. rewrite normalize_decimal. unfold decimal_value.
    rewrite inject_Z_mult, <- pow2_Z by exact E. change (pow10 0) with 1%Q. ring.
  - apply Z.leb_gt in E. rewrite normalize_decimal. unfold decimal_value.
    rewrite inject_Z_mult, pow10_split.
    assert (P : (inject_Z (5 ^ (- e)) * pow5 e == 1)%Q).
    { rewrite Zpower_Qpower by lia. unfold pow5.
      change (inject_Z 5) with 5%Q. rewrite <- Qpower_plus by discriminate.
      replace (- e + e) with 0 by lia. reflexivity. }
    rewrite <- (Qmult_1_r (inject_Z m * pow2 e)), <- P. ring.
Qed.

Lemma round_decimal_exact s de x :
  0 < s -> canonical x = true -> (decimal_value s de == value x)%Q -> round_decimal s de = x.
Proof.
  intros Hs Hc V. unfold round_decimal.
  destruct (decimal_fraction_spec s de Hs) as (Pn & Pd & F).
  destruct (decimal_fraction s de) as [n d]. cbn [fst snd] in *.
  apply round_exact; try assumption. rewrite F. exact V.
Qed.

Lemma exact_decimal_spec x :
  canonical x = true -> 0 < fst x ->
  0 < fst (exact_decimal x) /\ fst (exact_decimal x) mod 10 <> 0
  /\ round_decimal (fst (exact_decimal x)) (snd (exact_decimal x)) = x.
Proof.
  intros Hc Hm. destruct x as [m e]. cbn [fst] in Hm.
  pose proof (exact_decimal_value m e) as V.
  assert (A : 0 < fst (exact_decimal (m, e)) /\ fst (exact_decimal (m, e)) mod 10 <> 0).
  { unfold exact_decimal. destruct (0 <=? e) eqn:E.
    - apply Z.leb_le in E. pose proof (Z.pow_pos_nonneg 2 e ltac:(lia) E) as P.
      split; [apply normalize_pos | apply normalize_normal]; nia.
    - apply Z.leb_gt in E. pose proof (Z.pow_pos_nonneg 5 (- e) ltac:(lia) ltac:(lia)) as P.
      split; [apply normalize_pos | apply normalize_normal]; nia. }
  destruct A as [A1 A2]. split; [exact A1 |]. split; [exact A2 |].
  apply round_decimal_exact; assumption.
Qed.

(** The digits the program writes for a double read back as that double. *)
Lemma shortest_spec x :
  canonical x = true -> 0 < fst x ->
  0 < fst (shortest x) /\ fst (shortest x) mod 10 <> 0
  /\ round_decimal (fst (shortest x)) (snd (shortest x)) = x.
Proof.
  intros Hc Hm. unfold shortest. destruct (double_fraction x) as [vn vd].
  destruct (search 17 x vn vd (decimal_exponent vn vd) 1) as [r |] eqn:S.
  - exact (search_spec _ _ _ _ _ _ _ S).
  - apply exact_decimal_spec; assumption.
Qed.

Lemma round_decimal_canonical s de : 0 < s -> canonical (round_decimal s de) = true.
Proof.
  intros Hs. unfold round_decimal.
  destruct (decimal_fraction_spec s de Hs) as (Pn & Pd & F).
  destruct (decimal_fraction s de) as [n d]. apply round_canonical; assumption.
Qed.

(** What [double_of_decimal] returns is a fixed point of it. *)
Lemma double_of_decimal_cases m e :
  0 < m ->
  double_of_decimal m e = PosInfinity \/ double_of_decimal m e = Finite 0 0
  \/ exists s de, double_of_decimal m e = Finite s de /\ 0 < s /\ s mod 10 <> 0
       /\ double_of_decimal s de = Finite s de.
Proof.
  intros Hm. unfold double_of_decimal at 1 2 3.
  pose proof (round_decimal_canonical m e Hm) as Hc.
  set (x := round_decimal m e) in *.
  destruct (emax <? snd x) eqn:O; [left; reflexivity | right].
  destruct (fst x =? 0) eqn:Z0; [left; reflexivity | right].
  apply Z.eqb_neq in Z0.
  assert (Hx : 0 < fst x).
  { destruct x as [mx ex]. apply canonical_cases in Hc. cbn [fst] in *. lia. }
  destruct (shortest_spec x Hc Hx) as (P & N & R).
  destruct (shortest x) as [s de] eqn:S. cbn [fst snd] in *.
  exists s, de. split; [reflexivity |]. split; [exact P |]. split; [exact N |].
  unfold double_of_decimal. rewrite R, O.
  destruct (fst x =? 0) eqn:Z1; [apply Z.eqb_eq in Z1; lia |].
  rewrite S. reflexivity.
Qed.

End Decimals.

(** ** The JSON codec *)

Section Codec.
Import JSON.
Local Open Scope Z_scope.

(** ** Decimal digits *)

Abbreviation is_digits := (Forall (fun d : Z => 0 <= d < 10)).

Lemma code_char_of_code n : 0 <= n < 256 -> code (char_of_code n) = n.
Proof.
  intros H. unfold code, char_of_code.
  rewrite N_ascii_embedding by lia. lia.
Qed.

Lemma char_of_code_code c : char_of_code (code c) = c.
Proof.
  unfold code, char_of_code. rewrite N2Z.id. apply ascii_N_embedding.
Qed.

Lemma code_bound c : 0 <= code c < 256.
Proof.
  unfold code. pose proof (N_ascii_bounded c). lia.
Qed.

Lemma digit_of_digit_char d : 0 <= d < 10 -> digit_of (digit_char d) = Some d.
Proof.
  intros H. unfold digit_of, digit_char.
  rewrite code_char_of_code by lia.
  replace (48 <=? 48 + d) with true by (symmetry; apply Z.leb_le; lia).
  replace (48 + d <=? 57) with true by (symmetry; apply Z.leb_le; lia).
  cbn [andb]. f_equal. lia.
Qed.

Lemma digit_of_Some c d : digit_of c = Some d -> 0 <= d < 10 /\ c = digit_char d.
Proof.
  unfold digit_of, digit_char. intros H.
  destruct (48 <=? code c) eqn:H1; [| discriminate].
  destruct (code c <=? 57) eqn:H2; [| discriminate].
  cbn [andb] in H. injection H as <-.
  apply Z.leb_le in H1, H2. split; [lia |].
  replace (48 + (code c - 48)) with (code c) by lia.
  symmetry. apply char_of_code_code.
Qed.

Lemma digits_value_from (ds : list Z) (a : Z) :
  fold_left (fun acc d => acc * 10 + d) ds a = a * 10 ^ Z.of_nat (length ds) + digits_value ds.
Proof.
  unfold digits_value. revert a. induction ds as [| d ds IH]; intros a.
  - cbn. lia.
  - cbn [fold_left length]. rewrite IH, (IH (0 * 10 + d)).
    rewrite Nat2Z.inj_succ, Z.pow_succ_r by lia. lia.
Qed.

Lemma digits_value_app (l1 l2 : list Z) :
  digits_value (l1 ++ l2) = digits_value l1 * 10 ^ Z.of_nat (length l2) + digits_value l2.
Proof.
  unfold digits_value at 1. rewrite fold_left_app.
  apply digits_value_from.
Qed.

Lemma digits_value_cons d ds :
  digits_value (d :: ds) = d * 10 ^ Z.of_nat (length ds) + digits_value ds.
Proof. apply (digits_value_app [d] ds). Qed.

Lemma digits_value_zeros j : digits_value (zeros j) = 0.
Proof.
  induction j as [| j IH]; [reflexivity |].
  cbn [zeros]. rewrite digits_value_cons, IH. lia.
Qed.

Lemma length_zeros j : length (zeros j) = j.
Proof. induction j; cbn; congruence. Qed.

Lemma is_digits_zeros j : is_digits (zeros j).
Proof. induction j; constructor; [lia | assumption]. Qed.

Lemma digits_value_bound ds : is_digits ds -> 0 <= digits_value ds < 10 ^ Z.of_nat (length ds).
Proof.
  induction 1 as [| d ds Hd _ IH].
  - cbn. lia.
  - rewrite digits_value_cons. cbn [length].
    rewrite Nat2Z.inj_succ, Z.pow_succ_r by lia. nia.
Qed.

(** [Z_digits_aux] only puts digits in front of its accumulator. *)
Lemma Z_digits_aux_acc fuel n acc :
  Z_digits_aux fuel n acc = Z_digits_aux fuel n [] ++ acc.
Proof.
  revert n acc. induction fuel as [| fuel IH]; intros n acc; [reflexivity |].
  cbn [Z_digits_aux]. destruct (n <? 10); [reflexivity |].
  rewrite IH, (IH _ [n mod 10]), <- app_assoc. reflexivity.
Qed.

Lemma Z_digits_aux_step fuel n :
  Z_digits_aux (S fuel) n [] =
    if n <? 10 then [n] else Z_digits_aux fuel (n / 10) [] ++ [n mod 10].
Proof.
  cbn [Z_digits_aux]. destruct (n <? 10); [reflexivity |].
  apply Z_digits_aux_acc.
Qed.

(** With enough fuel the digits are digits, spell the number, start with a
    digit that is not zero and end with the last digit of the number. *)
Lemma Z_digits_aux_spec fuel :
  forall n, 0 <= n < 10 ^ Z.of_nat fuel -> (0 < fuel)%nat ->
    let ds := Z_digits_aux fuel n [] in
    is_digits ds /\ digits_value ds = n
    /\ (exists front, ds = front ++ [n mod 10])
    /\ (0 < n -> exists d rest, ds = d :: rest /\ d <> 0).
Proof.
  induction fuel as [| fuel IH]; intros n Hn Hf; [lia |].
  cbn zeta. rewrite Z_digits_aux_step.
  destruct (n <? 10) eqn:H10.
  - apply Z.ltb_lt in H10. split; [| split; [| split]].
    + repeat constructor; lia.
    + cbn. lia.
    + exists []. cbn. rewrite Z.mod_small by lia. reflexivity.
    + intros Hp. exists n, []. split; [reflexivity | lia].
  - apply Z.ltb_ge in H10.
    rewrite Nat2Z.inj_succ, Z.pow_succ_r in Hn by lia.
    assert (Hq : 0 <= n / 10 < 10 ^ Z.of_nat fuel).
    { split; [apply Z.div_pos; lia | apply Z.div_lt_upper_bound; lia]. }
    assert (Hq1 : 1 <= n / 10) by (apply Z.div_le_lower_bound; lia).
    assert (Hfuel : (0 < fuel)%nat).
    { destruct fuel; [cbn in Hq; lia | lia]. }
    destruct (IH (n / 10) Hq Hfuel) as (Hd & Hv & _ & Hh).
    split; [| split; [| split]].
    + apply Forall_app. split; [exact Hd |].
      repeat constructor; apply Z.mod_pos_bound; lia.
    + rewrite digits_value_app, Hv. cbn [length digits_value fold_left].
      change (10 ^ Z.of_nat 1) with 10.
      pose proof (Z.div_mod n 10). lia.
    + eexists. reflexivity.
    + intros _. destruct Hh as (d & rest & Hds & Hne); [lia |].
      rewrite Hds. exists d, (rest ++ [n mod 10]). split; [reflexivity | exact Hne].
Qed.

Lemma Z_digits_spec n :
  0 <= n ->
  is_digits (Z_digits n) /\ digits_value (Z_digits n) = n
  /\ (exists front, Z_digits n = front ++ [n mod 10])
  /\ (0 < n -> exists d rest, Z_digits n = d :: rest /\ d <> 0).
Proof.
  intros Hn. unfold Z_digits. apply Z_digits_aux_spec; [| lia].
  split; [exact Hn |].
  rewrite Nat2Z.inj_succ, Z2Nat.id by apply Z.log2_nonneg.
  destruct (Z.eq_dec n 0) as [-> | Hne]; [cbn; lia |].
  apply Z.lt_le_trans with (2 ^ Z.succ (Z.log2 n)).
  - apply Z.log2_spec. lia.
  - apply Z.pow_le_mono_l. lia.
Qed.

(** ** Scanning digits *)

Lemma append_nil_l (s : string) : EmptyString +:+ s = s.
Proof. reflexivity. Qed.

Lemma append_cons c (a b : string) : String c a +:+ b = String c (a +:+ b).
Proof. reflexivity. Qed.

Ltac push_append := rewrite ?append_cons, ?append_nil_l.

Lemma ends_number_not_digit rest : ends_number rest = true -> not_digit_start rest.
Proof.
  destruct rest as [| c rest]; [intros; exact I |].
  cbn [ends_number not_digit_start]. destruct (digit_of c); [discriminate | reflexivity].
Qed.

Lemma scan_digits_app ds rest :
  is_digits ds -> not_digit_start rest ->
  scan_digits (digits_string ds +:+ rest) = (ds, rest).
Proof.
  intros Hds Hrest. induction Hds as [| d ds Hd _ IH].
  - cbn [digits_string]. push_append. destruct rest as [| c rest]; [reflexivity |].
    cbn [not_digit_start] in Hrest. cbn [scan_digits]. rewrite Hrest. reflexivity.
  - cbn [digits_string]. push_append. cbn [scan_digits].
    rewrite digit_of_digit_char by exact Hd. rewrite IH. reflexivity.
Qed.

Lemma digits_string_app l1 l2 :
  digits_string (l1 ++ l2) = digits_string l1 +:+ digits_string l2.
Proof.
  induction l1 as [| d l1 IH]; [reflexivity |].
  cbn [app digits_string]. push_append. rewrite IH. reflexivity.
Qed.

Lemma append_assoc (a b c : string) : (a +:+ b) +:+ c = a +:+ (b +:+ c).
Proof.
  induction a as [| x a IH]; [reflexivity |].
  push_append. rewrite IH. reflexivity.
Qed.

(** A digit is none of the other characters of a number. *)
Lemma digit_char_eqb d c :
  0 <= d < 10 -> digit_of c = None -> Ascii.eqb (digit_char d) c = false.
Proof.
  intros Hd Hc. destruct (Ascii.eqb_spec (digit_char d) c) as [<- |]; [| reflexivity].
  rewrite digit_of_digit_char in Hc by exact Hd. discriminate.
Qed.

(** ** The parts of a number literal *)

Lemma parse_int_part_digits d ds rest :
  is_digits (d :: ds) -> d <> 0 -> not_digit_start rest ->
  parse_int_part (digits_string (d :: ds) +:+ rest) = Some (d :: ds, rest).
Proof.
  intros Hds Hd Hrest. inversion Hds as [| ? ? Hd0 Hds']; subst.
  cbn [digits_string]. push_append. cbn [parse_int_part].
  rewrite digit_of_digit_char by exact Hd0.
  destruct (Z.eqb_spec d 0) as [-> |]; [congruence |].
  rewrite scan_digits_app by assumption. reflexivity.
Qed.

Lemma parse_int_part_zero rest :
  parse_int_part (String "0" rest) = Some ([0], rest).
Proof. reflexivity. Qed.

Lemma parse_frac_part_none rest :
  ends_number rest = true -> parse_frac_part rest = Some ([], rest).
Proof.
  destruct rest as [| c rest]; [reflexivity |].
  cbn [ends_number parse_frac_part].
  destruct (digit_of c); [discriminate |].
  destruct (Ascii.eqb c "."); [discriminate | reflexivity].
Qed.

Lemma parse_frac_part_exp rest :
  parse_frac_part (String "e" rest) = Some ([], String "e" rest).
Proof. reflexivity. Qed.

Lemma parse_frac_part_digits d ds rest :
  is_digits (d :: ds) -> not_digit_start rest ->
  parse_frac_part (String "." (digits_string (d :: ds) +:+ rest)) = Some (d :: ds, rest).
Proof.
  intros Hds Hrest. cbn [parse_frac_part]. change (Ascii.eqb "." ".") with true. cbv iota.
  rewrite scan_digits_app by assumption. reflexivity.
Qed.

Lemma parse_exp_part_none rest :
  ends_number rest = true -> parse_exp_part rest = Some (0, rest).
Proof.
  destruct rest as [| c rest]; [reflexivity |].
  cbn [ends_number parse_exp_part].
  destruct (digit_of c); [discriminate |].
  destruct (Ascii.eqb c "."); cbn [orb negb]; [discriminate |].
  destruct (Ascii.eqb c "e"); cbn [orb negb]; [discriminate |].
  destruct (Ascii.eqb c "E"); cbn [orb negb]; [discriminate | reflexivity].
Qed.

Lemma parse_exp_part_exponent ex rest :
  not_digit_start rest ->
  parse_exp_part (String "e" (exponent_string ex +:+ rest)) = Some (ex, rest).
Proof.
  intros Hrest.
  destruct (Z_digits_spec (Z.abs ex) (Z.abs_nonneg ex)) as (Hd & Hv & (front & Hlast) & _).
  assert (Hne : Z_digits (Z.abs ex) <> []).
  { rewrite Hlast. destruct front; discriminate. }
  unfold exponent_string. push_append. cbn [parse_exp_part].
  change (Ascii.eqb "e" "e") with true. cbn [orb]. cbv iota.
  destruct (Z.ltb_spec ex 0) as [Hneg | Hpos].
  - change (Ascii.eqb "-" "+") with false. change (Ascii.eqb "-" "-") with true. cbv iota.
    unfold parse_exp_digits. rewrite scan_digits_app by assumption.
    destruct (Z_digits (Z.abs ex)) as [| d ds] eqn:E; [congruence |].
    rewrite Hv. f_equal. f_equal. lia.
  - change (Ascii.eqb "+" "+") with true. cbv iota.
    unfold parse_exp_digits. rewrite scan_digits_app by assumption.
    destruct (Z_digits (Z.abs ex)) as [| d ds] eqn:E; [congruence |].
    rewrite Hv. f_equal. f_equal. lia.
Qed.

(** ** Trailing zeros *)

Lemma drop_zeros_zeros j l : drop_zeros (zeros j ++ l) = drop_zeros l.
Proof. induction j as [| j IH]; [reflexivity | exact IH]. Qed.

Lemma rev_zeros j : rev (zeros j) = zeros j.
Proof.
  induction j as [| j IH]; [reflexivity |].
  cbn [zeros rev]. rewrite IH. clear IH.
  induction j as [| j IH]; [reflexivity |].
  cbn [zeros app]. rewrite IH. reflexivity.
Qed.

Lemma strip_trailing_zeros_app front d j :
  d <> 0 -> strip_trailing_zeros (front ++ [d] ++ zeros j) = front ++ [d].
Proof.
  intros Hd. unfold strip_trailing_zeros.
  rewrite !rev_app_distr, rev_zeros, <- app_assoc, drop_zeros_zeros.
  cbn [rev app drop_zeros].
  destruct (Z.eqb_spec d 0); [congruence |].
  cbn [rev]. rewrite rev_involutive. reflexivity.
Qed.

Lemma strip_trailing_zeros_last front d :
  d <> 0 -> strip_trailing_zeros (front ++ [d]) = front ++ [d].
Proof.
  intros Hd. pose proof (strip_trailing_zeros_app front d 0 Hd) as H.
  cbn [zeros app] in H. exact H.
Qed.

Lemma strip_trailing_zeros_zero : strip_trailing_zeros [0] = [].
Proof. reflexivity. Qed.

(** ** A number literal read back *)

(** The value of a literal whose digits are zeros, the digits of a number
    that does not end in zero, and [j] zeros. *)
Lemma number_of_literal_digits neg ids fds ex lead front d j m e :
  ids ++ fds = zeros lead ++ front ++ [d] ++ zeros j ->
  d <> 0 ->
  digits_value (front ++ [d]) = m ->
  m <> 0 ->
  double_of_decimal m e = Finite m e ->
  e = ex - Z.of_nat (length fds) + Z.of_nat j ->
  number_of_literal neg ids fds ex = Finite (if neg then - m else m) e.
Proof.
  intros Hds Hd Hm Hm0 Hov He. unfold number_of_literal.
  rewrite Hds.
  assert (Hstrip : strip_trailing_zeros (zeros lead ++ front ++ [d] ++ zeros j)
                   = zeros lead ++ front ++ [d]).
  { rewrite (app_assoc (zeros lead)). rewrite strip_trailing_zeros_app by exact Hd.
    rewrite <- app_assoc. reflexivity. }
  rewrite Hstrip.
  assert (Hval : digits_value (zeros lead ++ front ++ [d]) = m).
  { rewrite digits_value_app, digits_value_zeros, Hm. lia. }
  rewrite Hval.
  assert (Hlen : (length (zeros lead ++ front ++ [d] ++ zeros j)
                  - length (zeros lead ++ front ++ [d]))%nat = j).
  { rewrite !length_app, !length_zeros. cbn [length]. lia. }
  rewrite Hlen.
  destruct (Z.eqb_spec m 0); [congruence |].
  rewrite <- He, Hov. destruct neg; reflexivity.
Qed.

Lemma not_digit_start_point s : not_digit_start (String "." s).
Proof. reflexivity. Qed.

Lemma not_digit_start_e s : not_digit_start (String "e" s).
Proof. reflexivity. Qed.

Lemma ends_number_e s : ends_number (String "e" s) = false.
Proof. reflexivity. Qed.

(** The layouts of a positive number read back as that number. *)
Lemma parse_unsigned_layout neg m e rest :
  0 < m -> m mod 10 <> 0 -> double_of_decimal m e = Finite m e ->
  ends_number rest = true ->
  parse_unsigned neg (number_layout (Z_digits m) e +:+ rest)
  = Some (Finite (if neg then - m else m) e, rest).
Proof.
  intros Hm Hm10 Hov Hrest.
  destruct (Z_digits_spec m ltac:(lia)) as (Hd & Hv & (front & Hlast) & Hhead).
  destruct (Hhead Hm) as (d0 & tl & Hcons & Hd0).
  pose proof (ends_number_not_digit rest Hrest) as Hnd.
  assert (Hm0 : m <> 0) by lia.
  unfold number_layout, parse_unsigned.
  set (k := Z.of_nat (length (Z_digits m))).
  assert (Hk : 0 < k) by (unfold k; rewrite Hcons; cbn [length]; lia).
  destruct ((k <=? k + e) && (k + e <=? 21)) eqn:C1.
  { (* digits and zeros *)
    apply andb_true_iff in C1 as [C1 _]. apply Z.leb_le in C1.
    replace (k + e - k) with e by lia.
    assert (His : is_digits (Z_digits m ++ zeros (Z.to_nat e))).
    { apply Forall_app. split; [exact Hd | apply is_digits_zeros]. }
    rewrite Hcons in His |- *. cbn [app] in His |- *.
    rewrite parse_int_part_digits by assumption.
    rewrite parse_frac_part_none, parse_exp_part_none by exact Hrest.
    f_equal. f_equal.
    apply (number_of_literal_digits neg _ [] 0 0%nat front (m mod 10) (Z.to_nat e) m e);
      try assumption.
    - rewrite app_nil_r. change (d0 :: tl ++ zeros (Z.to_nat e))
        with ((d0 :: tl) ++ zeros (Z.to_nat e)).
      rewrite <- Hcons, Hlast, <- app_assoc. reflexivity.
    - rewrite <- Hlast. exact Hv.
    - cbn [length]. lia. }
  destruct ((0 <? k + e) && (k + e <=? 21)) eqn:C2.
  { (* digits with a point inside *)
    apply andb_true_iff in C2 as [C2 C2']. apply Z.ltb_lt in C2. apply Z.leb_le in C2'.
    apply andb_false_iff in C1.
    assert (Hlt : k + e < k).
    { destruct C1 as [C1 | C1]; apply Z.leb_gt in C1; lia. }
    clear C1.
    set (n := Z.to_nat (k + e)).
    assert (Hn : (0 < n < length (Z_digits m))%nat) by (unfold n, k in *; lia).
    assert (Htd : take n (Z_digits m) ++ drop n (Z_digits m) = Z_digits m)
      by apply take_drop.
    assert (Hit : is_digits (take n (Z_digits m))) by (apply Forall_take; exact Hd).
    assert (Hidr : is_digits (drop n (Z_digits m))) by (apply Forall_drop; exact Hd).
    destruct (take n (Z_digits m)) as [| t0 ttl] eqn:Et.
    { apply (f_equal length) in Et. rewrite length_take, Nat.min_l in Et by lia.
      cbn [length] in Et. lia. }
    destruct (drop n (Z_digits m)) as [| r0 rtl] eqn:Er.
    { apply (f_equal length) in Er. rewrite length_drop in Er. cbn [length] in Er. lia. }
    assert (t0 = d0).
    { rewrite Hcons in Et. destruct n as [| n']; [lia |]. cbn [take] in Et. congruence. }
    subst t0.
    rewrite append_assoc.
    rewrite parse_int_part_digits
      by (try assumption; apply not_digit_start_point).
    rewrite append_cons.
    rewrite parse_frac_part_digits by assumption.
    rewrite parse_exp_part_none by exact Hrest.
    f_equal. f_equal.
    apply (number_of_literal_digits neg _ _ 0 0%nat front (m mod 10) 0%nat m e);
      try assumption.
    - rewrite Htd, Hlast. cbn [zeros app]. rewrite ?app_nil_r. reflexivity.
    - rewrite <- Hlast. exact Hv.
    - assert (length (r0 :: rtl) = (length (Z_digits m) - n)%nat) as ->.
      { rewrite <- Er. apply length_drop. }
      unfold n, k in *. lia. }
  destruct ((-6 <? k + e) && (k + e <=? 0)) eqn:C3.
  { (* a zero, a point, zeros and digits *)
    apply andb_true_iff in C3 as [_ C3]. apply Z.leb_le in C3.
    push_append. rewrite parse_int_part_zero.
    assert (His : is_digits (zeros (Z.to_nat (- (k + e))) ++ Z_digits m)).
    { apply Forall_app. split; [apply is_digits_zeros | exact Hd]. }
    destruct (zeros (Z.to_nat (- (k + e))) ++ Z_digits m) as [| f0 ftl] eqn:Ef.
    { apply (f_equal length) in Ef. rewrite length_app, Hcons in Ef.
      cbn [length] in Ef. lia. }
    rewrite parse_frac_part_digits by assumption.
    rewrite parse_exp_part_none by exact Hrest.
    f_equal. f_equal.
    apply (number_of_literal_digits neg _ _ 0 (S (Z.to_nat (- (k + e)))) front
             (m mod 10) 0%nat m e); try assumption.
    - rewrite <- Ef, Hlast. cbn [zeros app]. rewrite ?app_nil_r. reflexivity.
    - rewrite <- Hlast. exact Hv.
    - assert (length (f0 :: ftl) = (Z.to_nat (- (k + e)) + length (Z_digits m))%nat) as ->.
      { rewrite <- Ef, length_app, length_zeros. reflexivity. }
      unfold k in *. lia. }
  (* an exponent *)
  rewrite Hcons. destruct tl as [| t1 tl'].
  - (* one digit *)
    assert (Hone : is_digits [d0]) by (rewrite <- Hcons; exact Hd).
    change (String (digit_char d0) (String "e" (exponent_string (k + e - 1))) +:+ rest)
      with (digits_string [d0] +:+ String "e" (exponent_string (k + e - 1) +:+ rest)).
    rewrite parse_int_part_digits
      by (try assumption; apply not_digit_start_e).
    rewrite parse_frac_part_exp.
    rewrite parse_exp_part_exponent by exact Hnd.
    f_equal. f_equal.
    apply (number_of_literal_digits neg _ _ _ 0%nat front (m mod 10) 0%nat m e);
      try assumption.
    + rewrite <- Hcons, Hlast. cbn [zeros app]. rewrite ?app_nil_r. reflexivity.
    + rewrite <- Hlast. exact Hv.
    + unfold k. rewrite Hcons. cbn [length]. lia.
  - (* a digit, a point, digits *)
    assert (Hall : is_digits (d0 :: t1 :: tl')) by (rewrite <- Hcons; exact Hd).
    inversion Hall as [| ? ? Hdd0 Htl]; subst.
    assert (Hone : is_digits [d0]) by (repeat constructor; apply Hdd0).
    change (String (digit_char d0)
              (String "." (digits_string (t1 :: tl')
                           +:+ String "e" (exponent_string (k + e - 1)))) +:+ rest)
      with (digits_string [d0]
            +:+ String "." ((digits_string (t1 :: tl')
                             +:+ String "e" (exponent_string (k + e - 1))) +:+ rest)).
    rewrite parse_int_part_digits
      by (try assumption; apply not_digit_start_point).
    rewrite append_assoc.
    rewrite parse_frac_part_digits
      by (try assumption; apply not_digit_start_e).
    rewrite append_cons.
    rewrite parse_exp_part_exponent by exact Hnd.
    f_equal. f_equal.
    apply (number_of_literal_digits neg _ _ _ 0%nat front (m mod 10) 0%nat m e);
      try assumption.
    + change ([d0] ++ t1 :: tl') with (d0 :: t1 :: tl').
      rewrite <- Hcons, Hlast. cbn [zeros app]. rewrite ?app_nil_r. reflexivity.
    + rewrite <- Hlast. exact Hv.
    + unfold k. rewrite Hcons. cbn [length]. lia.
Qed.

(** The first character of a layout is a digit. *)
Lemma number_layout_head m e :
  0 < m ->
  exists d s, number_layout (Z_digits m) e = String (digit_char d) s /\ 0 <= d < 10.
Proof.
  intros Hm.
  destruct (Z_digits_spec m ltac:(lia)) as (Hd & _ & _ & Hhead).
  destruct (Hhead Hm) as (d0 & tl & Hcons & _).
  assert (Hd0 : 0 <= d0 < 10).
  { rewrite Hcons in Hd. inversion Hd; assumption. }
  unfold number_layout.
  set (k := Z.of_nat (length (Z_digits m))).
  destruct ((k <=? k + e) && (k + e <=? 21)).
  { rewrite Hcons. cbn [app digits_string]. eauto. }
  destruct ((0 <? k + e) && (k + e <=? 21)) eqn:C2.
  { apply andb_true_iff in C2 as [C2 _]. apply Z.ltb_lt in C2.
    rewrite Hcons. destruct (Z.to_nat (k + e)) as [| n'] eqn:En; [lia |].
    cbn [take digits_string]. rewrite append_cons. eauto. }
  destruct ((-6 <? k + e) && (k + e <=? 0)).
  { exists 0, (String "." (digits_string (zeros (Z.to_nat (- (k + e))) ++ Z_digits m))).
    split; [reflexivity | lia]. }
  rewrite Hcons. destruct tl; eauto.
Qed.

Lemma parse_sign_digit d s :
  0 <= d < 10 -> parse_sign (String (digit_char d) s) = (false, String (digit_char d) s).
Proof.
  intros Hd. cbn [parse_sign]. rewrite digit_char_eqb by (exact Hd || reflexivity).
  reflexivity.
Qed.

(** The decimal that names a double has no trailing zero. *)
Lemma double_of_decimal_normal m e :
  0 < m -> double_of_decimal m e = Finite m e -> m mod 10 <> 0.
Proof.
  intros Hm H.
  destruct (double_of_decimal_cases m e Hm) as [E | [E | (s & de & E & _ & N & _)]];
    rewrite E in H; [discriminate | injection H; lia |].
  injection H as -> _. exact N.
Qed.

(** A valid finite number, written by [Number::toString], reads back. *)
Lemma parse_number_NumberToString m e rest :
  valid_number (Finite m e) -> ends_number rest = true ->
  parse_number (NumberToString m e +:+ rest) = Some (Finite m e, rest).
Proof.
  intros Hvalid Hrest. unfold NumberToString, parse_number.
  destruct (Z.eqb_spec m 0) as [-> | Hm0].
  - destruct Hvalid as [[_ ->] | [H _]]; [| exfalso; apply H; reflexivity].
    push_append. change (parse_sign (String "0" rest)) with (false, String "0" rest).
    cbv beta iota. unfold parse_unsigned. rewrite parse_int_part_zero.
    rewrite parse_frac_part_none, parse_exp_part_none by exact Hrest.
    reflexivity.
  - destruct Hvalid as [[H _] | [_ Hov]]; [congruence |].
    pose proof (double_of_decimal_normal (Z.abs m) e ltac:(lia) Hov) as H10.
    destruct (Z.ltb_spec m 0) as [Hneg | Hpos].
    + push_append.
      change (parse_sign (String "-" (number_layout (Z_digits (Z.abs m)) e +:+ rest)))
        with (true, number_layout (Z_digits (Z.abs m)) e +:+ rest).
      cbv beta iota.
      rewrite parse_unsigned_layout;
        [| lia | exact H10 | exact Hov | exact Hrest].
      f_equal. f_equal. f_equal. lia.
    + destruct (number_layout_head (Z.abs m) e ltac:(lia)) as (d & s & Hl & Hd).
      rewrite Hl at 1. push_append. rewrite parse_sign_digit by exact Hd.
      cbv beta iota. rewrite <- append_cons, <- Hl.
      rewrite parse_unsigned_layout;
        [| lia | exact H10 | exact Hov | exact Hrest].
      f_equal. f_equal. f_equal. lia.
Qed.

(** ** Strings *)

(** One escaped character reads back as the character. *)
Lemma parse_string_body_escape_char c tail :
  parse_string_body (escape_char c +:+ tail) = prepend (str1 c) (parse_string_body tail).
Proof.
  destruct c as [[] [] [] [] [] [] [] []]; reflexivity.
Qed.

Lemma parse_string_body_escape_string s rest :
  parse_string_body (escape_string s +:+ String dquote rest) = Some (s, rest).
Proof.
  induction s as [| c s IH].
  - reflexivity.
  - cbn [escape_string]. rewrite append_assoc, parse_string_body_escape_char, IH.
    reflexivity.
Qed.

(** ** Values *)

(** Induction over values, with the hypothesis for every element and member. *)
Lemma JSValue_ind (P : JSValue -> Prop) :
  P JNull ->
  (forall b, P (JBool b)) ->
  (forall n, P (JNum n)) ->
  (forall s, P (JStr s)) ->
  (forall elems, Forall P elems -> P (JArr elems)) ->
  (forall props, Forall (fun kx => P (snd kx)) props -> P (JObj props)) ->
  forall v, P v.
Proof.
  intros Hnull Hbool Hnum Hstr Harr Hobj.
  fix IH 1. intros [| b | n | s | elems | props].
  - exact Hnull.
  - apply Hbool.
  - apply Hnum.
  - apply Hstr.
  - apply Harr. induction elems as [| x elems IHl]; constructor; [apply IH | exact IHl].
  - apply Hobj. induction props as [| kx props IHl]; constructor; [apply IH | exact IHl].
Qed.

Lemma wf_value_arr elems : wf_value (JArr elems) <-> Forall wf_value elems.
Proof.
  induction elems as [| x elems IH].
  - split; [constructor | intros; exact I].
  - split.
    + intros [Hx Hl]. constructor; [exact Hx | apply IH, Hl].
    + intros H. inversion H; subst. split; [assumption | apply IH; assumption].
Qed.

Lemma wf_value_obj props :
  wf_value (JObj props)
  <-> NoDup (map fst props) /\ Forall (fun kx => wf_value (snd kx)) props.
Proof.
  cbn [wf_value].
  assert (H : (fix all (l : list (string * JSValue)) : Prop :=
                 match l with
                 | [] => True
                 | kx :: l' => wf_value (snd kx) /\ all l'
                 end) props
              <-> Forall (fun kx => wf_value (snd kx)) props).
  { induction props as [| kx props IH].
    - split; [constructor | intros; exact I].
    - split.
      + intros [Hx Hl]. constructor; [exact Hx | apply IH, Hl].
      + intros H. inversion H; subst. split; [assumption | apply IH; assumption]. }
  rewrite H. reflexivity.
Qed.

Lemma skip_ws_head c s : is_ws c = false -> skip_ws (String c s) = String c s.
Proof. intros H. cbn [skip_ws]. rewrite H. reflexivity. Qed.

Lemma parse_value_number fuel c s :
  number_start c ->
  parse_value (S fuel) (String c s) =
    match parse_number (String c s) with
    | Some (n, r) => Some (JNum n, r)
    | None => None
    end.
Proof.
  intros [-> | (d & Hd & ->)]; [reflexivity |].
  assert (d = 0 \/ d = 1 \/ d = 2 \/ d = 3 \/ d = 4 \/ d = 5 \/ d = 6
          \/ d = 7 \/ d = 8 \/ d = 9) as Hc by lia.
  repeat (destruct Hc as [Hc | Hc]; [subst d; reflexivity |]).
  subst d. reflexivity.
Qed.

Lemma NumberToString_head m e :
  exists c s, NumberToString m e = String c s /\ number_start c.
Proof.
  unfold NumberToString.
  destruct (Z.eqb_spec m 0) as [-> | Hm0].
  - exists "0"%char, EmptyString. split; [reflexivity |]. right. exists 0. split; [lia | reflexivity].
  - destruct (Z.ltb_spec m 0).
    + eexists _, _. split; [reflexivity | left; reflexivity].
    + destruct (number_layout_head (Z.abs m) e ltac:(lia)) as (d & s & Hl & Hd).
      exists (digit_char d), s. split; [exact Hl | right; eauto].
Qed.

(** The first character of the text of a value is not white space, and it
    closes neither an array nor an object. *)
Lemma JSON_stringify_head v :
  exists c s, JSON_stringify v = String c s
              /\ is_ws c = false /\ Ascii.eqb c "]" = false /\ Ascii.eqb c "}" = false.
Proof.
  destruct v as [| [] | [m e | |] | s | elems | props]; cbn [JSON_stringify];
    try (eexists _, _; split; [reflexivity | repeat split; reflexivity]).
  destruct (NumberToString_head m e) as (c & s & -> & [-> | (d & Hd & ->)]).
  - eexists _, _. split; [reflexivity | repeat split; reflexivity].
  - eexists _, _. split; [reflexivity |].
    assert (d = 0 \/ d = 1 \/ d = 2 \/ d = 3 \/ d = 4 \/ d = 5 \/ d = 6
            \/ d = 7 \/ d = 8 \/ d = 9) as Hc by lia.
    repeat (destruct Hc as [Hc | Hc]; [subst d; repeat split; reflexivity |]).
    subst d. repeat split; reflexivity.
Qed.

Lemma ends_value_ends_number rest : ends_value rest = true -> ends_number rest = true.
Proof.
  destruct rest as [| c rest]; [reflexivity |].
  cbn [ends_value ends_number]. intros H.
  apply orb_true_iff in H as [H | H]; [apply orb_true_iff in H as [H | H] |];
    apply Ascii.eqb_eq in H; subst c; reflexivity.
Qed.

Lemma ends_value_skip_ws rest : ends_value rest = true -> skip_ws rest = rest.
Proof.
  destruct rest as [| c rest]; [reflexivity |].
  cbn [ends_value]. intros H. apply skip_ws_head.
  apply orb_true_iff in H as [H | H]; [apply orb_true_iff in H as [H | H] |];
    apply Ascii.eqb_eq in H; subst c; reflexivity.
Qed.

Lemma list_sum_cons a l : list_sum (a :: l) = (a + list_sum l)%nat.
Proof. reflexivity. Qed.

Lemma parse_elements_join elems :
  Forall reads_back elems -> Forall wf_value elems -> elems <> [] ->
  forall acc fuel rest,
    (list_sum (map (fun x => S (value_size x)) elems) <= fuel)%nat ->
    parse_elements fuel (join_comma (map JSON_stringify elems) +:+ String "]" rest) acc
    = Some (JArr (acc ++ map reread elems), rest).
Proof.
  intros HP Hwf. induction elems as [| x elems IH]; intros Hne acc fuel rest Hfuel;
    [congruence |].
  inversion HP as [| ? ? Hx HPl]; subst. inversion Hwf as [| ? ? Hwx Hwl]; subst.
  cbn [map] in Hfuel. rewrite list_sum_cons in Hfuel.
  destruct fuel as [| fuel]; [lia |].
  cbn [parse_elements].
  destruct elems as [| y elems].
  - cbn [map join_comma].
    rewrite (Hx Hwx fuel (String "]" rest)) by (lia || reflexivity).
    reflexivity.
  - change (join_comma (map JSON_stringify (x :: y :: elems)))
      with (JSON_stringify x +:+ String "," (join_comma (map JSON_stringify (y :: elems)))).
    rewrite append_assoc, append_cons.
    rewrite (Hx Hwx fuel) by (lia || reflexivity).
    cbn [skip_ws is_ws]. change (is_ws ",") with false. cbv iota.
    change (Ascii.eqb "," ",") with true. cbv iota.
    rewrite (IH HPl Hwl) by (congruence || lia).
    rewrite <- app_assoc. reflexivity.
Qed.


Lemma member_text_app k v tail :
  member_text JSON_stringify (k, v) +:+ tail
  = String dquote (escape_string k +:+ String dquote (String ":" (JSON_stringify v +:+ tail))).
Proof.
  unfold member_text. cbn [fst snd]. unfold QuoteJSONString, str1.
  rewrite append_assoc. push_append. rewrite append_assoc. push_append. reflexivity.
Qed.

Lemma parse_members_step fuel k v tail acc :
  parse_members (S fuel) (member_text JSON_stringify (k, v) +:+ tail) acc =
    match parse_value fuel (JSON_stringify v +:+ tail) with
    | None => None
    | Some (x, r3) =>
        match skip_ws r3 with
        | EmptyString => None
        | String c3 r4 =>
            if Ascii.eqb c3 "," then parse_members fuel r4 (obj_set k x acc)
            else if Ascii.eqb c3 "}" then Some (JObj (obj_set k x acc), r4)
            else None
        end
    end.
Proof.
  rewrite member_text_app. cbn [parse_members].
  rewrite skip_ws_head by reflexivity.
  change (Ascii.eqb dquote dquote) with true. cbv iota.
  rewrite parse_string_body_escape_string.
  rewrite skip_ws_head by reflexivity.
  change (Ascii.eqb ":" ":") with true. cbv iota.
  reflexivity.
Qed.

Lemma parse_members_join props :
  Forall (fun kx => reads_back (snd kx)) props ->
  Forall (fun kx => wf_value (snd kx)) props -> props <> [] ->
  forall acc fuel rest,
    (list_sum (map (fun kx => S (value_size (snd kx))) props) <= fuel)%nat ->
    parse_members fuel (join_comma (map (member_text JSON_stringify) props) +:+ String "}" rest) acc
    = Some (JObj (read_members props acc), rest).
Proof.
  intros HP Hwf. induction props as [| [k x] props IH]; intros Hne acc fuel rest Hfuel;
    [congruence |].
  inversion HP as [| ? ? Hx HPl]; subst. inversion Hwf as [| ? ? Hwx Hwl]; subst.
  cbn [snd] in Hx, Hwx.
  cbn [map] in Hfuel. rewrite list_sum_cons in Hfuel. cbn [snd] in Hfuel.
  destruct fuel as [| fuel]; [lia |].
  destruct props as [| ky props].
  - cbn [map join_comma]. rewrite parse_members_step.
    rewrite (Hx Hwx fuel (String "}" rest)) by (lia || reflexivity).
    reflexivity.
  - change (join_comma (map (member_text JSON_stringify) ((k, x) :: ky :: props)))
      with (member_text JSON_stringify (k, x) +:+ String "," (join_comma (map (member_text JSON_stringify) (ky :: props)))).
    rewrite append_assoc, append_cons, parse_members_step.
    rewrite (Hx Hwx fuel) by (lia || reflexivity).
    rewrite skip_ws_head by reflexivity.
    change (Ascii.eqb "," ",") with true. cbv iota.
    rewrite (IH HPl Hwl) by (congruence || lia).
    reflexivity.
Qed.

Lemma parse_value_string fuel text :
  parse_value (S fuel) (String dquote text) =
    match parse_string_body text with
    | Some (str, r) => Some (JStr str, r)
    | None => None
    end.
Proof. reflexivity. Qed.

Lemma parse_value_array fuel c s :
  is_ws c = false -> Ascii.eqb c "]" = false ->
  parse_value (S fuel) (String "[" (String c s)) = parse_elements fuel (String c s) [].
Proof.
  intros Hws Hc. cbn [parse_value].
  rewrite (skip_ws_head "[") by reflexivity.
  change (Ascii.eqb "[" "{") with false. change (Ascii.eqb "[" "[") with true. cbv iota.
  rewrite skip_ws_head by exact Hws. rewrite Hc. reflexivity.
Qed.

Lemma parse_value_object fuel c s :
  is_ws c = false -> Ascii.eqb c "}" = false ->
  parse_value (S fuel) (String "{" (String c s)) = parse_members fuel (String c s) [].
Proof.
  intros Hws Hc. cbn [parse_value].
  rewrite (skip_ws_head "{") by reflexivity.
  change (Ascii.eqb "{" "{") with true. cbv iota.
  rewrite skip_ws_head by exact Hws. rewrite Hc. reflexivity.
Qed.

(** Setting a key that is not there adds it at the end. *)
Lemma obj_set_fresh k v props :
  k ∉ map fst props -> obj_set k v props = props ++ [(k, v)].
Proof.
  induction props as [| [k' v'] props IH]; intros Hk; [reflexivity |].
  cbn [obj_set map fst] in *.
  apply not_elem_of_cons in Hk as [Hne Hk].
  destruct (String.eqb_spec k k'); [congruence |].
  rewrite IH by exact Hk. reflexivity.
Qed.

Lemma read_members_fresh props :
  forall acc,
    NoDup (map fst acc ++ map fst props) ->
    read_members props acc = acc ++ map (fun kx => (fst kx, reread (snd kx))) props.
Proof.
  unfold read_members.
  induction props as [| [k x] props IH]; intros acc Hnd.
  - cbn. rewrite app_nil_r. reflexivity.
  - cbn [fold_left map fst snd] in *.
    assert (Hk : k ∉ map fst acc).
    { apply NoDup_app in Hnd as (_ & Hdis & _). intros Hin.
      apply (Hdis k Hin). left. }
    rewrite obj_set_fresh by exact Hk.
    rewrite IH.
    + rewrite <- app_assoc. reflexivity.
    + rewrite map_app. cbn [map fst]. rewrite <- app_assoc. exact Hnd.
Qed.

(** The text [JSON.stringify] writes for a value [JSON.parse] can return reads
    back as the value, its numbers that are not finite replaced by null. *)
Lemma parse_value_stringify v : reads_back v.
Proof.
  induction v as [| b | n | s | elems IH | props IH] using JSValue_ind;
    intros Hwf fuel rest Hfuel Hrest;
    (destruct fuel as [| fuel]; [cbn in Hfuel; lia |]).
  - reflexivity.
  - destruct b; reflexivity.
  - destruct n as [m e | |]; [| reflexivity | reflexivity].
    cbn [JSON_stringify reread is_finite].
    destruct (NumberToString_head m e) as (c & s & Heq & Hstart).
    rewrite Heq. push_append. rewrite parse_value_number by exact Hstart.
    rewrite <- append_cons, <- Heq.
    rewrite parse_number_NumberToString
      by (exact Hwf || apply ends_value_ends_number, Hrest).
    reflexivity.
  - cbn [JSON_stringify reread]. unfold QuoteJSONString, str1. push_append.
    rewrite append_assoc. push_append.
    rewrite parse_value_string, parse_string_body_escape_string. reflexivity.
  - apply wf_value_arr in Hwf.
    destruct elems as [| x elems]; [reflexivity |].
    cbn [JSON_stringify reread]. push_append. rewrite append_assoc. push_append.
    destruct (JSON_stringify_head x) as (c & s & Hhead & Hws & Hc1 & _).
    assert (Hj : exists t, join_comma (map JSON_stringify (x :: elems)) = String c t).
    { destruct elems; cbn [map join_comma]; rewrite Hhead; push_append; eauto. }
    destruct Hj as (t & Hj). rewrite Hj at 1. push_append.
    rewrite parse_value_array by assumption.
    rewrite <- append_cons, <- Hj.
    cbn [value_size] in Hfuel.
    rewrite parse_elements_join; try assumption; [reflexivity | congruence | lia].
  - apply wf_value_obj in Hwf as [Hnd Hwf].
    destruct props as [| [k x] props]; [reflexivity |].
    cbn [JSON_stringify reread]. push_append. rewrite append_assoc. push_append.
    assert (Hj : exists t, join_comma (map (member_text JSON_stringify) ((k, x) :: props)) = String dquote t).
    { destruct props; cbn [map join_comma]; unfold member_text, QuoteJSONString;
        push_append; eauto. }
    destruct Hj as (t & Hj). rewrite Hj at 1. push_append.
    rewrite parse_value_object by reflexivity.
    rewrite <- append_cons, <- Hj.
    cbn [value_size] in Hfuel.
    rewrite parse_members_join; try assumption; [| congruence | lia].
    rewrite read_members_fresh by exact Hnd. reflexivity.
Qed.


Lemma length_append (a b : string) :
  String.length (a +:+ b) = (String.length a + String.length b)%nat.
Proof.
  induction a as [| c a IH]; [reflexivity |].
  push_append. cbn [String.length]. rewrite IH. reflexivity.
Qed.

Lemma append_nil_r (s : string) : s +:+ EmptyString = s.
Proof.
  induction s as [| c s IH]; [reflexivity |]. push_append. rewrite IH. reflexivity.
Qed.

Lemma length_join_comma {A} (f : A -> nat) (g : A -> string) :
  forall elems,
    Forall (fun x => (f x <= String.length (g x))%nat) elems ->
    (list_sum (map (fun x => S (f x)) elems)
     <= S (String.length (join_comma (map g elems))))%nat.
Proof.
  induction elems as [| x elems IH]; intros H; [cbn; lia |].
  inversion H as [| ? ? Hx Hl]; subst.
  cbn [map]. rewrite list_sum_cons.
  destruct elems as [| y elems].
  - cbn [map join_comma list_sum fold_right]. lia.
  - change (join_comma (g x :: map g (y :: elems)))
      with (g x +:+ String "," (join_comma (map g (y :: elems)))).
    rewrite length_append. cbn [String.length].
    specialize (IH Hl). lia.
Qed.

(** The text of a value is at least as long as the fuel its reading takes. *)
Lemma value_size_length v : (value_size v <= String.length (JSON_stringify v))%nat.
Proof.
  induction v as [| b | n | s | elems IH | props IH] using JSValue_ind.
  - cbn. lia.
  - destruct b; cbn; lia.
  - destruct n as [m e | |]; [| cbn; lia | cbn; lia].
    cbn [JSON_stringify value_size].
    destruct (NumberToString_head m e) as (c & s & -> & _). cbn [String.length]. lia.
  - cbn [JSON_stringify value_size]. unfold QuoteJSONString. cbn [String.length]. lia.
  - cbn [JSON_stringify value_size String.length]. rewrite length_append.
    pose proof (length_join_comma value_size JSON_stringify elems IH).
    cbn [String.length]. lia.
  - cbn [JSON_stringify value_size String.length]. rewrite length_append.
    assert (H : Forall (fun kx : string * JSValue =>
                          (value_size (snd kx)
                           <= String.length (member_text JSON_stringify kx))%nat) props).
    { eapply Forall_impl; [exact IH |]. intros [k x] Hx. cbn [snd] in *.
      unfold member_text. rewrite length_append. cbn [String.length snd]. lia. }
    pose proof (length_join_comma (fun kx => value_size (snd kx))
                  (member_text JSON_stringify) props H).
    cbn [String.length]. lia.
Qed.

(** [JSON.parse (JSON.stringify v)] is [reread v]. *)
Lemma JSON_parse_stringify v :
  wf_value v -> JSON_parse (JSON_stringify v) = Some (reread v).
Proof.
  intros Hwf. unfold JSON_parse.
  rewrite <- (append_nil_r (JSON_stringify v)) at 2.
  rewrite (parse_value_stringify v Hwf)
    by (reflexivity || (pose proof (value_size_length v); lia)).
  reflexivity.
Qed.

(** ** What [JSON.parse] returns is well formed *)

Lemma scan_digits_digits s ds r : scan_digits s = (ds, r) -> is_digits ds.
Proof.
  revert ds r. induction s as [| c s IH]; intros ds r H.
  - injection H as <- _. constructor.
  - cbn [scan_digits] in H. destruct (digit_of c) as [d |] eqn:Hc.
    + destruct (scan_digits s) as [ds' r'] eqn:Hs. injection H as <- _.
      constructor; [apply (digit_of_Some c d Hc) | apply (IH _ _ eq_refl)].
    + injection H as <- _. constructor.
Qed.

Lemma parse_int_part_digits_only s ds r : parse_int_part s = Some (ds, r) -> is_digits ds.
Proof.
  destruct s as [| c s]; [discriminate |]. cbn [parse_int_part].
  destruct (digit_of c) as [d |] eqn:Hc; [| discriminate].
  destruct (d =? 0) eqn:Hd.
  - intros H. injection H as <- _. repeat constructor; lia.
  - destruct (scan_digits s) as [ds' r'] eqn:Hs. intros H. injection H as <- _.
    constructor; [apply (digit_of_Some c d Hc) | apply (scan_digits_digits _ _ _ Hs)].
Qed.

Lemma parse_frac_part_digits_only s ds r : parse_frac_part s = Some (ds, r) -> is_digits ds.
Proof.
  destruct s as [| c s]; cbn [parse_frac_part].
  - intros H. injection H as <- _. constructor.
  - destruct (Ascii.eqb c ".").
    + destruct (scan_digits s) as [[| d ds'] r'] eqn:Hs; [discriminate |].
      intros H. injection H as <- _. apply (scan_digits_digits _ _ _ Hs).
    + intros H. injection H as <- _. constructor.
Qed.

Lemma drop_zeros_spec l :
  is_digits l ->
  is_digits (drop_zeros l)
  /\ (drop_zeros l = [] \/ exists d t, drop_zeros l = d :: t /\ d <> 0).
Proof.
  induction 1 as [| d l Hd Hl IH]; [split; [constructor | left; reflexivity] |].
  cbn [drop_zeros]. destruct (Z.eqb_spec d 0) as [-> | Hne]; [exact IH |].
  split; [constructor; assumption | right; eauto].
Qed.

Lemma strip_trailing_zeros_spec ds :
  is_digits ds ->
  strip_trailing_zeros ds = []
  \/ exists front d, strip_trailing_zeros ds = front ++ [d]
                     /\ d <> 0 /\ 0 <= d < 10 /\ is_digits front.
Proof.
  intros Hds. unfold strip_trailing_zeros.
  assert (Hrev : is_digits (rev ds)) by (apply Forall_rev; exact Hds).
  destruct (drop_zeros_spec (rev ds) Hrev) as [Hd [E | (d & t & E & Hne)]];
    rewrite E in *.
  - left. reflexivity.
  - right. exists (rev t), d. inversion Hd; subst.
    split; [reflexivity |]. split; [exact Hne |]. split; [assumption |].
    apply Forall_rev. assumption.
Qed.

Lemma digits_value_last front d : digits_value (front ++ [d]) = digits_value front * 10 + d.
Proof.
  rewrite digits_value_app. cbn [length digits_value fold_left].
  change (10 ^ Z.of_nat 1) with 10. lia.
Qed.

(** The number a literal stands for is valid. *)
Lemma number_of_literal_valid neg ids fds ex :
  is_digits ids -> is_digits fds -> valid_number (number_of_literal neg ids fds ex).
Proof.
  intros Hi Hf. unfold number_of_literal.
  assert (Hds : is_digits (ids ++ fds)) by (apply Forall_app; split; assumption).
  destruct (Z.eqb_spec (digits_value (strip_trailing_zeros (ids ++ fds))) 0) as [| Hm0];
    [left; split; reflexivity |].
  destruct (strip_trailing_zeros_spec (ids ++ fds) Hds)
    as [E | (front & d & E & Hd & Hd10 & Hfront)].
  { rewrite E in Hm0. cbn in Hm0. congruence. }
  rewrite E in *.
  pose proof (digits_value_bound front Hfront) as Hb.
  assert (Hpos : 0 < digits_value (front ++ [d])).
  { rewrite digits_value_last in Hm0 |- *. lia. }
  set (m := digits_value (front ++ [d])) in *.
  set (e := ex - Z.of_nat (length fds)
            + Z.of_nat (length (ids ++ fds) - length (front ++ [d]))).
  destruct (double_of_decimal_cases m e Hpos) as [R | [R | (s & de & R & Hs & _ & Hfix)]];
    rewrite R.
  - destruct neg; exact I.
  - destruct neg; left; split; reflexivity.
  - destruct neg; cbn [negate valid_number]; right.
    + split; [lia |]. rewrite Z.abs_opp, Z.abs_eq by lia. exact Hfix.
    + split; [lia |]. rewrite Z.abs_eq by lia. exact Hfix.
Qed.

Lemma parse_number_valid s n r : parse_number s = Some (n, r) -> valid_number n.
Proof.
  unfold parse_number. destruct (parse_sign s) as [neg s0]. unfold parse_unsigned.
  destruct (parse_int_part s0) as [[ids s1] |] eqn:Hi; [| discriminate].
  destruct (parse_frac_part s1) as [[fds s2] |] eqn:Hf; [| discriminate].
  destruct (parse_exp_part s2) as [[ex s3] |]; [| discriminate].
  intros H. injection H as <- _.
  apply number_of_literal_valid.
  - exact (parse_int_part_digits_only _ _ _ Hi).
  - exact (parse_frac_part_digits_only _ _ _ Hf).
Qed.

(** Setting a property keeps the keys distinct and the values well formed. *)
Lemma obj_set_keys k v props x :
  x ∈ map fst (obj_set k v props) <-> x = k \/ x ∈ map fst props.
Proof.
  induction props as [| [k' v'] props IH]; cbn [obj_set map fst].
  - rewrite list_elem_of_singleton, elem_of_nil. tauto.
  - destruct (String.eqb_spec k k') as [-> | Hne]; cbn [map fst].
    + rewrite !elem_of_cons. tauto.
    + rewrite !elem_of_cons, IH. tauto.
Qed.

Lemma obj_set_NoDup k v props :
  NoDup (map fst props) -> NoDup (map fst (obj_set k v props)).
Proof.
  induction props as [| [k' v'] props IH]; cbn [obj_set map fst]; intros Hnd.
  - repeat constructor. apply not_elem_of_nil.
  - apply NoDup_cons in Hnd as [Hk' Hnd].
    destruct (String.eqb_spec k k') as [-> | Hne]; cbn [map fst].
    + apply NoDup_cons. split; assumption.
    + apply NoDup_cons. split; [| apply IH, Hnd].
      rewrite obj_set_keys. intros [-> | Hin]; [congruence | exact (Hk' Hin)].
Qed.

Lemma obj_set_wf k v props :
  wf_value v -> Forall (fun kx => wf_value (snd kx)) props ->
  Forall (fun kx => wf_value (snd kx)) (obj_set k v props).
Proof.
  intros Hv. induction 1 as [| [k' v'] props Hx Hl IH]; cbn [obj_set].
  - repeat constructor. exact Hv.
  - destruct (String.eqb k k'); constructor; assumption.
Qed.

(** Whatever the three functions of the parser return is well formed. *)
Lemma parse_wf fuel :
  (forall s v r, parse_value fuel s = Some (v, r) -> wf_value v)
  /\ (forall s acc v r,
        Forall wf_value acc -> parse_elements fuel s acc = Some (v, r) -> wf_value v)
  /\ (forall s acc v r,
        NoDup (map fst acc) -> Forall (fun kx => wf_value (snd kx)) acc ->
        parse_members fuel s acc = Some (v, r) -> wf_value v).
Proof.
  induction fuel as [| fuel (IHv & IHe & IHm)].
  - split; [| split]; intros; discriminate.
  - split; [| split].
    + intros s v r. cbn [parse_value].
      destruct (skip_ws s) as [| c t]; [discriminate |].
      destruct (Ascii.eqb c "{").
      { destruct (skip_ws t) as [| c' t']; [discriminate |].
        destruct (Ascii.eqb c' "}").
        - intros H. injection H as <- _. apply wf_value_obj. split; constructor.
        - apply IHm; constructor. }
      destruct (Ascii.eqb c "[").
      { destruct (skip_ws t) as [| c' t']; [discriminate |].
        destruct (Ascii.eqb c' "]").
        - intros H. injection H as <- _. exact I.
        - apply IHe; constructor. }
      destruct (Ascii.eqb c dquote).
      { destruct (parse_string_body t) as [[str r'] |]; [| discriminate].
        intros H. injection H as <- _. exact I. }
      unfold parse_literal.
      destruct (Ascii.eqb c "t").
      { destruct (strip_prefix _ _); [| discriminate]. intros H. injection H as <- _. exact I. }
      destruct (Ascii.eqb c "f").
      { destruct (strip_prefix _ _); [| discriminate]. intros H. injection H as <- _. exact I. }
      destruct (Ascii.eqb c "n").
      { destruct (strip_prefix _ _); [| discriminate]. intros H. injection H as <- _. exact I. }
      destruct (parse_number (String c t)) as [[n r'] |] eqn:Hn; [| discriminate].
      intros H. injection H as <- _. exact (parse_number_valid _ _ _ Hn).
    + intros s acc v r Hacc. cbn [parse_elements].
      destruct (parse_value fuel s) as [[x r1] |] eqn:Hx; [| discriminate].
      assert (Hacc' : Forall wf_value (acc ++ [x])).
      { apply Forall_app. split; [exact Hacc |]. repeat constructor. exact (IHv _ _ _ Hx). }
      destruct (skip_ws r1) as [| c t]; [discriminate |].
      destruct (Ascii.eqb c ","); [apply IHe, Hacc' |].
      destruct (Ascii.eqb c "]"); [| discriminate].
      intros H. injection H as <- _. apply wf_value_arr, Hacc'.
    + intros s acc v r Hnd Hacc. cbn [parse_members].
      destruct (skip_ws s) as [| q r0]; [discriminate |].
      destruct (Ascii.eqb q dquote); [| discriminate].
      destruct (parse_string_body r0) as [[k r1] |]; [| discriminate].
      destruct (skip_ws r1) as [| c1 r2]; [discriminate |].
      destruct (Ascii.eqb c1 ":"); [| discriminate].
      destruct (parse_value fuel r2) as [[x r3] |] eqn:Hx; [| discriminate].
      pose proof (obj_set_NoDup k x acc Hnd) as Hnd'.
      pose proof (obj_set_wf k x acc (IHv _ _ _ Hx) Hacc) as Hacc'.
      destruct (skip_ws r3) as [| c3 r4]; [discriminate |].
      destruct (Ascii.eqb c3 ","); [apply IHm; assumption |].
      destruct (Ascii.eqb c3 "}"); [| discriminate].
      intros H. injection H as <- _. apply wf_value_obj. split; assumption.
Qed.

Lemma JSON_parse_wf s v : JSON_parse s = Some v -> wf_value v.
Proof.
  unfold JSON_parse.
  destruct (parse_value (S (String.length s)) s) as [[x r] |] eqn:Hx; [| discriminate].
  destruct (skip_ws r); [| discriminate].
  intros H. injection H as <-. exact (proj1 (parse_wf _) _ _ _ Hx).
Qed.

Lemma obj_get_wf k props x :
  Forall (fun kx => wf_value (snd kx)) props -> obj_get k props = Some x -> wf_value x.
Proof.
  induction 1 as [| [k' v'] props Hx Hl IH]; cbn [obj_get]; [discriminate |].
  destruct (String.eqb k k'); [| exact IH].
  intros H. injection H as <-. exact Hx.
Qed.

Lemma obj_get_reread k props :
  obj_get k (map (fun kx => (fst kx, reread (snd kx))) props)
  = option_map reread (obj_get k props).
Proof.
  induction props as [| [k' v'] props IH]; [reflexivity |].
  cbn [map obj_get fst snd]. destruct (String.eqb k k'); [reflexivity | exact IH].
Qed.

Lemma get_reread k v : get k (reread v) = option_map reread (get k v).
Proof.
  destruct v as [| b | n | s | elems | props]; try reflexivity.
  - cbn [reread]. destruct (is_finite n); reflexivity.
  - apply obj_get_reread.
Qed.

End Codec.

(** ** The protocol session *)

Section Session.
Import JSON Zod Protocol MCPServer.
Variable config : Config.

Local Open Scope string_scope.

Lemma ensureInitialized_false st :
  initialized st = false ->
  ensureInitialized st =
    (Throw (createError INVALID_REQUEST "Server not initialized. Call initialize first."), st).
Proof.
  intros H. unfold ensureInitialized, bind, get_initialized, throw.
  rewrite H. reflexivity.
Qed.

Lemma ensureInitialized_true st :
  initialized st = true -> ensureInitialized st = (Return tt, st).
Proof.
  intros H. unfold ensureInitialized, bind, get_initialized, ret.
  rewrite H. reflexivity.
Qed.

(** What each handler does, by the outcome of the schema validation. *)
Lemma handleInitialize_eq request st :
  handleInitialize config request st =
    match validateRequest request initializeRequestSchema with
    | Return _ =>
        (Return (JObj [("protocolVersion", JStr "1.0.0");
                       ("serverInfo", JObj [("name", JStr (serverName config));
                                            ("version", JStr (version config))]);
                       ("capabilities", JObj [("tools", JObj [])])]),
         {| initialized := true |})
    | Throw e => (Throw e, st)
    end.
Proof.
  unfold handleInitialize, bind, lift.
  destruct (validateRequest request initializeRequestSchema); reflexivity.
Qed.

Lemma handleToolsList_eq request st :
  handleToolsList request st =
    if initialized st then
      match validateRequest request toolsListRequestSchema with
      | Return _ => (Return (JObj [("tools", JArr [])]), st)
      | Throw e => (Throw e, st)
      end
    else (Throw (createError INVALID_REQUEST "Server not initialized. Call initialize first."), st).
Proof.
  unfold handleToolsList. unfold bind at 1.
  destruct (initialized st) eqn:Hi.
  - rewrite ensureInitialized_true by assumption. unfold bind, lift.
    destruct (validateRequest request toolsListRequestSchema); reflexivity.
  - rewrite ensureInitialized_false by assumption. reflexivity.
Qed.

Lemma handleToolsCall_eq request st :
  handleToolsCall request st =
    if initialized st then
      match validateRequest request toolsCallRequestSchema with
      | Return v =>
          (Throw (createMethodNotFoundError ("Tool not found: " +:+ params_name v)), st)
      | Throw e => (Throw e, st)
      end
    else (Throw (createError INVALID_REQUEST "Server not initialized. Call initialize first."), st).
Proof.
  unfold handleToolsCall. unfold bind at 1.
  destruct (initialized st) eqn:Hi.
  - rewrite ensureInitialized_true by assumption. unfold bind, lift.
    destruct (validateRequest request toolsCallRequestSchema); reflexivity.
  - rewrite ensureInitialized_false by assumption. reflexivity.
Qed.

Lemma handleRequest_initialize now request st :
  method request = "initialize" ->
  handleRequest config now request st = handleInitialize config request st.
Proof. intros H. unfold handleRequest. rewrite H. reflexivity. Qed.

Lemma handleRequest_tools_list now request st :
  method request = "tools/list" ->
  handleRequest config now request st = handleToolsList request st.
Proof. intros H. unfold handleRequest. rewrite H. reflexivity. Qed.

Lemma handleRequest_tools_call now request st :
  method request = "tools/call" ->
  handleRequest config now request st = handleToolsCall request st.
Proof. intros H. unfold handleRequest. rewrite H. reflexivity. Qed.

Lemma handleRequest_ping now request st :
  method request = "ping" ->
  handleRequest config now request st = handlePing now st.
Proof. intros H. unfold handleRequest. rewrite H. reflexivity. Qed.

Lemma handleRequest_unrecognized now request st :
  recognized (method request) = false ->
  handleRequest config now request st =
    (Throw (createMethodNotFoundError (method request)), st).
Proof.
  unfold recognized, handleRequest. intros H.
  apply orb_false_elim in H as [H Hp].
  apply orb_false_elim in H as [H Hc].
  apply orb_false_elim in H as [Hi Hl].
  rewrite Hi, Hl, Hc, Hp. reflexivity.
Qed.

(** The method of a request is one of five cases. *)
Lemma method_cases (m : string) :
  m = "initialize" \/ m = "tools/list" \/ m = "tools/call" \/ m = "ping"
  \/ recognized m = false.
Proof.
  unfold recognized.
  destruct (String.eqb_spec m "initialize"); [auto |].
  destruct (String.eqb_spec m "tools/list"); [auto |].
  destruct (String.eqb_spec m "tools/call"); [auto |].
  destruct (String.eqb_spec m "ping"); [auto 6 |].
  auto 6.
Qed.

(** C1. A tools/list or tools/call request dispatched while the session is not
    initialized throws the INVALID_REQUEST error whose message is "Server not
    initialized. Call initialize first.", whatever its params are: the check of
    the precondition comes before the validation against the schema of the
    method, whose failure would read "Invalid request format". *)
Theorem uninitialized_tools_request_rejected now request st :
  initialized st = false ->
  method request = "tools/list" \/ method request = "tools/call" ->
  exists e,
    handleRequest config now request st = (Throw e, st)
    /\ err_code e = Some (code_of INVALID_REQUEST)
    /\ includes "not initialized" (err_message e) = true
    /\ err_message e <> "Invalid request format".
Proof.
  intros Hinit Hm.
  exists (createError INVALID_REQUEST "Server not initialized. Call initialize first.").
  split; [| split; [reflexivity | split; [reflexivity | discriminate]]].
  destruct Hm as [Hm | Hm].
  - rewrite handleRequest_tools_list, handleToolsList_eq, Hinit by assumption. reflexivity.
  - rewrite handleRequest_tools_call, handleToolsCall_eq, Hinit by assumption. reflexivity.
Qed.

(** A request never clears the flag. *)
Lemma handleRequest_keeps_initialized now request st :
  initialized st = true ->
  initialized (snd (handleRequest config now request st)) = true.
Proof.
  intros Hinit.
  destruct (method_cases (method request)) as [H | [H | [H | [H | H]]]].
  - rewrite handleRequest_initialize, handleInitialize_eq by assumption.
    destruct (validateRequest request initializeRequestSchema); [reflexivity | assumption].
  - rewrite handleRequest_tools_list, handleToolsList_eq, Hinit by assumption.
    destruct (validateRequest request toolsListRequestSchema); assumption.
  - rewrite handleRequest_tools_call, handleToolsCall_eq, Hinit by assumption.
    destruct (validateRequest request toolsCallRequestSchema); assumption.
  - rewrite handleRequest_ping by assumption. assumption.
  - rewrite handleRequest_unrecognized by assumption. assumption.
Qed.

(** Only an initialize request that returns sets the flag. *)
Lemma handleRequest_sets_initialized now request st :
  initialized st = false ->
  initialized (snd (handleRequest config now request st)) = true ->
  method request = "initialize"
  /\ exists v, fst (handleRequest config now request st) = Return v.
Proof.
  intros Hinit.
  destruct (method_cases (method request)) as [H | [H | [H | [H | H]]]].
  - rewrite handleRequest_initialize, handleInitialize_eq by assumption.
    destruct (validateRequest request initializeRequestSchema); simpl; intros Hs.
    + split; [assumption | eauto].
    + congruence.
  - rewrite handleRequest_tools_list, handleToolsList_eq, Hinit by assumption.
    simpl. congruence.
  - rewrite handleRequest_tools_call, handleToolsCall_eq, Hinit by assumption.
    simpl. congruence.
  - rewrite handleRequest_ping by assumption. simpl. congruence.
  - rewrite handleRequest_unrecognized by assumption. simpl. congruence.
Qed.

Lemma serve_keeps_initialized requests st :
  initialized st = true -> initialized (serve config requests st) = true.
Proof.
  revert st. induction requests as [| [now request] rest IH]; intros st Hinit.
  - assumption.
  - simpl. apply IH, handleRequest_keeps_initialized, Hinit.
Qed.

(** C2. The flag is false in a new manager. An initialize request sets it
    exactly when its validation succeeds, and then the call returns; when the
    validation fails the call throws and the state is as before. A request
    that finds the flag false and leaves it true is an initialize request that
    returned. No request, and no sequence of requests, clears the flag. An
    initialize request that returned once returns the same result from every
    state, so also when it is sent again after the first one succeeded, and
    leaves the flag true. *)
Theorem initialized_flag_monotonic :
  isInitialized new_Manager = false
  /\ (forall now request st,
        method request = "initialize" ->
        (forall e, validateRequest request initializeRequestSchema = Throw e ->
                   handleRequest config now request st = (Throw e, st))
        /\ (forall v, validateRequest request initializeRequestSchema = Return v ->
                      exists r, handleRequest config now request st
                                = (Return r, {| initialized := true |})))
  /\ (forall now request st,
        isInitialized st = false ->
        isInitialized (snd (handleRequest config now request st)) = true ->
        method request = "initialize"
        /\ exists v, fst (handleRequest config now request st) = Return v)
  /\ (forall now request st,
        isInitialized st = true ->
        isInitialized (snd (handleRequest config now request st)) = true)
  /\ (forall requests st,
        isInitialized st = true -> isInitialized (serve config requests st) = true)
  /\ (forall now request st r st',
        method request = "initialize" ->
        handleRequest config now request st = (Return r, st') ->
        isInitialized st' = true
        /\ forall now2 st2,
             handleRequest config now2 request st2 = (Return r, {| initialized := true |})).
Proof.
  unfold isInitialized.
  split; [reflexivity |].
  split.
  { intros now request st Hm. rewrite handleRequest_initialize, handleInitialize_eq by assumption.
    split.
    - intros e He. rewrite He. reflexivity.
    - intros v Hv. rewrite Hv. eauto. }
  split; [exact handleRequest_sets_initialized |].
  split; [exact handleRequest_keeps_initialized |].
  split; [exact serve_keeps_initialized |].
  intros now request st r st' Hm.
  rewrite handleRequest_initialize, handleInitialize_eq by assumption.
  destruct (validateRequest request initializeRequestSchema) as [v | e] eqn:Hv;
    [| discriminate].
  intros H. injection H as Hr Hst. subst r st'.
  split; [reflexivity |].
  intros now2 st2.
  rewrite handleRequest_initialize, handleInitialize_eq, Hv by assumption. reflexivity.
Qed.

(** X22. The errors [handleRequest] throws with the code of METHOD_NOT_FOUND:
    the method is none of the four, or the session is initialized and the
    request is a tools/call that its schema accepts (there is no tool to be
    found: the registry of this version is empty). *)
Lemma method_not_found_iff now request st e st' :
  handleRequest config now request st = (Throw e, st') ->
  err_code e = Some (code_of METHOD_NOT_FOUND) <->
  recognized (method request) = false
  \/ (method request = "tools/call" /\ initialized st = true
      /\ exists v, validateRequest request toolsCallRequestSchema = Return v).
Proof.
  destruct (method_cases (method request)) as [H | [H | [H | [H | H]]]].
  - rewrite handleRequest_initialize, handleInitialize_eq by assumption.
    unfold validateRequest.
    destruct (Zod.parse _ _) as [[out |] |]; intros He; inversion He; subst;
      (split; [discriminate | intros [Hr | [Hc _]]; [rewrite H in Hr; discriminate | congruence]]).
  - rewrite handleRequest_tools_list, handleToolsList_eq by assumption.
    unfold validateRequest.
    destruct (initialized st); [destruct (Zod.parse _ _) as [[out |] |] |];
      intros He; inversion He; subst;
      (split; [discriminate | intros [Hr | [Hc _]]; [rewrite H in Hr; discriminate | congruence]]).
  - rewrite handleRequest_tools_call, handleToolsCall_eq by assumption.
    destruct (initialized st) eqn:Hi.
    + destruct (validateRequest request toolsCallRequestSchema) as [v | e'] eqn:Hv.
      * intros He; inversion He; subst. split; [| reflexivity].
        intros _. right. eauto.
      * intros He; inversion He; subst.
        unfold validateRequest in Hv.
        destruct (Zod.parse _ _) as [[out |] |]; inversion Hv; subst;
          (split; [discriminate | intros [Hr | (_ & _ & v & Hc)];
                                  [rewrite H in Hr; discriminate | discriminate]]).
    + intros He; inversion He; subst.
      split; [discriminate | intros [Hr | (_ & Hc & _)];
                             [rewrite H in Hr; discriminate | discriminate]].
  - rewrite handleRequest_ping by assumption. discriminate.
  - rewrite handleRequest_unrecognized by assumption.
    intros He; inversion He; subst. split; [auto | reflexivity].
Qed.

End Session.

Section SessionExamples.
Import JSON Zod Protocol MCPServer Scenarios.
Local Open Scope string_scope.

Lemma uninitialized_tools_request_rejected_witness :
  validateRequest call_without_params toolsCallRequestSchema
  = Throw (Protocol.createError INVALID_REQUEST "Invalid request format" (Some ZodErrorCause))
  /\ exists e,
       handleRequest default_config 0 call_without_params new_Manager = (Throw e, new_Manager)
       /\ err_code e = Some (code_of INVALID_REQUEST)
       /\ includes "not initialized" (err_message e) = true
       /\ err_message e <> "Invalid request format".
Proof.
  split; [reflexivity |].
  apply (uninitialized_tools_request_rejected default_config 0 call_without_params new_Manager);
    [reflexivity | right; reflexivity].
Defined.

End SessionExamples.

(** ** The form of a timestamp *)

Section Timestamp.
Import JSDate.

Lemma is_digit_digit_char d : 0 <= d < 10 -> is_digit (JSON.digit_char d) = true.
Proof.
  intros H.
  assert (d = 0 \/ d = 1 \/ d = 2 \/ d = 3 \/ d = 4 \/ d = 5 \/ d = 6
          \/ d = 7 \/ d = 8 \/ d = 9) as Hd by lia.
  repeat (destruct Hd as [Hd | Hd]; [subst d; reflexivity |]).
  subst d. reflexivity.
Qed.

Lemma is_digit_digit_at n p : is_digit (digit_at n p) = true.
Proof.
  unfold digit_at. apply is_digit_digit_char.
  apply Z.mod_pos_bound. lia.
Qed.

(** Every time value prints in the ISO layout. *)
Lemma toISOString_well_formed t : is_iso_timestamp (toISOString t) = true.
Proof.
  unfold toISOString, is_iso_timestamp.
  destruct (civil_from_days (t / msPerDay)) as [[y m] d].
  destruct ((0 <=? y) && (y <=? 9999)).
  - unfold pad4, pad3, pad2. cbn [matches app clock_pattern].
    rewrite !is_digit_digit_at. reflexivity.
  - unfold pad6, pad4, pad3, pad2. cbn [matches app clock_pattern].
    rewrite !is_digit_digit_at.
    destruct (y <? 0); reflexivity.
Qed.

End Timestamp.

Section Validation.
Import JSON Zod Protocol MCPServer.
Local Open Scope string_scope.

Lemma request_get_jsonrpc r : obj_get "jsonrpc" (request_props r) = Some (JStr "2.0").
Proof. reflexivity. Qed.

Lemma request_get_id r : obj_get "id" (request_props r) = Some (id_to_js (id r)).
Proof. reflexivity. Qed.

Lemma request_get_method r : obj_get "method" (request_props r) = Some (JStr (method r)).
Proof. reflexivity. Qed.

Lemma request_get_params r : obj_get "params" (request_props r) = option_map JObj (params r).
Proof. destruct r as [i m [p |]]; reflexivity. Qed.

Lemma parse_id i :
  Zod.parse (ZUnion ZString ZNumber) (Some (id_to_js i)) = Some (Some (id_to_js i)).
Proof. destruct i; reflexivity. Qed.

Lemma parse_object shape props :
  Zod.parse (ZObject shape) (Some (JObj props)) =
    option_map (fun out => Some (JObj out)) (parse_fields Zod.parse props shape).
Proof. reflexivity. Qed.

Lemma parse_literal s s' :
  Zod.parse (ZLiteral s) (Some (JStr s')) =
    if String.eqb s s' then Some (Some (JStr s')) else None.
Proof. reflexivity. Qed.

Lemma toolsCallRequestSchema_eq :
  toolsCallRequestSchema =
    ZObject [("jsonrpc", ZLiteral "2.0");
             ("id", ZUnion ZString ZNumber);
             ("method", ZLiteral "tools/call");
             ("params", ZObject [("name", ZString);
                                 ("arguments", ZOptional (ZRecord ZUnknown))])].
Proof. reflexivity. Qed.

End Validation.

(** Unfold the validation of a request against a schema of four fields, up to
    the test of the method and of the params. *)
Ltac unfold_validation schema_eq :=
  unfold Protocol.validateRequest, Protocol.request_to_js; rewrite schema_eq;
  rewrite parse_object; cbn [Zod.parse_fields];
  rewrite request_get_jsonrpc, request_get_id, request_get_method, request_get_params;
  rewrite parse_id, !parse_literal;
  change (String.eqb "2.0" "2.0") with true; cbv iota.

Section ToolsCall.
Import JSON Zod Protocol MCPServer.
Local Open Scope string_scope.

(** When the schema of tools/call accepts a request, its params have a string
    [name], and [validatedRequest.params.name] is that string. *)
Lemma validate_tools_call_name request v :
  validateRequest request toolsCallRequestSchema = Return v ->
  exists p name,
    params request = Some p /\ obj_get "name" p = Some (JStr name)
    /\ params_name v = name.
Proof.
  unfold_validation toolsCallRequestSchema_eq.
  destruct (String.eqb_spec "tools/call" (method request)) as [Hm | Hm]; [| discriminate].
  destruct (params request) as [p |]; [| discriminate].
  cbn [option_map]. rewrite parse_object. cbn [parse_fields].
  generalize (Zod.parse (ZOptional (ZRecord ZUnknown)) (obj_get "arguments" p)).
  intros args.
  destruct (obj_get "name" p) as [[| | | name | |] |] eqn:Hn; cbn [Zod.parse];
    destruct args as [[a |] |]; try discriminate;
    cbn [option_map]; intros H; inversion H;
    exists p, name; (split; [reflexivity | split; [exact Hn | reflexivity]]).
Qed.

Variable config : Config.

(** C3 (the message of the unknown-tool error). An initialized tools/call whose
    params the schema accepts throws an error with the code -32601 of
    METHOD_NOT_FOUND. [handleToolsCall] builds the text "Tool not found: "
    followed by the name and hands it to [createMethodNotFoundError], which
    puts "Method not found: " in front of its argument: the message of the
    error is "Method not found: Tool not found: " followed by the name, and not
    "Tool not found: " followed by the name. *)
Theorem unknown_tool_error_message now request st p name :
  initialized st = true ->
  method request = "tools/call" ->
  params request = Some p ->
  obj_get "name" p = Some (JStr name) ->
  (exists v, validateRequest request toolsCallRequestSchema = Return v) ->
  exists e,
    handleRequest config now request st = (Throw e, st)
    /\ err_code e = Some (-32601)
    /\ err_message e = "Method not found: Tool not found: " +:+ name
    /\ err_message e <> "Tool not found: " +:+ name.
Proof.
  intros Hinit Hm Hp Hname [v Hv].
  destruct (validate_tools_call_name request v Hv) as (p' & name' & Hp' & Hname' & Hpn).
  assert (Hn : params_name v = name) by congruence.
  exists (createMethodNotFoundError ("Tool not found: " +:+ name)).
  split; [| split; [reflexivity | split; [reflexivity | discriminate]]].
  rewrite handleRequest_tools_call, handleToolsCall_eq, Hinit, Hv, Hn by assumption.
  reflexivity.
Qed.

(** C7. A ping request returns, from every state of the session, the object
    whose [status] is "pong" and whose [timestamp] is the ISO form of the
    current time, and leaves the state as it was; that form is a well-formed
    timestamp for every time value. *)
Theorem ping_returns_pong now request st :
  method request = "ping" ->
  handleRequest config now request st
  = (Return (JObj [("status", JStr "pong");
                   ("timestamp", JStr (JSDate.toISOString now))]), st)
  /\ JSDate.is_iso_timestamp (JSDate.toISOString now) = true.
Proof.
  intros Hm. split.
  - rewrite handleRequest_ping by assumption. reflexivity.
  - apply toISOString_well_formed.
Qed.

End ToolsCall.

Section DispatchExamples.
Import JSON Zod Protocol MCPServer Scenarios.
Local Open Scope string_scope.

Lemma unknown_tool_error_message_witness :
  exists e,
    handleRequest default_config 0 call_unknown_tool {| initialized := true |}
    = (Throw e, {| initialized := true |})
    /\ err_code e = Some (-32601)
    /\ err_message e = "Method not found: Tool not found: unknown-tool"
    /\ err_message e <> "Tool not found: unknown-tool".
Proof.
  apply (unknown_tool_error_message default_config 0 call_unknown_tool
           {| initialized := true |}
           [("name", JStr "unknown-tool"); ("arguments", JObj [])] "unknown-tool");
    try reflexivity.
  eexists. reflexivity.
Defined.

Lemma ping_returns_pong_witness :
  (handleRequest default_config 1763250000123 ping_request new_Manager
   = (Return (JObj [("status", JStr "pong");
                    ("timestamp", JStr "2025-11-15T23:40:00.123Z")]), new_Manager))
  /\ (handleRequest default_config 1763250000123 ping_request {| initialized := true |}
      = (Return (JObj [("status", JStr "pong");
                       ("timestamp", JStr "2025-11-15T23:40:00.123Z")]),
         {| initialized := true |})).
Proof.
  split.
  - exact (proj1 (ping_returns_pong default_config 1763250000123 ping_request
                    new_Manager eq_refl)).
  - exact (proj1 (ping_returns_pong default_config 1763250000123 ping_request
                    {| initialized := true |} eq_refl)).
Defined.

End DispatchExamples.

(** ** The request/response endpoint *)

Section Endpoint.
Import JSON Zod Protocol MCPServer Transport.
Local Open Scope string_scope.

Variable requestHandler : option RequestHandler.

(** The route answers 200 with the success envelope when its [try] block
    returns; when it throws, the [catch] block throws too and nothing is
    sent. *)
Lemma mcp_route_eq req_body st :
  mcp_route requestHandler req_body st =
    match mcp_try requestHandler req_body st with
    | (Return response, st') =>
        (Return {| status := 200; body := response_to_js response |}, st')
    | (Throw error, st') => (Throw (ReferenceError "requestId"), st')
    end.
Proof.
  unfold mcp_route.
  destruct (mcp_try requestHandler req_body st) as [[response | error] st']; reflexivity.
Qed.

(** The status of an answer of the route is 200. *)
Lemma mcp_route_status req_body st response :
  fst (mcp_route requestHandler req_body st) = Return response -> status response = 200.
Proof.
  rewrite mcp_route_eq.
  destruct (mcp_try requestHandler req_body st) as [[r | error] st']; cbn [fst];
    intros H; [injection H as <-; reflexivity | discriminate].
Qed.

(** The status of an answer is 200 or 500: the endpoint never answers 400. *)
Lemma post_mcp_status raw st response :
  fst (post_mcp requestHandler raw st) = Return response ->
  status response = 200 \/ status response = 500.
Proof.
  unfold post_mcp.
  destruct (express_json raw) as [err | req_body].
  - cbn [fst]. intros H. injection H as <-. right. reflexivity.
  - intros H. left. exact (mcp_route_status _ _ _ H).
Qed.

(** C4 (a body that is not JSON). [express.json()] hands its error to the
    error-handling middleware, which answers every error with the status 500
    and a body that is not an envelope; the handler of [POST /mcp] is not
    run. The status is not 400. *)
Theorem unparseable_body_status text st :
  unparseable text ->
  exists err,
    post_mcp requestHandler (Some text) st
    = (Return {| status := 500;
                 body := JObj [("error", JStr "Internal server error");
                               ("message", JStr (err_message err))] |}, st)
    /\ forall response,
         fst (post_mcp requestHandler (Some text) st) = Return response ->
         status response <> 400.
Proof.
  intros [Hne Hbad]. unfold post_mcp, express_json.
  destruct text as [| c text']; [congruence |].
  cbn [String.length Nat.eqb].
  destruct (strict_first_char (String c text')) eqn:Hs.
  - destruct Hbad as [Hbad | Hbad]; [discriminate |]. rewrite Hbad.
    eexists. split; [reflexivity |].
    intros response H. injection H as <-. discriminate.
  - eexists. split; [reflexivity |].
    intros response H. injection H as <-. discriminate.
Qed.

(** [createErrorResponse] itself is total: it builds an envelope without a
    result, whose id is the id it is given, or 0 for [null]. The route does
    not get as far as calling it. *)
Lemma createErrorResponse_id i c m d :
  result (createErrorResponse i c m d) = None
  /\ error (createErrorResponse i c m d) = Some {| code := c; message := m; data := d |}
  /\ resp_id (createErrorResponse i c m d) = match i with
                                              | JNull => JNum (Finite 0 0)
                                              | _ => i
                                              end.
Proof. repeat split; reflexivity. Qed.

(** C5 (the catch block throws). For every failing request of [POST /mcp],
    that is whenever the [try] block of the route throws, the [catch] block
    throws in its turn before it builds the error response: its first
    statement reads [requestId] in the temporal dead zone of the [let] of that
    name, which the block declares further down. The handler ends with that
    [ReferenceError], whatever the error and the body were: no error envelope
    is built and no response is sent, with the id of the body or with any
    other. *)
Theorem failing_request_gets_no_envelope req_body st e st' :
  mcp_try requestHandler req_body st = (Throw e, st') ->
  mcp_route requestHandler req_body st = (Throw (ReferenceError "requestId"), st')
  /\ forall response, fst (mcp_route requestHandler req_body st) <> Return response.
Proof.
  intros H. rewrite mcp_route_eq, H. split; [reflexivity | discriminate].
Qed.

End Endpoint.

Section EndpointExamples.
Import JSON Zod Protocol MCPServer Transport Scenarios Bodies.
Local Open Scope string_scope.

Lemma unparseable_body_status_witness :
  post_mcp handler (Some invalid_json) new_Manager
  = (Return {| status := 500;
               body := JObj [("error", JStr "Internal server error");
                             ("message", JStr "Unexpected token in JSON")] |}, new_Manager).
Proof.
  destruct (unparseable_body_status handler invalid_json new_Manager) as (err & H & _).
  - split; [discriminate | left; reflexivity].
  - reflexivity.
Defined.

Lemma failing_request_gets_no_envelope_witness :
  mcp_try handler (Some no_method_string_id) new_Manager
  = (Throw (Protocol.createError PARSE_ERROR "Failed to parse JSON-RPC message"
              (Some ZodErrorCause)), new_Manager)
  /\ mcp_route handler (Some no_method_string_id) new_Manager
     = (Throw (new_Error "Cannot access 'requestId' before initialization"), new_Manager).
Proof.
  split; [reflexivity |].
  apply (failing_request_gets_no_envelope handler (Some no_method_string_id) new_Manager
           (Protocol.createError PARSE_ERROR "Failed to parse JSON-RPC message"
              (Some ZodErrorCause))
           new_Manager eq_refl).
Defined.

End EndpointExamples.

(** ** The streaming endpoint *)

Section Streaming.
Import JSON Transport Streams.
Local Open Scope string_scope.

(** C8. [sendSSEMessage] returns true exactly when the client is in the
    registry. It then writes one chunk to the stream of that client and to no
    other: the line [event: ] with the name, the line [data: ] with the JSON
    text of the payload, and an empty line. When the client is not in the
    registry it returns false, writes nothing and leaves the registry as it
    is. *)
Theorem sendSSEMessage_spec clientId event data now (sseClients : gmap string SSEClient) :
  (fst (fst (sendSSEMessage clientId event data now sseClients)) = true
   <-> is_Some (sseClients !! clientId))
  /\ (forall client,
        sseClients !! clientId = Some client ->
        sendSSEMessage clientId event data now sseClients
        = (true, <[clientId := touch now client]> sseClients,
           [Write (response client)
              ("event: " +:+ event +:+ str1 newline +:+ "data: "
               +:+ JSON_stringify data +:+ str1 newline +:+ str1 newline)]))
  /\ (sseClients !! clientId = None ->
      sendSSEMessage clientId event data now sseClients = (false, sseClients, [])).
Proof.
  unfold sendSSEMessage.
  destruct (sseClients !! clientId) as [client |] eqn:Hc.
  - split; [split; [eauto | reflexivity] |].
    split; [| discriminate].
    intros client' Hc'. injection Hc' as <-.
    unfold sse_message. reflexivity.
  - split; [split; [discriminate | intros [x Hx]; discriminate] |].
    split; [discriminate | reflexivity].
Qed.

(** [is_inactive] is the comparison of the code. *)
Lemma is_inactive_iff maxInactiveMinutes now client :
  is_inactive maxInactiveMinutes now client = true
  <-> (maxInactiveMinutes < inactiveMinutes now client)%Q.
Proof.
  unfold is_inactive. rewrite negb_true_iff.
  split.
  - intros H. apply Qnot_le_lt. intros Hle.
    apply Qle_bool_iff in Hle. congruence.
  - intros H. destruct (Qle_bool _ _) eqn:E; [| reflexivity].
    apply Qle_bool_iff in E. exfalso. exact (Qlt_not_le _ _ H E).
Qed.

(** The clients a sweep evicts, and those it keeps. *)
Abbreviation idle max now :=
  (fun kc : string * SSEClient => is_inactive max now (snd kc) = true).

(** The loop of the sweep, after it has visited the clients of [m]: started
    from the registry [all], it has removed the idle clients of [m] and ended
    their streams. *)
Lemma cleanup_loop max now (all m : gmap string SSEClient) :
  let r := map_fold (cleanup_visit max now) (all, [], []) m in
  (forall k, fst (fst r) !! k =
             match m !! k with
             | Some c => if is_inactive max now c then None else all !! k
             | None => all !! k
             end)
  /\ snd (fst r) ≡ₚ (fun kc => End (response (snd kc))) <$> map_to_list (filter (idle max now) m)
  /\ snd r ≡ₚ fst <$> map_to_list (filter (idle max now) m).
Proof.
  apply (map_fold_weak_ind
           (fun r m =>
              (forall k, fst (fst r) !! k =
                         match m !! k with
                         | Some c => if is_inactive max now c then None else all !! k
                         | None => all !! k
                         end)
              /\ snd (fst r) ≡ₚ (fun kc => End (response (snd kc)))
                                 <$> map_to_list (filter (idle max now) m)
              /\ snd r ≡ₚ fst <$> map_to_list (filter (idle max now) m))).
  - split; [| split].
    + intros k. rewrite lookup_empty. reflexivity.
    + rewrite map_filter_empty, map_to_list_empty. reflexivity.
    + rewrite map_filter_empty, map_to_list_empty. reflexivity.
  - intros i x m' r Hi (Hreg & Heff & Hrem).
    unfold cleanup_visit.
    destruct (is_inactive max now x) eqn:Hx.
    + cbn [fst snd]. split; [| split].
      * intros k. destruct (decide (k = i)) as [-> | Hne].
        -- rewrite lookup_delete_eq, lookup_insert_eq, Hx. reflexivity.
        -- rewrite lookup_delete_ne, lookup_insert_ne by congruence. apply Hreg.
      * rewrite map_filter_insert_True by exact Hx.
        rewrite map_to_list_insert
          by (apply map_lookup_filter_None; left; exact Hi).
        rewrite fmap_cons. cbn [snd]. rewrite Heff. reflexivity.
      * rewrite map_filter_insert_True by exact Hx.
        rewrite map_to_list_insert
          by (apply map_lookup_filter_None; left; exact Hi).
        rewrite fmap_cons. cbn [fst]. rewrite Hrem. reflexivity.
    + assert (Hf : filter (idle max now) (<[i:=x]> m') = filter (idle max now) m').
      { apply map_filter_insert_not'.
        - cbn [snd]. congruence.
        - intros y Hy. congruence. }
      rewrite Hf. split; [| split; assumption].
      intros k. destruct (decide (k = i)) as [-> | Hne].
      * rewrite lookup_insert_eq, Hx. rewrite Hreg, Hi. reflexivity.
      * rewrite lookup_insert_ne by congruence. apply Hreg.
Qed.



(** The threshold of 0.3 minutes is the double nearest to 3/10, and so is the
    idle time the code counts for 18000 milliseconds: a client idle for
    exactly that long is kept, one more millisecond and it is removed. *)
Example cleanup_at_three_tenths :
  cleanupInactiveClients (IEEE.round_Q (3 # 10)) 18000 {[ "b" := client_b ]}
  = ({[ "b" := client_b ]}, [], [])
  /\ cleanupInactiveClients (IEEE.round_Q (3 # 10)) 18001 {[ "b" := client_b ]}
     = (∅, [End 2], ["b"]).
Proof. split; vm_compute; reflexivity. Qed.

(** The loop of a broadcast, after it has visited the clients of [m]. *)
Lemma broadcast_loop message now (all m : gmap string SSEClient) :
  let r := map_fold (broadcast_visit message now) (all, []) m in
  (forall k, fst r !! k =
             match m !! k with
             | Some c => Some (touch now c)
             | None => all !! k
             end)
  /\ snd r ≡ₚ (fun kc => Write (response (snd kc)) message) <$> map_to_list m.
Proof.
  apply (map_fold_weak_ind
           (fun r m =>
              (forall k, fst r !! k =
                         match m !! k with
                         | Some c => Some (touch now c)
                         | None => all !! k
                         end)
              /\ snd r ≡ₚ (fun kc => Write (response (snd kc)) message) <$> map_to_list m)).
  - split.
    + intros k. rewrite lookup_empty. reflexivity.
    + rewrite map_to_list_empty. reflexivity.
  - intros i x m' r Hi (Hreg & Heff). unfold broadcast_visit. cbn [fst snd]. split.
    + intros k. destruct (decide (k = i)) as [-> | Hne].
      * rewrite !lookup_insert_eq. reflexivity.
      * rewrite !lookup_insert_ne by congruence. apply Hreg.
    + rewrite map_to_list_insert by exact Hi.
      rewrite fmap_cons. cbn [snd]. rewrite Heff. reflexivity.
Qed.

(** A broadcast writes the message once to every client and touches them
    all. *)
Lemma broadcast_spec event data now (sseClients : gmap string SSEClient) :
  fst (broadcastSSEMessage event data now sseClients) = touch now <$> sseClients
  /\ snd (broadcastSSEMessage event data now sseClients)
     ≡ₚ (fun kc => Write (response (snd kc)) (sse_message event data))
        <$> map_to_list sseClients.
Proof.
  destruct (broadcast_loop (sse_message event data) now sseClients sseClients)
    as (Hreg & Heff).
  split; [| exact Heff].
  apply map_eq. intros k. unfold broadcastSSEMessage. rewrite Hreg, lookup_fmap.
  destruct (sseClients !! k); reflexivity.
Qed.

Lemma send_registry clientId event data now (sseClients : gmap string SSEClient) :
  snd (fst (sendSSEMessage clientId event data now sseClients)) =
    match sseClients !! clientId with
    | Some client => <[clientId := touch now client]> sseClients
    | None => sseClients
    end.
Proof.
  unfold sendSSEMessage. destruct (sseClients !! clientId); reflexivity.
Qed.

Lemma keepAlive_registry clientId now (sseClients : gmap string SSEClient) :
  fst (fst (keepAlive_tick clientId now sseClients)) =
    match sseClients !! clientId with
    | Some client => <[clientId := touch now client]> sseClients
    | None => sseClients
    end.
Proof.
  unfold keepAlive_tick, sendSSEMessage.
  destruct (sseClients !! clientId); reflexivity.
Qed.

Lemma connect_registry clientId res now (sseClients : gmap string SSEClient) :
  fst (sse_connect clientId res now sseClients) =
    <[clientId := {| client_id := clientId; response := res; lastActivity := now |}]>
      sseClients.
Proof.
  unfold sse_connect, sendSSEMessage. rewrite lookup_insert_eq. cbn [fst touch].
  rewrite insert_insert_eq. reflexivity.
Qed.

(** The idle time of a client written to within the keep-alive period is at
    most half a minute. *)
Lemma fresh_client_minutes now client :
  (now - lastActivity client <= keepAlivePeriod)%Z ->
  (inactiveMinutes now client <= 1 # 2)%Q.
Proof.
  intros H. unfold inactiveMinutes.
  apply (div_le _ 30 60); [| reflexivity | | vm_compute; discriminate].
  { split; [reflexivity | vm_compute; reflexivity]. }
  apply (div_le _ 30000 1000); [| reflexivity | | vm_compute; discriminate].
  { split; [reflexivity | vm_compute; reflexivity]. }
  apply (sub_le now (lastActivity client) 30000); [| exact H].
  split; [reflexivity | vm_compute; reflexivity].
Qed.

(** A client written to within the keep-alive period is not idle for a
    threshold that exceeds the period. *)
Lemma fresh_client_not_idle maxInactiveMinutes now client :
  threshold_exceeds keepAlivePeriod maxInactiveMinutes = true ->
  (now - lastActivity client <= keepAlivePeriod)%Z ->
  is_inactive maxInactiveMinutes now client = false.
Proof.
  unfold threshold_exceeds. rewrite negb_true_iff. intros Hth Hfresh.
  unfold is_inactive. rewrite negb_false_iff. apply Qle_bool_iff.
  apply Qle_trans with (1 # 2)%Q; [apply fresh_client_minutes, Hfresh |].
  apply Qlt_le_weak, Qnot_le_lt. intros Hle.
  assert (Hle' : (maxInactiveMinutes <= inject_Z keepAlivePeriod / 1000 / 60)%Q).
  { apply Qle_trans with (1 := Hle). vm_compute. discriminate. }
  apply Qle_bool_iff in Hle'. congruence.
Qed.

(** One event of a run in which [clientId] is kept alive leaves it registered
    and written to no earlier than its last keep-alive. *)
Lemma step_keeps_alive clientId last now ev (sseClients : gmap string SSEClient) :
  kept_alive clientId keepAlivePeriod last [(now, ev)] = true ->
  (exists client, sseClients !! clientId = Some client /\ (last <= lastActivity client)%Z) ->
  exists client,
    step now ev sseClients !! clientId = Some client
    /\ (match ev with
        | EvKeepAlive id => if String.eqb id clientId then now else last
        | _ => last
        end <= lastActivity client)%Z.
Proof.
  cbn [kept_alive]. rewrite andb_true_r, !andb_true_iff.
  intros [[Hmono Hper] Hev] (client & Hc & Hlast).
  apply Z.leb_le in Hmono, Hper.
  destruct ev as [id res | id | id | id event data | event data | maxMinutes];
    cbn [step].
  - rewrite connect_registry.
    destruct (decide (id = clientId)) as [-> | Hne].
    + rewrite lookup_insert_eq. eexists. split; [reflexivity | cbn; lia].
    + rewrite lookup_insert_ne by exact Hne. eauto.
  - apply negb_true_iff, String.eqb_neq in Hev.
    unfold sse_close. rewrite lookup_delete_ne by exact Hev. eauto.
  - rewrite keepAlive_registry.
    destruct (String.eqb_spec id clientId) as [-> | Hne].
    + rewrite Hc, lookup_insert_eq. eexists. split; [reflexivity | cbn; lia].
    + destruct (sseClients !! id); [rewrite lookup_insert_ne by exact Hne |]; eauto.
  - rewrite send_registry.
    destruct (decide (id = clientId)) as [-> | Hne].
    + rewrite Hc, lookup_insert_eq. eexists. split; [reflexivity | cbn; lia].
    + destruct (sseClients !! id); [rewrite lookup_insert_ne by exact Hne |]; eauto.
  - rewrite (proj1 (broadcast_spec event data now sseClients)), lookup_fmap, Hc.
    eexists. split; [reflexivity | cbn; lia].
  - destruct (cleanup_loop maxMinutes now sseClients sseClients) as (Hreg & _).
    fold (cleanupInactiveClients maxMinutes now sseClients) in Hreg.
    exists client. split; [| exact Hlast].
    rewrite Hreg, Hc.
    rewrite fresh_client_not_idle; [reflexivity | exact Hev | lia].
Qed.

Lemma kept_alive_cons clientId period last now ev rest :
  kept_alive clientId period last ((now, ev) :: rest) =
    kept_alive clientId period last [(now, ev)]
    && kept_alive clientId period
         (match ev with
          | EvKeepAlive id => if String.eqb id clientId then now else last
          | _ => last
          end) rest.
Proof. cbn [kept_alive]. rewrite andb_true_r. reflexivity. Qed.

Lemma run_keeps_alive clientId events :
  forall last (sseClients : gmap string SSEClient),
    kept_alive clientId keepAlivePeriod last events = true ->
    (exists client, sseClients !! clientId = Some client /\ (last <= lastActivity client)%Z) ->
    is_Some (run events sseClients !! clientId).
Proof.
  induction events as [| [now ev] rest IH]; intros last sseClients Hka Hinv.
  - destruct Hinv as (client & Hc & _). cbn [run]. eauto.
  - rewrite kept_alive_cons in Hka. apply andb_true_iff in Hka as [Hstep Hrest].
    cbn [run]. eapply IH; [exact Hrest |].
    exact (step_keeps_alive _ _ _ _ _ Hstep Hinv).
Qed.

(** C10. A write by [sendSSEMessage] sets the [lastActivity] of its client to
    the current time and leaves the set of registered ids as it is, and so
    does a broadcast for every client. Hence a registered client stays
    registered through every run of connections, disconnections of others,
    messages, broadcasts and sweeps in which its keep-alive timer fires at
    least once per period and every sweep has a threshold that exceeds the
    period: no sweep evicts it. *)
Theorem keepalive_defeats_cleanup clientId client events (sseClients : gmap string SSEClient) :
  sseClients !! clientId = Some client ->
  kept_alive clientId keepAlivePeriod (lastActivity client) events = true ->
  (forall event data now,
     snd (fst (sendSSEMessage clientId event data now sseClients)) !! clientId
     = Some (touch now client)
     /\ dom (snd (fst (sendSSEMessage clientId event data now sseClients))) = dom sseClients)
  /\ (forall event data now,
        fst (broadcastSSEMessage event data now sseClients) !! clientId
        = Some (touch now client)
        /\ dom (fst (broadcastSSEMessage event data now sseClients)) = dom sseClients)
  /\ (forall now,
        fst (fst (keepAlive_tick clientId now sseClients)) !! clientId
        = Some (touch now client))
  /\ is_Some (run events sseClients !! clientId).
Proof.
  intros Hc Hka. split; [| split; [| split]].
  - intros event data now. rewrite send_registry, Hc. split.
    + apply lookup_insert_eq.
    + apply dom_insert_lookup_L. eauto.
  - intros event data now.
    rewrite (proj1 (broadcast_spec event data now sseClients)). split.
    + rewrite lookup_fmap, Hc. reflexivity.
    + apply dom_fmap_L.
  - intros now. rewrite keepAlive_registry, Hc. apply lookup_insert_eq.
  - apply (run_keeps_alive clientId events (lastActivity client));
      [exact Hka |].
    exists client. split; [exact Hc | lia].
Qed.

(** Scenario F: the sweep of 30 minutes, run 30 minutes and 45 seconds after
    the epoch, removes the idle client [b] and ends its stream; [a] stays. *)
Example cleanup_scenario_F :
  cleanupInactiveClients 30 1845000 two_clients
  = (<["a" := client_a]> ∅, [End 2], ["b"]).
Proof. vm_compute. reflexivity. Qed.

(** Scenario E: the frame of a broadcast. *)
Example broadcast_frame :
  JSON_parse (String "{" (QuoteJSONString "test" +:+ ":" +:+ QuoteJSONString "data" +:+ "}"))
  = Some (JObj [("test", JStr "data")])
  /\ sendSSEMessage "a" "test-event" (JObj [("test", JStr "data")]) 1800001 two_clients
     = (true,
        <["a" := touch 1800001 client_a]> two_clients,
        [Write 1 ("event: test-event" +:+ str1 newline
                  +:+ "data: {" +:+ QuoteJSONString "test" +:+ ":"
                  +:+ QuoteJSONString "data" +:+ "}" +:+ str1 newline +:+ str1 newline)]).
Proof. split; vm_compute; reflexivity. Qed.

Lemma keepalive_defeats_cleanup_witness :
  kept_alive "a" keepAlivePeriod 1800000 two_minutes = true
  /\ is_Some (run two_minutes two_clients !! "a")
  /\ run two_minutes two_clients !! "b" = None.
Proof.
  split; [reflexivity |]. split.
  - apply (keepalive_defeats_cleanup "a" client_a two_minutes two_clients);
      reflexivity.
  - vm_compute. reflexivity.
Defined.

End Streaming.

(** ** The message codec *)

Lemma parse_string_literal s s' :
  Zod.parse (Zod.ZLiteral s) (Some (JSON.JStr s')) =
    if String.eqb s s' then Some (Some (JSON.JStr s')) else None.
Proof. exact (parse_literal s s'). Qed.

(** The params of a request are those of the body it was read from, without
    a member [__proto__]. *)
Abbreviation params_from props request :=
  (JSON.obj_get "params" props = None /\ Protocol.params request = None
   \/ exists p, JSON.obj_get "params" props = Some (JSON.JObj p)
                /\ Protocol.params request = Some (Zod.without_proto p)).

Section MessageCodec.
Import JSON Zod Protocol Texts.
Local Open Scope string_scope.

Lemma parse_entries_unknown ps :
  parse_entries Zod.parse ZUnknown ps = Some (without_proto ps).
Proof.
  induction ps as [| [k v] ps IH]; [reflexivity |].
  cbn [parse_entries Zod.parse without_proto List.filter fst]. rewrite IH.
  destruct (String.eqb k "__proto__"); reflexivity.
Qed.

Lemma without_proto_get k ps :
  k <> "__proto__" -> obj_get k (without_proto ps) = obj_get k ps.
Proof.
  intros Hk. induction ps as [| [k' v] ps IH]; [reflexivity |].
  cbn [without_proto List.filter fst obj_get].
  destruct (String.eqb_spec k' "__proto__") as [-> | Hne]; cbn [negb].
  - destruct (String.eqb_spec k "__proto__"); [congruence | exact IH].
  - cbn [obj_get]. destruct (String.eqb k k'); [reflexivity | exact IH].
Qed.

Lemma without_proto_wf ps : wf_value (JObj ps) -> wf_value (JObj (without_proto ps)).
Proof.
  rewrite !wf_value_obj. intros [Hnd Hall].
  induction ps as [| [k v] ps IH]; [split; constructor |].
  cbn [map fst] in Hnd. apply NoDup_cons in Hnd as [Hk Hnd].
  apply Forall_cons in Hall as [Hv Hall].
  destruct (IH Hnd Hall) as [IH1 IH2].
  cbn [without_proto List.filter fst].
  destruct (negb (String.eqb k "__proto__")); [| split; assumption].
  split.
  - cbn [map fst]. apply NoDup_cons. split; [| exact IH1].
    intros Hin. apply Hk. apply list_elem_of_fmap in Hin as ([k' v'] & -> & Hin).
    apply list_elem_of_fmap. exists (k', v'). split; [reflexivity |].
    apply list_elem_of_In in Hin. apply filter_In in Hin as [Hin _].
    apply list_elem_of_In. exact Hin.
  - constructor; assumption.
Qed.

(** What [baseRequestSchema] accepts, and the request it returns. *)
Lemma parse_base v out :
  Zod.parse baseRequestSchema (Some v) = Some (Some out) ->
  exists props request,
    v = JObj props
    /\ obj_get "jsonrpc" props = Some (JStr "2.0")
    /\ obj_get "id" props = Some (id_to_js (id request))
    /\ obj_get "method" props = Some (JStr (method request))
    /\ params_from props request
    /\ out = request_to_js request
    /\ request_of_js out = Some request.
Proof.
  unfold baseRequestSchema.
  destruct v as [| b | n | s | elems | props]; try discriminate.
  rewrite parse_object. cbn [parse_fields].
  set (Pid := Zod.parse (ZUnion ZString ZNumber) (obj_get "id" props)).
  set (Pm := Zod.parse ZString (obj_get "method" props)).
  set (Pp := Zod.parse (ZOptional (ZRecord ZUnknown)) (obj_get "params" props)).
  destruct (obj_get "jsonrpc" props) as [[| | | ver | |] |] eqn:Hv; cbn [Zod.parse];
    try discriminate.
  destruct (String.eqb_spec "2.0" ver) as [<- |]; [| discriminate].
  subst Pid. destruct (obj_get "id" props) as [[| | n | s | |] |] eqn:Hi; cbn [Zod.parse];
    try discriminate;
  (subst Pm; destruct (obj_get "method" props) as [[| | | m | |] |] eqn:Hm; cbn [Zod.parse];
     try discriminate;
   subst Pp; destruct (obj_get "params" props) as [[| | | | | p] |] eqn:Hp; cbn [Zod.parse];
     try discriminate; rewrite ?parse_entries_unknown; cbn [option_map];
     intros H; injection H as <-).
  - exists props, {| id := IdNumber n; method := m; params := Some (without_proto p) |}.
    split; [reflexivity |]. do 3 (split; [assumption |]).
    split; [right; exists p; auto | split; reflexivity].
  - exists props, {| id := IdNumber n; method := m; params := None |}.
    split; [reflexivity |]. do 3 (split; [assumption |]).
    split; [left; auto | split; reflexivity].
  - exists props, {| id := IdString s; method := m; params := Some (without_proto p) |}.
    split; [reflexivity |]. do 3 (split; [assumption |]).
    split; [right; exists p; auto | split; reflexivity].
  - exists props, {| id := IdString s; method := m; params := None |}.
    split; [reflexivity |]. do 3 (split; [assumption |]).
    split; [left; auto | split; reflexivity].
Qed.

(** A request [parseMessage] returns, and the value the text stands for. *)
Lemma parseMessage_Return raw request :
  parseMessage raw = Return request ->
  exists props,
    JSON_parse raw = Some (JObj props)
    /\ obj_get "jsonrpc" props = Some (JStr "2.0")
    /\ obj_get "id" props = Some (id_to_js (id request))
    /\ obj_get "method" props = Some (JStr (method request))
    /\ params_from props request.
Proof.
  unfold parseMessage.
  destruct (JSON_parse raw) as [v |] eqn:Hv; [| discriminate].
  destruct (Zod.parse baseRequestSchema (Some v)) as [[out |] |] eqn:Hz; try discriminate.
  destruct (parse_base v out Hz) as (props & r & -> & Hj & Hi & Hm & Hp & -> & Hr).
  rewrite Hr. intros H. injection H as <-.
  exists props. auto.
Qed.

Lemma request_to_js_wf request props raw :
  JSON_parse raw = Some (JObj props) ->
  obj_get "id" props = Some (id_to_js (id request)) ->
  params_from props request ->
  wf_value (request_to_js request).
Proof.
  intros Hraw Hi Hp.
  apply JSON_parse_wf, wf_value_obj in Hraw as [_ Hwf].
  pose proof (obj_get_wf _ _ _ Hwf Hi) as Hid.
  unfold request_to_js, request_props. apply wf_value_obj.
  destruct (params request) as [p |] eqn:Ep.
  - assert (Hpw : wf_value (JObj p)).
    { destruct Hp as [[_ Hp] | (p0 & Hp0 & Hp)]; [discriminate |].
      injection Hp as ->. apply without_proto_wf.
      exact (obj_get_wf _ _ _ Hwf Hp0). }
    split.
    + cbn [map fst app]. apply (bool_decide_unpack _). vm_compute. reflexivity.
    + constructor; [exact I |]. constructor; [exact Hid |].
      constructor; [exact I |]. constructor; [exact Hpw |]. constructor.
  - split.
    + cbn [map fst app]. apply (bool_decide_unpack _). vm_compute. reflexivity.
    + constructor; [exact I |]. constructor; [exact Hid |].
      constructor; [exact I |]. constructor.
Qed.

Lemma reread_finite_id i : finite_id i = true -> reread (id_to_js i) = id_to_js i.
Proof.
  destruct i as [s | n]; [reflexivity |]. cbn [finite_id id_to_js reread].
  intros ->. reflexivity.
Qed.

(** The converse of [parse_base]: an object with the four fields of a request
    is what [baseRequestSchema] returns that request for, whatever other
    members the object has. *)
Lemma parse_base_request props request :
  obj_get "jsonrpc" props = Some (JStr "2.0") ->
  obj_get "id" props = Some (id_to_js (id request)) ->
  obj_get "method" props = Some (JStr (method request)) ->
  params_from props request ->
  Zod.parse baseRequestSchema (Some (JObj props)) = Some (Some (request_to_js request)).
Proof.
  intros Hj Hi Hm Hp. unfold baseRequestSchema.
  rewrite parse_object. cbn [parse_fields].
  rewrite Hj, Hi, Hm, parse_id, parse_string_literal.
  change (String.eqb "2.0" "2.0") with true. cbv iota.
  unfold request_to_js, request_props.
  destruct Hp as [[-> ->] | (p & -> & ->)]; cbn [option_map Zod.parse];
    rewrite ?parse_entries_unknown; reflexivity.
Qed.

Lemma request_of_js_request request : request_of_js (request_to_js request) = Some request.
Proof.
  unfold request_of_js, request_to_js. cbn [get].
  rewrite request_get_id, request_get_method, request_get_params.
  destruct request as [[s | n] m [p |]]; reflexivity.
Qed.

(** [parseMessage] returns the request of a text of the right shape. *)
Lemma parseMessage_request raw props request :
  JSON_parse raw = Some (JObj props) ->
  obj_get "jsonrpc" props = Some (JStr "2.0") ->
  obj_get "id" props = Some (id_to_js (id request)) ->
  obj_get "method" props = Some (JStr (method request)) ->
  params_from props request ->
  parseMessage raw = Return request.
Proof.
  intros Hraw Hj Hi Hm Hp. unfold parseMessage.
  rewrite Hraw, (parse_base_request props request Hj Hi Hm Hp), request_of_js_request.
  reflexivity.
Qed.

(** C6 (amended). Let the text [raw] be JSON for an object whose [jsonrpc] is
    the string 2.0, whose [id] is a string or a number that [JSON.parse] reads
    as a finite double, whose [method] is a string and whose [params] are
    absent or an object. Then [parseMessage] returns a request for [raw], with
    that id and that method, and the text [formatResponse] writes for the
    request is JSON whose [jsonrpc], [id] and [method] are those read from
    [raw]: the id is the same string or the same double, a number stays a
    number and a string a string. The digits of a numeric id need not be
    those of [raw]: the text carries the shortest decimal that names the
    double nearest to the literal. *)
Theorem parse_then_serialize raw props i m :
  JSON_parse raw = Some (JObj props) ->
  obj_get "jsonrpc" props = Some (JStr "2.0") ->
  obj_get "id" props = Some (id_to_js i) ->
  finite_id i = true ->
  obj_get "method" props = Some (JStr m) ->
  (obj_get "params" props = None \/ exists p, obj_get "params" props = Some (JObj p)) ->
  exists request v',
    parseMessage raw = Return request
    /\ id request = i
    /\ method request = m
    /\ JSON_parse (formatResponse (request_to_js request)) = Some v'
    /\ get "jsonrpc" v' = Some (JStr "2.0")
    /\ get "id" v' = Some (id_to_js i)
    /\ get "method" v' = Some (JStr m).
Proof.
  intros Hraw Hj Hi Hfin Hm Hp.
  set (request := {| id := i; method := m;
                     params := match obj_get "params" props with
                               | Some (JObj p) => Some (without_proto p)
                               | _ => None
                               end |}).
  assert (Hfrom : params_from props request).
  { destruct Hp as [Hp | [p Hp]]; unfold request; cbn [params]; rewrite Hp.
    - left. split; reflexivity.
    - right. exists p. split; reflexivity. }
  exists request, (reread (request_to_js request)).
  split; [exact (parseMessage_request raw props request Hraw Hj Hi Hm Hfrom) |].
  split; [reflexivity |]. split; [reflexivity |].
  split.
  { unfold formatResponse. apply JSON_parse_stringify.
    exact (request_to_js_wf request props raw Hraw Hi Hfrom). }
  rewrite !get_reread. unfold request_to_js. cbn [get].
  rewrite request_get_jsonrpc, request_get_id, request_get_method.
  cbn [option_map id method request]. rewrite reread_finite_id by exact Hfin.
  repeat split; reflexivity.
Qed.

(** C6 as the specification words it fails for an id beyond the range of a
    double: [JSON.parse] reads the literal 1e400 as Infinity, [z.number()]
    accepts it, and [JSON.stringify] writes it as null. *)
Lemma overflow_counterexample :
  exists request v v',
    parseMessage ping_1e400 = Return request
    /\ JSON_parse ping_1e400 = Some v
    /\ JSON_parse (formatResponse (request_to_js request)) = Some v'
    /\ get "id" v = Some (JNum PosInfinity)
    /\ get "id" v' = Some JNull
    /\ get "id" v' <> get "id" v.
Proof.
  eexists _, _, _.
  split; [vm_compute; reflexivity |].
  split; [vm_compute; reflexivity |].
  split; [vm_compute; reflexivity |].
  split; [reflexivity |]. split; [reflexivity | discriminate].
Qed.

Lemma parse_then_serialize_witness :
  exists request v',
    parseMessage ping_a = Return request
    /\ id request = IdString "a"
    /\ method request = "ping"
    /\ JSON_parse (formatResponse (request_to_js request)) = Some v'
    /\ get "jsonrpc" v' = Some (JStr "2.0")
    /\ get "id" v' = Some (JStr "a")
    /\ get "method" v' = Some (JStr "ping").
Proof.
  apply (parse_then_serialize ping_a
           [("jsonrpc", JStr "2.0");
            ("extra", JArr [JNum (Finite 1 0); JNum (Finite 25 2)]);
            ("id", JStr "a"); ("method", JStr "ping")]
           (IdString "a") "ping");
    try (vm_compute; reflexivity).
  left. reflexivity.
Defined.

(** A numeric id stays a number. *)
Example round_trip_numeric_id :
  parseMessage ping_7 = Return {| id := IdNumber (Finite 7 0); method := "ping"; params := None |}
  /\ formatResponse (request_to_js
                       {| id := IdNumber (Finite 7 0); method := "ping"; params := None |})
     = ping_7.
Proof. split; vm_compute; reflexivity. Qed.

(** A numeric id comes back as the double nearest to its literal: the digits
    of [2^53 + 1] are not preserved. *)
Example round_trip_rounds_id :
  parseMessage Examples.ping_odd
  = Return {| id := IdNumber (Finite 9007199254740992 0); method := "ping"; params := None |}
  /\ JSON_parse (formatResponse
                   (request_to_js {| id := IdNumber (Finite 9007199254740992 0);
                                     method := "ping"; params := None |}))
     = Some (JObj Examples.ping_odd_props)
  /\ includes "9007199254740992"
       (formatResponse (request_to_js {| id := IdNumber (Finite 9007199254740992 0);
                                         method := "ping"; params := None |})) = true.
Proof. repeat split; vm_compute; reflexivity. Qed.

(** The member [__proto__] of the params does not reach the request. *)
Example proto_member_dropped :
  parseMessage Examples.ping_proto
  = Return {| id := IdNumber (Finite 7 0); method := "ping";
              params := Some [("a", JNum (Finite 1 0))] |}.
Proof. vm_compute. reflexivity. Qed.

End MessageCodec.

(** ** What [parseMessage] accepts *)

Section RequestShape.
Import JSON Zod Protocol.
Local Open Scope string_scope.

(** The error [parseMessage] throws. *)
Lemma parseMessage_Throw message e :
  parseMessage message = Throw e ->
  err_code e = Some (-32700) /\ err_message e = "Failed to parse JSON-RPC message".
Proof.
  unfold parseMessage.
  destruct (JSON_parse message) as [v |]; [| intros H; injection H as <-; auto].
  destruct (Zod.parse baseRequestSchema (Some v)) as [[out |] |];
    [destruct (request_of_js out); [discriminate |] | |];
    intros H; injection H as <-; auto.
Qed.

(** X1. [parseMessage] returns a request exactly for the texts that are JSON
    for an object whose [jsonrpc] is the string 2.0, whose [id] is a string or
    a number, whose [method] is a string and whose [params] are absent or an
    object that is not an array; the request holds these four fields and
    nothing else of the object, and its params are the members of the [params]
    of the text other than [__proto__], which [z.record] does not copy. Every
    other text, whether it is not JSON or JSON of another shape, makes it
    throw the error of code -32700 with the message
    [Failed to parse JSON-RPC message]. *)
Theorem parseMessage_accepts_exactly message :
  (forall request,
     parseMessage message = Return request
     <-> exists props,
           JSON_parse message = Some (JObj props)
           /\ obj_get "jsonrpc" props = Some (JStr "2.0")
           /\ obj_get "id" props = Some (id_to_js (id request))
           /\ obj_get "method" props = Some (JStr (method request))
           /\ (obj_get "params" props = None /\ params request = None
               \/ exists p, obj_get "params" props = Some (JObj p)
                            /\ params request = Some (without_proto p)))
  /\ (forall e,
        parseMessage message = Throw e ->
        err_code e = Some (-32700)
        /\ err_message e = "Failed to parse JSON-RPC message").
Proof.
  split.
  - intros request. split; [apply parseMessage_Return |].
    intros (props & Hraw & Hj & Hi & Hm & Hp).
    exact (parseMessage_request message props request Hraw Hj Hi Hm Hp).
  - intros e. apply parseMessage_Throw.
Qed.

End RequestShape.

(** ** What the handlers of the four methods accept *)

Section Dispatch.
Import JSON Zod Protocol MCPServer.
Local Open Scope string_scope.

Variable config : Config.

Lemma initializeRequestSchema_eq :
  initializeRequestSchema =
    ZObject [("jsonrpc", ZLiteral "2.0");
             ("id", ZUnion ZString ZNumber);
             ("method", ZLiteral "initialize");
             ("params", ZObject [("protocolVersion", ZString);
                                 ("capabilities", ZOptional (ZRecord ZUnknown));
                                 ("clientInfo", ZOptional (ZObject [("name", ZString);
                                                                    ("version", ZString)]))])].
Proof. reflexivity. Qed.

Lemma toolsListRequestSchema_eq :
  toolsListRequestSchema =
    ZObject [("jsonrpc", ZLiteral "2.0");
             ("id", ZUnion ZString ZNumber);
             ("method", ZLiteral "tools/list");
             ("params", ZOptional (ZObject []))].
Proof. reflexivity. Qed.

(** The error [validateRequest] throws, whatever the schema. *)
Lemma validateRequest_Throw request schema e :
  validateRequest request schema = Throw e ->
  e = Protocol.createError INVALID_REQUEST "Invalid request format" (Some ZodErrorCause).
Proof.
  unfold validateRequest.
  destruct (Zod.parse schema _) as [[out |] |]; [discriminate | |];
    intros H; injection H as <-; reflexivity.
Qed.

(** An optional record: absent, or an object that is not an array. *)
Lemma parse_optional_record x :
  Zod.parse (ZOptional (ZRecord ZUnknown)) x =
    match x with
    | None => Some None
    | Some (JObj c) => Some (Some (JObj (without_proto c)))
    | Some _ => None
    end.
Proof.
  destruct x as [[| b | n | s | elems | c] |]; cbn [Zod.parse]; try reflexivity.
  rewrite parse_entries_unknown. reflexivity.
Qed.

(** The optional [clientInfo]: absent, or an object with a string [name] and
    a string [version]; its other members are dropped. *)
Lemma parse_clientInfo x :
  Zod.parse (ZOptional (ZObject [("name", ZString); ("version", ZString)])) x =
    match x with
    | None => Some None
    | Some (JObj ci) =>
        match obj_get "name" ci with
        | Some (JStr name) =>
            match obj_get "version" ci with
            | Some (JStr ver) =>
                Some (Some (JObj [("name", JStr name); ("version", JStr ver)]))
            | _ => None
            end
        | _ => None
        end
    | Some _ => None
    end.
Proof.
  destruct x as [[| b | n | s | elems | ci] |]; try reflexivity.
  change (Zod.parse (ZOptional ?a) (Some ?v)) with (Zod.parse a (Some v)).
  rewrite parse_object. cbn [parse_fields Zod.parse].
  destruct (obj_get "name" ci) as [[| b | n | name | elems | o] |];
    destruct (obj_get "version" ci) as [[| b' | n' | ver | elems' | o'] |]; reflexivity.
Qed.

Ltac reject_params :=
  cbn [option_map Zod.parse];
  split;
  [ intros [? H]; discriminate H
  | intros (? & ? & H & ? & Hcap & Hcli); injection H as <-;
    destruct Hcap as [? | [? ?]]; destruct Hcli as [? | (? & ? & ? & ? & ? & ?)];
    congruence ].

(** The params the schema of initialize accepts. *)
Lemma validate_initialize request :
  method request = "initialize" ->
  (exists v, validateRequest request initializeRequestSchema = Return v)
  <-> exists p pv,
        params request = Some p
        /\ obj_get "protocolVersion" p = Some (JStr pv)
        /\ (obj_get "capabilities" p = None
            \/ exists c, obj_get "capabilities" p = Some (JObj c))
        /\ (obj_get "clientInfo" p = None
            \/ exists ci name ver,
                 obj_get "clientInfo" p = Some (JObj ci)
                 /\ obj_get "name" ci = Some (JStr name)
                 /\ obj_get "version" ci = Some (JStr ver)).
Proof.
  intros Hm. unfold_validation initializeRequestSchema_eq.
  rewrite Hm. change (String.eqb "initialize" "initialize") with true. cbv iota.
  destruct (params request) as [p |]; cbn [option_map];
    [| cbn [Zod.parse]; split; [intros [v H]; discriminate | intros (p & pv & H & _); discriminate]].
  rewrite parse_object. cbn [parse_fields].
  rewrite parse_optional_record, parse_clientInfo.
  destruct (obj_get "protocolVersion" p) as [[| b | n | pv | elems | o] |] eqn:Hpv;
    try reject_params.
  destruct (obj_get "capabilities" p) as [[| b | n | s | elems | c] |] eqn:Hc;
    try reject_params;
    (destruct (obj_get "clientInfo" p) as [[| b | n | s | elems | ci] |] eqn:Hci;
     try reject_params;
     [ destruct (obj_get "name" ci) as [[| b | n | name | elems | o] |] eqn:Hn;
       try reject_params;
       destruct (obj_get "version" ci) as [[| b | n | ver | elems | o] |] eqn:Hver;
       try reject_params |];
     cbn [option_map Zod.parse];
     (split; [intros _; exists p, pv; eauto 12 | eauto])).
Qed.

(** X2. An initialize request is accepted exactly when its params are an
    object with a string [protocolVersion], with [capabilities] absent or an
    object, and with [clientInfo] absent or an object that has a string [name]
    and a string [version]. The version asked for is not compared with
    anything: whatever it is, the answer names the protocol version 1.0.0 and
    the name and version of the server, and the session is initialized.
    Every other initialize request is refused with the error of code -32600
    and the message [Invalid request format], and leaves the session as it
    was. *)
Theorem initialize_accepted_exactly now request st :
  method request = "initialize" ->
  ((exists r st', handleRequest config now request st = (Return r, st'))
   <-> exists p pv,
         params request = Some p
         /\ obj_get "protocolVersion" p = Some (JStr pv)
         /\ (obj_get "capabilities" p = None
             \/ exists c, obj_get "capabilities" p = Some (JObj c))
         /\ (obj_get "clientInfo" p = None
             \/ exists ci name ver,
                  obj_get "clientInfo" p = Some (JObj ci)
                  /\ obj_get "name" ci = Some (JStr name)
                  /\ obj_get "version" ci = Some (JStr ver)))
  /\ (forall r st',
        handleRequest config now request st = (Return r, st') ->
        r = JObj [("protocolVersion", JStr "1.0.0");
                  ("serverInfo", JObj [("name", JStr (serverName config));
                                       ("version", JStr (version config))]);
                  ("capabilities", JObj [("tools", JObj [])])]
        /\ st' = {| initialized := true |})
  /\ (forall e st',
        handleRequest config now request st = (Throw e, st') ->
        err_code e = Some (-32600)
        /\ err_message e = "Invalid request format"
        /\ st' = st).
Proof.
  intros Hm.
  rewrite (handleRequest_initialize config now request st Hm), handleInitialize_eq.
  split; [| split].
  - rewrite <- (validate_initialize request Hm).
    destruct (validateRequest request initializeRequestSchema) as [v | e].
    + split; eauto.
    + split; [intros (r & st' & H); discriminate | intros [v H]; discriminate].
  - intros r st'.
    destruct (validateRequest request initializeRequestSchema) as [v | e];
      [| discriminate].
    intros H. injection H as <- <-. auto.
  - intros e st'.
    destruct (validateRequest request initializeRequestSchema) as [v | e'] eqn:Hv;
      [discriminate |].
    intros H. injection H as <- <-.
    rewrite (validateRequest_Throw _ _ _ Hv). auto.
Qed.

(** X3. Once the session is initialized, every tools/list request is served:
    there are no params its schema refuses (the params of a request are
    absent or an object, and the schema takes any object), and the answer is
    the empty list of tools. The session stays as it is. *)
Theorem tools_list_always_served now request st :
  initialized st = true ->
  method request = "tools/list" ->
  handleRequest config now request st = (Return (JObj [("tools", JArr [])]), st).
Proof.
  intros Hi Hm.
  rewrite (handleRequest_tools_list config now request st Hm), handleToolsList_eq, Hi.
  assert (Hv : exists v, validateRequest request toolsListRequestSchema = Return v).
  { unfold_validation toolsListRequestSchema_eq.
    rewrite Hm. change (String.eqb "tools/list" "tools/list") with true. cbv iota.
    destruct (params request) as [p |]; cbn [option_map Zod.parse parse_fields]; eauto. }
  destruct Hv as [v ->]. reflexivity.
Qed.

(** The params the schema of tools/call accepts. *)
Lemma validate_tools_call request :
  method request = "tools/call" ->
  (exists v, validateRequest request toolsCallRequestSchema = Return v)
  <-> exists p name,
        params request = Some p
        /\ obj_get "name" p = Some (JStr name)
        /\ (obj_get "arguments" p = None
            \/ exists a, obj_get "arguments" p = Some (JObj a)).
Proof.
  intros Hm. unfold_validation toolsCallRequestSchema_eq.
  rewrite Hm. change (String.eqb "tools/call" "tools/call") with true. cbv iota.
  destruct (params request) as [p |]; cbn [option_map];
    [| cbn [Zod.parse]; split; [intros [v H]; discriminate | intros (p & pv & H & _); discriminate]].
  rewrite parse_object. cbn [parse_fields]. rewrite parse_optional_record.
  destruct (obj_get "name" p) as [[| b | n | name | elems | o] |] eqn:Hn;
    cbn [option_map Zod.parse];
    try (split; [intros [? H]; discriminate H
                | intros (? & ? & H & ? & _); injection H as <-; congruence]).
  destruct (obj_get "arguments" p) as [[| b | n | s | elems | a] |] eqn:Ha;
    cbn [option_map Zod.parse];
    try (split; [intros [? H]; discriminate H
                | intros (? & ? & H & ? & [? | [? ?]]); injection H as <-; congruence]);
    (split; [intros _; exists p, name; eauto 8 | eauto]).
Qed.

(** X4. A tools/call request never returns a result, in either state, and it
    leaves the session as it was. Before initialization the error is the one
    of [ensureInitialized]. After it, the error has the code -32601 exactly
    when the params are an object with a string [name] and with [arguments]
    absent or an object; every other tools/call is refused with the code
    -32600 and the message [Invalid request format]. *)
Theorem tools_call_never_returns now request st :
  method request = "tools/call" ->
  exists e,
    handleRequest config now request st = (Throw e, st)
    /\ (initialized st = false ->
        e = createError INVALID_REQUEST "Server not initialized. Call initialize first.")
    /\ (initialized st = true ->
        (err_code e = Some (-32601)
         <-> exists p name,
               params request = Some p
               /\ obj_get "name" p = Some (JStr name)
               /\ (obj_get "arguments" p = None
                   \/ exists a, obj_get "arguments" p = Some (JObj a)))
        /\ (err_code e <> Some (-32601) ->
            err_code e = Some (-32600) /\ err_message e = "Invalid request format")).
Proof.
  intros Hm.
  rewrite (handleRequest_tools_call config now request st Hm), handleToolsCall_eq.
  destruct (initialized st) eqn:Hi.
  - pose proof (validate_tools_call request Hm) as Hiff.
    destruct (validateRequest request toolsCallRequestSchema) as [v | e] eqn:Hv.
    + eexists. split; [reflexivity |]. split; [discriminate |]. intros _.
      split; [| intros H; exfalso; apply H; reflexivity].
      rewrite <- Hiff. split; eauto.
    + eexists. split; [reflexivity |]. split; [discriminate |]. intros _.
      rewrite (validateRequest_Throw _ _ _ Hv).
      split; [| auto].
      rewrite <- Hiff. split; [discriminate | intros [v H]; discriminate].
  - eexists. split; [reflexivity |]. split; [reflexivity | discriminate].
Qed.

(** The errors [handleRequest] throws, and the state it leaves when it
    throws. *)
Lemma handleRequest_Throw now request st e st' :
  handleRequest config now request st = (Throw e, st') ->
  st' = st
  /\ (e = createError INVALID_REQUEST "Server not initialized. Call initialize first."
      \/ e = Protocol.createError INVALID_REQUEST "Invalid request format" (Some ZodErrorCause)
      \/ exists m, e = createMethodNotFoundError m).
Proof.
  destruct (method_cases (method request)) as [H | [H | [H | [H | H]]]].
  - rewrite handleRequest_initialize, handleInitialize_eq by assumption.
    destruct (validateRequest request initializeRequestSchema) as [v | e'] eqn:Hv;
      [discriminate |].
    intros He. injection He as <- <-. rewrite (validateRequest_Throw _ _ _ Hv). auto.
  - rewrite handleRequest_tools_list, handleToolsList_eq by assumption.
    destruct (initialized st);
      [destruct (validateRequest request toolsListRequestSchema) as [v | e'] eqn:Hv;
       [discriminate |] |];
      intros He; injection He as <- <-; [rewrite (validateRequest_Throw _ _ _ Hv) |]; auto.
  - rewrite handleRequest_tools_call, handleToolsCall_eq by assumption.
    destruct (initialized st);
      [destruct (validateRequest request toolsCallRequestSchema) as [v | e'] eqn:Hv |];
      intros He; injection He as <- <-; [| rewrite (validateRequest_Throw _ _ _ Hv) |];
      eauto.
  - rewrite handleRequest_ping by assumption. discriminate.
  - rewrite handleRequest_unrecognized by assumption.
    intros He. injection He as <- <-. eauto.
Qed.

(** X5. A request that fails leaves the session as it was, whatever its
    method, and its error carries one of two codes: -32600 (the session is not
    initialized, or the params do not fit the method) or -32601 (no such
    method, no such tool). The codes -32602 of INVALID_PARAMS, -32603 and
    -32700 are never thrown by [handleRequest]. *)
Theorem failed_request_leaves_session now request st e st' :
  handleRequest config now request st = (Throw e, st') ->
  st' = st
  /\ (err_code e = Some (code_of INVALID_REQUEST)
      \/ err_code e = Some (code_of METHOD_NOT_FOUND))
  /\ err_code e <> Some (code_of INVALID_PARAMS)
  /\ err_code e <> Some (code_of INTERNAL_ERROR)
  /\ err_code e <> Some (code_of PARSE_ERROR).
Proof.
  intros H. destruct (handleRequest_Throw _ _ _ _ _ H) as [-> [-> | [-> | [m ->]]]];
    (split; [reflexivity |]); (split; [auto |]);
    repeat split; discriminate.
Qed.

End Dispatch.

(** ** The envelopes of [POST /mcp] *)

Section Envelope.
Import JSON Zod Protocol MCPServer Transport.
Local Open Scope string_scope.

(** The [try] block of the route on a body that is not falsy. *)
Lemma mcp_try_truthy requestHandler b st :
  truthy b = true ->
  mcp_try requestHandler (Some b) st =
    match parseMessage (JSON_stringify b) with
    | Throw e => (Throw e, st)
    | Return mcpRequest =>
        match requestHandler with
        | None => (Throw (new_Error "Request handler not configured"), st)
        | Some handler =>
            match handler mcpRequest st with
            | (Return r, st') => (Return (createSuccessResponse (id mcpRequest) r), st')
            | (Throw e, st') => (Throw e, st')
            end
        end
    end.
Proof.
  intros Hb. unfold mcp_try, bind, lift. rewrite Hb. cbn [negb].
  destruct (parseMessage (JSON_stringify b)) as [mcpRequest | e]; [| reflexivity].
  destruct requestHandler as [handler |]; [| reflexivity].
  destruct (handler mcpRequest st) as [[r | e] st']; reflexivity.
Qed.

Lemma mcp_try_falsy requestHandler b st :
  truthy b = false ->
  mcp_try requestHandler (Some b) st = (Throw (new_Error "Request body is required"), st).
Proof. intros Hb. unfold mcp_try. rewrite Hb. reflexivity. Qed.

(** An id that reads back as the id of a request is that id, and is finite. *)
Lemma reread_is_id i rid :
  reread i = id_to_js rid -> i = id_to_js rid /\ finite_id rid = true.
Proof.
  destruct i as [| b | n | s | elems | props]; destruct rid as [s' | n'];
    cbn [reread id_to_js finite_id]; try discriminate;
    try (destruct (is_finite n) eqn:Hn; try discriminate);
    intros H; injection H as <-; auto.
Qed.

Lemma reread_is_string v s : reread v = JStr s -> v = JStr s.
Proof.
  destruct v as [| b | n | s' | elems | props]; cbn [reread]; try discriminate; auto.
  destruct (is_finite n); discriminate.
Qed.

Lemma reread_is_object v props' :
  reread v = JObj props' ->
  exists props, v = JObj props /\ props' = map (fun kx => (fst kx, reread (snd kx))) props.
Proof.
  destruct v as [| b | n | s | elems | props]; cbn [reread]; try discriminate.
  - destruct (is_finite n); discriminate.
  - intros H. injection H as <-. eauto.
Qed.

(** What the [try] block has done when it returns for a body read from
    JSON. *)
Lemma mcp_try_Return requestHandler b st response st' :
  wf_value b ->
  mcp_try requestHandler (Some b) st = (Return response, st') ->
  exists props request handler r,
    b = JObj props
    /\ obj_get "jsonrpc" props = Some (JStr "2.0")
    /\ obj_get "id" props = Some (id_to_js (id request))
    /\ finite_id (id request) = true
    /\ obj_get "method" props = Some (JStr (method request))
    /\ requestHandler = Some handler
    /\ handler request st = (Return r, st')
    /\ response = createSuccessResponse (id request) r.
Proof.
  intros Hwf.
  destruct (truthy b) eqn:Hb; [| rewrite mcp_try_falsy by exact Hb; discriminate].
  rewrite mcp_try_truthy by exact Hb.
  destruct (parseMessage (JSON_stringify b)) as [request | e] eqn:Hp; [| discriminate].
  destruct requestHandler as [handler |]; [| discriminate].
  destruct (handler request st) as [[r | e] st''] eqn:Hh; [| discriminate].
  intros H. injection H as <- <-.
  apply parseMessage_Return in Hp as (props' & Hraw & Hj & Hi & Hm & _).
  rewrite (JSON_parse_stringify b Hwf) in Hraw. injection Hraw as Hraw.
  apply reread_is_object in Hraw as (props & -> & ->).
  rewrite obj_get_reread in Hj, Hi, Hm.
  destruct (obj_get "jsonrpc" props) as [j |] eqn:Ej; [| discriminate].
  destruct (obj_get "id" props) as [i |] eqn:Ei; [| discriminate].
  destruct (obj_get "method" props) as [m |] eqn:Em; [| discriminate].
  cbn [option_map] in Hj, Hi, Hm.
  injection Hj as Hj. injection Hi as Hi. injection Hm as Hm.
  apply reread_is_string in Hj, Hm. apply reread_is_id in Hi as [Hi Hfin]. subst.
  exists props, request, handler, r.
  repeat (split; [assumption || reflexivity |]). reflexivity.
Qed.

Variable requestHandler : option RequestHandler.

(** X6. When [POST /mcp] answers 200, the body of the request was JSON for an
    object, the installed handler has returned a result for the request read
    from it, and the answer is the envelope with exactly three members: the
    [jsonrpc] of 2.0, the [id] and the [result] of the handler; it has no
    [error] member. The [id] is the value [JSON.parse] read from the text, a
    string or a finite number: a number comes back as the double nearest to
    the literal, so that the id 9007199254740993 is answered with
    9007199254740992. *)
Theorem success_envelope_echoes_id text st resp st' :
  post_mcp requestHandler (Some text) st = (Return resp, st') ->
  status resp = 200 ->
  exists props request handler r,
    JSON_parse text = Some (JObj props)
    /\ obj_get "id" props = Some (id_to_js (id request))
    /\ finite_id (id request) = true
    /\ obj_get "method" props = Some (JStr (method request))
    /\ requestHandler = Some handler
    /\ handler request st = (Return r, st')
    /\ body resp = JObj [("jsonrpc", JStr "2.0"); ("id", id_to_js (id request));
                         ("result", r)]
    /\ get "error" (body resp) = None.
Proof.
  unfold post_mcp, express_json.
  destruct (String.length text =? 0)%nat eqn:Hlen.
  - rewrite mcp_route_eq, mcp_try_truthy by reflexivity.
    change (parseMessage (JSON_stringify (JObj [])))
      with (Throw (A := BaseRequest)
              (Protocol.createError PARSE_ERROR "Failed to parse JSON-RPC message"
                 (Some ZodErrorCause))).
    cbv beta iota. discriminate.
  - destruct (strict_first_char text); [| intros H; injection H as <- <-; discriminate].
    destruct (JSON_parse text) as [v |] eqn:Hv;
      [| intros H; injection H as <- <-; discriminate].
    rewrite mcp_route_eq.
    destruct (mcp_try requestHandler (Some v) st) as [[response | e] st''] eqn:Ht;
      intros H; [injection H as <- <- | discriminate].
    intros _.
    apply mcp_try_Return in Ht as (props & request & handler & r & -> & _ & Hi & Hfin & Hm
                                   & Hh & Hr & ->);
      [| exact (JSON_parse_wf _ _ Hv)].
    exists props, request, handler, r.
    repeat (split; [assumption || reflexivity |]). reflexivity.
Qed.

(** What the [try] block returns is a success envelope. *)
Lemma mcp_try_success handler req_body st response st' :
  mcp_try handler req_body st = (Return response, st') ->
  exists rid r, response = createSuccessResponse rid r.
Proof.
  destruct req_body as [b |]; [| discriminate].
  destruct (truthy b) eqn:Hb; [| rewrite mcp_try_falsy by exact Hb; discriminate].
  rewrite mcp_try_truthy by exact Hb.
  destruct (parseMessage (JSON_stringify b)) as [request | e]; [| discriminate].
  destruct handler as [handler |]; [| discriminate].
  destruct (handler request st) as [[r | e] st'']; [| discriminate].
  intros H. injection H as <- <-. eauto.
Qed.

(** The errors of the [try] block with the handler the server installs. *)
Lemma mcp_try_Throw config now req_body st e st' :
  mcp_try (Some (handleRequest config now)) req_body st = (Throw e, st') ->
  st' = st
  /\ (err_code e = Some (-32700) \/ err_code e = Some (-32600)
      \/ err_code e = Some (-32601)
      \/ (e = new_Error "Request body is required"
          /\ match req_body with
             | Some b => truthy b = false
             | None => True
             end)).
Proof.
  intros Ht. destruct req_body as [b |].
  - destruct (truthy b) eqn:Hb.
    + rewrite mcp_try_truthy in Ht by exact Hb.
      destruct (parseMessage (JSON_stringify b)) as [request | e'] eqn:Hp.
      * destruct (handleRequest config now request st) as [[r | e'] st3] eqn:Hh;
          [discriminate |].
        injection Ht as <- <-.
        destruct (handleRequest_Throw _ _ _ _ _ _ Hh) as [-> [-> | [-> | [m ->]]]]; auto.
      * injection Ht as <- <-. destruct (parseMessage_Throw _ _ Hp) as [Hc _]. auto.
    + rewrite mcp_try_falsy in Ht by exact Hb. injection Ht as <- <-. auto 6.
  - injection Ht as <- <-. auto 6.
Qed.

(** X7. The route of [POST /mcp], with the handler the server installs,
    sends no error envelope. It either answers 200, or ends with the
    [ReferenceError] of its [catch] block and sends nothing; in the latter
    case the session is as it was, and the error that goes unreported is that
    of a body that is not a request (code -32700), of a request that was
    refused (-32600 or -32601), or of a body that is missing or falsy
    ([Request body is required], which has no code). No status 500 and no
    error code reaches the client from this route. *)
Theorem route_failure_unanswered config now req_body st :
  (forall resp st',
     mcp_route (Some (handleRequest config now)) req_body st = (Return resp, st') ->
     status resp = 200 /\ get "error" (body resp) = None)
  /\ (forall err st',
        mcp_route (Some (handleRequest config now)) req_body st = (Throw err, st') ->
        err = ReferenceError "requestId"
        /\ st' = st
        /\ exists e,
             mcp_try (Some (handleRequest config now)) req_body st = (Throw e, st)
             /\ (err_code e = Some (-32700) \/ err_code e = Some (-32600)
                 \/ err_code e = Some (-32601)
                 \/ (e = new_Error "Request body is required"
                     /\ match req_body with
                        | Some b => truthy b = false
                        | None => True
                        end))).
Proof.
  rewrite mcp_route_eq.
  destruct (mcp_try (Some (handleRequest config now)) req_body st)
    as [[response | e] st''] eqn:Ht.
  - split; [| discriminate].
    intros resp st' H. injection H as <- <-.
    destruct (mcp_try_success _ _ _ _ _ Ht) as (rid & r & ->). split; reflexivity.
  - split; [discriminate |].
    intros err st' H. injection H as <- <-.
    destruct (mcp_try_Throw _ _ _ _ _ _ Ht) as [-> He].
    split; [reflexivity |]. split; [reflexivity |]. exists e. auto.
Qed.

End Envelope.

(** ** The registry of streaming clients *)

Section Registry.
Import JSON Transport Traces.
Local Open Scope string_scope.

(** The registry a sweep leaves: the clients that are not idle. *)
Lemma cleanup_registry maxInactiveMinutes now (sseClients : gmap string SSEClient) :
  fst (fst (cleanupInactiveClients maxInactiveMinutes now sseClients))
  = filter (fun kc : string * SSEClient =>
              ~ is_inactive maxInactiveMinutes now (snd kc) = true) sseClients.
Proof.
  destruct (cleanup_loop maxInactiveMinutes now sseClients sseClients) as (Hreg & _).
  fold (cleanupInactiveClients maxInactiveMinutes now sseClients) in Hreg.
  apply map_eq. intros k. rewrite Hreg, map_lookup_filter.
  destruct (sseClients !! k) as [c |] eqn:Hc; [| reflexivity].
  cbn [mbind option_bind snd].
  destruct (is_inactive maxInactiveMinutes now c) eqn:Hi.
  - rewrite option_guard_False by (intros H; apply H; reflexivity). reflexivity.
  - rewrite option_guard_True by discriminate. reflexivity.
Qed.

(** The streams a sweep ends and the ids it removes. *)
Lemma cleanup_effects maxInactiveMinutes now (sseClients : gmap string SSEClient) :
  snd (fst (cleanupInactiveClients maxInactiveMinutes now sseClients))
  ≡ₚ (fun kc => End (response (snd kc)))
     <$> map_to_list (filter (fun kc : string * SSEClient =>
                                is_inactive maxInactiveMinutes now (snd kc) = true) sseClients)
  /\ snd (cleanupInactiveClients maxInactiveMinutes now sseClients)
     ≡ₚ fst <$> map_to_list (filter (fun kc : string * SSEClient =>
                                 is_inactive maxInactiveMinutes now (snd kc) = true) sseClients).
Proof.
  destruct (cleanup_loop maxInactiveMinutes now sseClients sseClients) as (_ & Heff & Hrem).
  split; assumption.
Qed.

(** X8. A broadcast writes the same frame once to the stream of every
    registered client and to no other stream, and sets the [lastActivity] of
    every client to the current time; it registers nobody and removes nobody.
    With an empty registry it writes nothing. *)
Theorem broadcast_reaches_every_client event data now (sseClients : gmap string SSEClient) :
  let r := broadcastSSEMessage event data now sseClients in
  (forall id, fst r !! id = touch now <$> sseClients !! id)
  /\ getSSEClientCount (fst r) = getSSEClientCount sseClients
  /\ snd r ≡ₚ (fun kc => Write (response (snd kc)) (sse_message event data))
              <$> map_to_list sseClients
  /\ length (snd r) = getSSEClientCount sseClients
  /\ (forall e,
        e ∈ snd r
        <-> exists id client,
              sseClients !! id = Some client
              /\ e = Write (response client)
                       ("event: " +:+ event +:+ str1 newline +:+ "data: "
                        +:+ JSON_stringify data +:+ str1 newline +:+ str1 newline)).
Proof.
  intros r.
  destruct (broadcast_loop (sse_message event data) now sseClients sseClients)
    as (Hreg & Heff).
  fold (broadcastSSEMessage event data now sseClients) in Hreg, Heff. fold r in Hreg, Heff.
  assert (Hmap : fst r = touch now <$> sseClients).
  { apply map_eq. intros k. rewrite Hreg, lookup_fmap.
    destruct (sseClients !! k); reflexivity. }
  split; [| split; [| split; [| split]]].
  - intros id. rewrite Hmap, lookup_fmap. reflexivity.
  - unfold getSSEClientCount. rewrite Hmap, map_size_fmap. reflexivity.
  - exact Heff.
  - rewrite Heff, length_fmap, length_map_to_list. reflexivity.
  - intros e. rewrite Heff, list_elem_of_fmap. split.
    + intros ([id client] & -> & Hin). apply elem_of_map_to_list in Hin.
      exists id, client. split; [exact Hin | reflexivity].
    + intros (id & client & Hc & ->). exists (id, client).
      split; [reflexivity | apply elem_of_map_to_list, Hc].
Qed.

(** X9. A connection under an identifier that is not in use registers one
    client more, with the current time as its [lastActivity], and leaves the
    others as they are; it writes the head of the response and then one
    frame, the event [connected] with the identifier and the time, to its own
    stream and to no other. Closing the connection gives back the registry
    there was before: connecting and closing leave no trace. *)
Theorem connect_then_close clientId res now (sseClients : gmap string SSEClient) :
  sseClients !! clientId = None ->
  let r := sse_connect clientId res now sseClients in
  fst r !! clientId
  = Some {| client_id := clientId; response := res; lastActivity := now |}
  /\ (forall id, id <> clientId -> fst r !! id = sseClients !! id)
  /\ getSSEClientCount (fst r) = S (getSSEClientCount sseClients)
  /\ snd r = [WriteHead res;
              Write res (sse_message "connected"
                           (JObj [("clientId", JStr clientId);
                                  ("timestamp", JStr (JSDate.toISOString now))]))]
  /\ sse_close clientId (fst r) = sseClients
  /\ getSSEClientCount (sse_close clientId (fst r)) = getSSEClientCount sseClients.
Proof.
  intros Hfresh r.
  assert (Hreg : fst r
                 = <[clientId := {| client_id := clientId; response := res;
                                    lastActivity := now |}]> sseClients)
    by apply connect_registry.
  assert (Hclose : sse_close clientId (fst r) = sseClients).
  { unfold sse_close. rewrite Hreg. apply delete_insert_id. exact Hfresh. }
  split; [| split; [| split; [| split; [| split]]]].
  - rewrite Hreg. apply lookup_insert_eq.
  - intros id Hne. rewrite Hreg. apply lookup_insert_ne. congruence.
  - unfold getSSEClientCount. rewrite Hreg. apply map_size_insert_None, Hfresh.
  - subst r. unfold sse_connect, sendSSEMessage. rewrite lookup_insert_eq. reflexivity.
  - exact Hclose.
  - rewrite Hclose. reflexivity.
Qed.

(** X10. The keep-alive timer of a connection stays armed exactly as long as
    its client is registered. While it is, a firing writes one [ping] frame
    with the time to the stream of that client and resets its
    [lastActivity]. Once the client is gone, because its connection was
    closed or because a sweep has evicted it, the next firing clears the
    timer, writes nothing and leaves the registry as it is: a timer never
    registers a client again. *)
Theorem keepalive_timer_lifecycle clientId now (sseClients : gmap string SSEClient) :
  (snd (keepAlive_tick clientId now sseClients) = true <-> is_Some (sseClients !! clientId))
  /\ (forall client,
        sseClients !! clientId = Some client ->
        keepAlive_tick clientId now sseClients
        = (<[clientId := touch now client]> sseClients,
           [Write (response client)
              (sse_message "ping" (JObj [("timestamp", JStr (JSDate.toISOString now))]))],
           true))
  /\ (sseClients !! clientId = None ->
      keepAlive_tick clientId now sseClients = (sseClients, [], false))
  /\ keepAlive_tick clientId now (sse_close clientId sseClients)
     = (sse_close clientId sseClients, [], false)
  /\ (forall maxInactiveMinutes before client,
        sseClients !! clientId = Some client ->
        (maxInactiveMinutes < inactiveMinutes before client)%Q ->
        keepAlive_tick clientId now
          (fst (fst (cleanupInactiveClients maxInactiveMinutes before sseClients)))
        = (fst (fst (cleanupInactiveClients maxInactiveMinutes before sseClients)), [], false)).
Proof.
  assert (Hnone : forall m : gmap string SSEClient,
             m !! clientId = None -> keepAlive_tick clientId now m = (m, [], false)).
  { intros m Hm. unfold keepAlive_tick. rewrite Hm. reflexivity. }
  split; [| split; [| split; [| split]]].
  - unfold keepAlive_tick.
    destruct (sseClients !! clientId) as [client |] eqn:Hc.
    + unfold sendSSEMessage. rewrite Hc. cbn [snd]. split; eauto.
    + cbn [snd]. split; [discriminate | intros [x Hx]; discriminate].
  - intros client Hc. unfold keepAlive_tick, sendSSEMessage. rewrite Hc. reflexivity.
  - apply Hnone.
  - apply Hnone. unfold sse_close. apply lookup_delete_eq.
  - intros maxInactiveMinutes before client Hc Hold. apply Hnone.
    rewrite cleanup_registry. apply map_lookup_filter_None. right.
    intros x Hx Hkeep. rewrite Hc in Hx. injection Hx as <-.
    apply Hkeep. apply is_inactive_iff. exact Hold.
Qed.

(** X11. A second sweep at the same time and with the same threshold finds
    nobody to evict: it ends no stream and leaves the registry as the first
    sweep left it. The registry a sweep leaves holds clients that were
    registered before, unchanged; the clients it keeps and the clients it
    removes add up to the clients there were, and it ends one stream for
    every identifier it removes. *)
Theorem cleanup_is_idempotent maxInactiveMinutes now (sseClients : gmap string SSEClient) :
  let r := cleanupInactiveClients maxInactiveMinutes now sseClients in
  cleanupInactiveClients maxInactiveMinutes now (fst (fst r)) = (fst (fst r), [], [])
  /\ fst (fst r) ⊆ sseClients
  /\ (getSSEClientCount (fst (fst r)) + length (snd r) = getSSEClientCount sseClients)%nat
  /\ length (snd (fst r)) = length (snd r).
Proof.
  intros r.
  pose proof (cleanup_registry maxInactiveMinutes now sseClients) as Hreg.
  destruct (cleanup_effects maxInactiveMinutes now sseClients) as [Heff Hrem].
  fold r in Hreg, Heff, Hrem.
  split; [| split; [| split]].
  - pose proof (cleanup_registry maxInactiveMinutes now (fst (fst r))) as Hreg2.
    destruct (cleanup_effects maxInactiveMinutes now (fst (fst r))) as [Heff2 Hrem2].
    assert (Hnone : filter (fun kc : string * SSEClient =>
                              is_inactive maxInactiveMinutes now (snd kc) = true)
                      (fst (fst r)) = ∅).
    { apply map_empty. intros k. apply map_lookup_filter_None. right.
      intros c Hk Hidle.
      rewrite Hreg in Hk. apply map_lookup_filter_Some in Hk as [_ Hkeep].
      exact (Hkeep Hidle). }
    rewrite Hnone, map_to_list_empty in Heff2, Hrem2.
    apply Permutation_nil_r in Heff2, Hrem2.
    assert (Hsame : fst (fst (cleanupInactiveClients maxInactiveMinutes now (fst (fst r))))
                    = fst (fst r)).
    { rewrite Hreg2. apply map_filter_id. intros k c Hk.
      rewrite Hreg in Hk. apply map_lookup_filter_Some in Hk as [_ Hkeep]. exact Hkeep. }
    destruct (cleanupInactiveClients maxInactiveMinutes now (fst (fst r)))
      as [[reg eff] rem].
    cbn [fst snd] in Heff2, Hrem2, Hsame. subst. reflexivity.
  - rewrite Hreg. apply map_filter_subseteq.
  - unfold getSSEClientCount.
    rewrite Hrem, length_fmap, length_map_to_list, Hreg.
    rewrite <- (map_filter_union_complement
                  (fun kc : string * SSEClient =>
                     is_inactive maxInactiveMinutes now (snd kc) = true) sseClients) at 3.
    rewrite map_size_disj_union by apply map_disjoint_filter_complement.
    lia.
  - rewrite Heff, Hrem, !length_fmap. reflexivity.
Qed.

(** The idle time of the default threshold, in milliseconds: the rounding of
    the two divisions moves no client across it. *)
Lemma default_idle_iff now client :
  is_inactive default_maxInactiveMinutes now client = true
  <-> (1800000 < now - lastActivity client)%Z.
Proof.
  rewrite is_inactive_iff. unfold inactiveMinutes, default_maxInactiveMinutes.
  split.
  - intros H. apply Z.nle_gt. intros Hle. apply (Qlt_not_le _ _ H).
    apply (div_le _ 1800 60); [| reflexivity | | vm_compute; discriminate].
    { split; [reflexivity | vm_compute; reflexivity]. }
    apply (div_le _ 1800000 1000); [| reflexivity | | vm_compute; discriminate].
    { split; [reflexivity | vm_compute; reflexivity]. }
    apply (sub_le now (lastActivity client) 1800000); [| exact Hle].
    split; [reflexivity | vm_compute; reflexivity].
  - intros H. apply Qlt_le_trans with (3932161 # 131072)%Q; [reflexivity |].
    apply (div_ge _ (1843201 # 1024) 60); [| reflexivity | | vm_compute; discriminate].
    { split; [reflexivity | vm_compute; reflexivity]. }
    apply (div_ge _ 1800001 1000); [| reflexivity | | vm_compute; discriminate].
    { split; [reflexivity | vm_compute; reflexivity]. }
    apply (sub_ge now (lastActivity client) 1800001); [| lia].
    split; [reflexivity | vm_compute; reflexivity].
Qed.

(** X12. The sweep with the default threshold of 30 minutes evicts exactly
    the clients whose last write is more than 1800000 milliseconds old: such
    a client is removed and its stream ended; a client written to 1800000
    milliseconds ago or less, one written to exactly that long ago among
    them, stays as it is; and these are all the clients of the registry
    after the sweep. The code decides by the quotient of the milliseconds by
    1000 and by 60 in double arithmetic; at this threshold the rounding of
    the quotients changes nothing. *)
Theorem default_sweep_in_milliseconds now (sseClients : gmap string SSEClient) :
  let r := cleanupInactiveClients default_maxInactiveMinutes now sseClients in
  (forall id client,
     sseClients !! id = Some client ->
     (1800000 < now - lastActivity client)%Z ->
     fst (fst r) !! id = None /\ End (response client) ∈ snd (fst r) /\ id ∈ snd r)
  /\ (forall id client,
        sseClients !! id = Some client ->
        (now - lastActivity client <= 1800000)%Z ->
        fst (fst r) !! id = Some client)
  /\ (forall id client,
        fst (fst r) !! id = Some client ->
        sseClients !! id = Some client /\ (now - lastActivity client <= 1800000)%Z)
  /\ (forall id,
        id ∈ snd r ->
        exists client,
          sseClients !! id = Some client /\ (1800000 < now - lastActivity client)%Z).
Proof.
  intros r.
  pose proof (cleanup_registry default_maxInactiveMinutes now sseClients) as Hreg.
  destruct (cleanup_effects default_maxInactiveMinutes now sseClients) as [Heff Hrem].
  fold r in Hreg, Heff, Hrem.
  split; [| split; [| split]].
  - intros id client Hc Hold. apply default_idle_iff in Hold.
    split; [| split].
    + rewrite Hreg. apply map_lookup_filter_None. right.
      intros c Hc' Hkeep. rewrite Hc in Hc'. injection Hc' as <-. exact (Hkeep Hold).
    + rewrite Heff. apply list_elem_of_fmap. exists (id, client).
      split; [reflexivity |].
      apply elem_of_map_to_list, map_lookup_filter_Some. auto.
    + rewrite Hrem. apply list_elem_of_fmap. exists (id, client).
      split; [reflexivity |].
      apply elem_of_map_to_list, map_lookup_filter_Some. auto.
  - intros id client Hc Hyoung. rewrite Hreg.
    apply map_lookup_filter_Some. split; [exact Hc |].
    cbn [snd]. rewrite default_idle_iff. lia.
  - intros id client Hk. rewrite Hreg in Hk.
    apply map_lookup_filter_Some in Hk as [Hc Hkeep]. split; [exact Hc |].
    cbn [snd] in Hkeep. rewrite default_idle_iff in Hkeep. lia.
  - intros id Hid. rewrite Hrem in Hid.
    apply list_elem_of_fmap in Hid as ([id' client] & -> & Hin).
    apply elem_of_map_to_list, map_lookup_filter_Some in Hin as [Hc Hold].
    exists client. split; [exact Hc |]. apply default_idle_iff, Hold.
Qed.

End Registry.

(** ** Streams that are ended stay silent *)

Section Silence.
Import JSON Transport Traces.
Local Open Scope string_scope.

(** The invariant of a run: the streams of later connections differ, two
    registered clients do not share a stream, no registered client is on a
    stream that a later connection opens, and a stream that was ended is
    neither the stream of a registered client nor one that a later connection
    opens. *)
Abbreviation separated sseClients future dead :=
  (NoDup (future : list nat)
   /\ (forall id1 id2 (c1 c2 : SSEClient),
      sseClients !! id1 = Some c1 -> sseClients !! id2 = Some c2 ->
      response c1 = response c2 -> id1 = id2)
   /\ (forall id (c : SSEClient),
         sseClients !! id = Some c -> (response c ∉ (future : list nat)%list))
   /\ (forall r : nat,
         (r ∈ (dead : list nat)) ->
         (r ∉ (future : list nat)%list)
         /\ forall id (c : SSEClient), sseClients !! id = Some c -> response c <> r)).

Lemma NoDup_fmap_inj_on {A B} (f : A -> B) (l : list A) x y :
  NoDup (f <$> l) -> x ∈ l -> y ∈ l -> f x = f y -> x = y.
Proof.
  induction l as [| a l IH]; [intros _ Hx; inversion Hx |].
  rewrite fmap_cons, NoDup_cons. intros [Ha Hl] Hx Hy Hf.
  apply elem_of_cons in Hx as [-> | Hx]; apply elem_of_cons in Hy as [-> | Hy].
  - reflexivity.
  - exfalso. apply Ha. rewrite Hf. apply list_elem_of_fmap. eauto.
  - exfalso. apply Ha. rewrite <- Hf. apply list_elem_of_fmap. eauto.
  - apply IH; assumption.
Qed.

(** Streams that are pairwise distinct are separated. *)
Lemma distinct_separated (sseClients : gmap string SSEClient) future :
  NoDup (streams sseClients ++ future) -> separated sseClients future (@nil nat).
Proof.
  intros H. apply NoDup_app in H as (Hm & Hdisj & Hfut).
  split; [exact Hfut | split; [| split]].
  - intros id1 id2 c1 c2 H1 H2 Hr.
    assert (E : (id1, c1) = (id2, c2)).
    { apply (NoDup_fmap_inj_on (fun kc : string * SSEClient => response (snd kc))
               (map_to_list sseClients)); [exact Hm | | | exact Hr];
        apply elem_of_map_to_list; assumption. }
    congruence.
  - intros id c Hc. apply Hdisj. unfold streams. apply list_elem_of_fmap.
    exists (id, c). split; [reflexivity | apply elem_of_map_to_list, Hc].
  - intros r Hr. inversion Hr.
Qed.

(** The clients an event leaves in the registry: those that were there, on
    the streams they were on, and the client of a connection it accepts. *)
Lemma step_lookup now ev (sseClients : gmap string SSEClient) id c' :
  step now ev sseClients !! id = Some c' ->
  (exists c, sseClients !! id = Some c /\ response c' = response c)
  \/ ev = EvConnect id (response c').
Proof.
  destruct ev as [id0 res | id0 | id0 | id0 event data | event data | maxMinutes];
    cbn [step].
  - rewrite connect_registry.
    destruct (decide (id = id0)) as [-> | Hne].
    + rewrite lookup_insert_eq. intros H. injection H as <-. right. reflexivity.
    + rewrite lookup_insert_ne by congruence. eauto.
  - unfold sse_close. intros H. apply lookup_delete_Some in H as [_ H]. eauto.
  - rewrite keepAlive_registry.
    destruct (sseClients !! id0) as [c0 |] eqn:H0; [| eauto].
    destruct (decide (id = id0)) as [-> | Hne].
    + rewrite lookup_insert_eq. intros H. injection H as <-. eauto.
    + rewrite lookup_insert_ne by congruence. eauto.
  - rewrite send_registry.
    destruct (sseClients !! id0) as [c0 |] eqn:H0; [| eauto].
    destruct (decide (id = id0)) as [-> | Hne].
    + rewrite lookup_insert_eq. intros H. injection H as <-. eauto.
    + rewrite lookup_insert_ne by congruence. eauto.
  - rewrite (proj1 (broadcast_spec event data now sseClients)), lookup_fmap.
    destruct (sseClients !! id) as [c |]; [| discriminate].
    intros H. injection H as <-. eauto.
  - rewrite cleanup_registry. intros H. apply map_lookup_filter_Some in H as [H _]. eauto.
Qed.

(** The streams an event writes to: those of registered clients, and the
    stream of the connection it accepts. *)
Lemma step_writes now ev (sseClients : gmap string SSEClient) e :
  e ∈ step_effects now ev sseClients ->
  (forall r, e <> End r) ->
  (exists id c, sseClients !! id = Some c /\ response c = stream_of e)
  \/ exists id, ev = EvConnect id (stream_of e).
Proof.
  destruct ev as [id0 res | id0 | id0 | id0 event data | event data | maxMinutes];
    cbn [step_effects]; intros He Hne.
  - right. exists id0.
    unfold sse_connect, sendSSEMessage in He. rewrite lookup_insert_eq in He.
    cbn [snd touch response] in He.
    apply elem_of_cons in He as [-> | He]; [reflexivity |].
    apply list_elem_of_singleton in He as ->. reflexivity.
  - inversion He.
  - unfold keepAlive_tick, sendSSEMessage in He.
    destruct (sseClients !! id0) as [c0 |] eqn:H0; [| inversion He].
    apply list_elem_of_singleton in He as ->. left. eauto.
  - unfold sendSSEMessage in He.
    destruct (sseClients !! id0) as [c0 |] eqn:H0; [| inversion He].
    apply list_elem_of_singleton in He as ->. left. eauto.
  - rewrite (proj2 (broadcast_spec event data now sseClients)) in He.
    apply list_elem_of_fmap in He as ([id c] & -> & Hin).
    apply elem_of_map_to_list in Hin. left. eauto.
  - exfalso.
    rewrite (proj1 (cleanup_effects maxMinutes now sseClients)) in He.
    apply list_elem_of_fmap in He as ([id c] & -> & _). exact (Hne _ eq_refl).
Qed.

(** The streams an event ends: those of the idle clients a sweep removes. *)
Lemma step_ends now ev (sseClients : gmap string SSEClient) r :
  End r ∈ step_effects now ev sseClients ->
  exists maxInactiveMinutes id c,
    ev = EvCleanup maxInactiveMinutes
    /\ sseClients !! id = Some c
    /\ response c = r
    /\ is_inactive maxInactiveMinutes now c = true.
Proof.
  destruct ev as [id0 res | id0 | id0 | id0 event data | event data | maxMinutes];
    cbn [step_effects]; intros He.
  - exfalso.
    unfold sse_connect, sendSSEMessage in He. rewrite lookup_insert_eq in He.
    cbn [snd] in He.
    apply elem_of_cons in He as [He | He]; [discriminate |].
    apply list_elem_of_singleton in He. discriminate.
  - inversion He.
  - exfalso. unfold keepAlive_tick, sendSSEMessage in He.
    destruct (sseClients !! id0) as [c0 |]; [| inversion He].
    apply list_elem_of_singleton in He. discriminate.
  - exfalso. unfold sendSSEMessage in He.
    destruct (sseClients !! id0) as [c0 |]; [| inversion He].
    apply list_elem_of_singleton in He. discriminate.
  - exfalso. rewrite (proj2 (broadcast_spec event data now sseClients)) in He.
    apply list_elem_of_fmap in He as ([id c] & He & _). discriminate.
  - rewrite (proj1 (cleanup_effects maxMinutes now sseClients)) in He.
    apply list_elem_of_fmap in He as ([id c] & He & Hin). injection He as ->.
    apply elem_of_map_to_list, map_lookup_filter_Some in Hin as [Hc Hidle].
    exists maxMinutes, id, c. auto.
Qed.

(** The streams of the connections accepted after the first event of a run
    are among those of the whole run, and differ from the stream of a
    connection the first event accepts. *)
Lemma opened_rest now ev rest r :
  r ∈ opened rest -> r ∈ opened ((now, ev) :: rest).
Proof.
  destruct ev; cbn [opened]; auto. intros H. apply elem_of_cons. auto.
Qed.

Lemma opened_NoDup now ev rest :
  NoDup (opened ((now, ev) :: rest)) -> NoDup (opened rest).
Proof.
  destruct ev; cbn [opened]; auto. rewrite NoDup_cons. intros [_ H]. exact H.
Qed.

Lemma opened_connect now id res rest :
  NoDup (opened ((now, EvConnect id res) :: rest)) ->
  (res ∉ opened rest) /\ res ∈ opened ((now, EvConnect id res) :: rest).
Proof.
  cbn [opened]. rewrite NoDup_cons. intros [H _]. split; [exact H | apply elem_of_cons; auto].
Qed.

(** An event keeps the invariant, the streams it ends being dead from then
    on. *)
Lemma step_separated now ev rest (sseClients : gmap string SSEClient) dead dead' :
  separated sseClients (opened ((now, ev) :: rest)) dead ->
  (forall r, r ∈ dead' -> r ∈ dead \/ End r ∈ step_effects now ev sseClients) ->
  separated (step now ev sseClients) (opened rest) dead'.
Proof.
  intros (Hfut & Hinj & Hfresh & Hdead) Hd'.
  split; [exact (opened_NoDup _ _ _ Hfut) | split; [| split]].
  - intros id1 id2 c1 c2 H1 H2 Hr.
    destruct (step_lookup _ _ _ _ _ H1) as [(c1' & H1' & R1) | E1];
      destruct (step_lookup _ _ _ _ _ H2) as [(c2' & H2' & R2) | E2].
    + apply (Hinj id1 id2 c1' c2' H1' H2'). congruence.
    + exfalso. apply (Hfresh id1 c1' H1'). subst ev.
      rewrite <- R1, Hr. apply (opened_connect _ _ _ _ Hfut).
    + exfalso. apply (Hfresh id2 c2' H2'). subst ev.
      rewrite <- R2, <- Hr. apply (opened_connect _ _ _ _ Hfut).
    + congruence.
  - intros id c Hc Hin.
    destruct (step_lookup _ _ _ _ _ Hc) as [(c' & Hc' & R) | E].
    + apply (Hfresh id c' Hc'). rewrite <- R. apply opened_rest, Hin.
    + subst ev. exact (proj1 (opened_connect _ _ _ _ Hfut) Hin).
  - intros r Hr. destruct (Hd' r Hr) as [Hold | Hend].
    + destruct (Hdead r Hold) as [Hnf Hnm]. split.
      * intros Hin. apply Hnf, opened_rest, Hin.
      * intros id c Hc.
        destruct (step_lookup _ _ _ _ _ Hc) as [(c' & Hc' & R) | E].
        -- rewrite R. exact (Hnm id c' Hc').
        -- subst ev. intros <-. apply Hnf. apply (opened_connect _ _ _ _ Hfut).
    + destruct (step_ends _ _ _ _ Hend) as (maxMinutes & id0 & c0 & -> & Hc0 & <- & Hidle).
      split.
      * intros Hin. apply (Hfresh id0 c0 Hc0), opened_rest, Hin.
      * intros id c Hc Hr'. cbn [step] in Hc. rewrite cleanup_registry in Hc.
        apply map_lookup_filter_Some in Hc as [Hc Hkeep].
        assert (id = id0) by exact (Hinj id id0 c c0 Hc Hc0 Hr'). subst id.
        apply Hkeep. cbn [snd]. congruence.
Qed.

(** No event of a run has an effect on a dead stream. *)
Lemma run_spares_dead events :
  forall (sseClients : gmap string SSEClient) dead,
    separated sseClients (opened events) dead ->
    forall j effects e,
      run_effects events sseClients !! j = Some effects ->
      e ∈ effects -> stream_of e ∉ dead.
Proof.
  induction events as [| [now ev] rest IH]; intros sseClients dead Hsep j effects e Hj He Hin.
  - discriminate.
  - destruct j as [| j]; cbn [run_effects] in Hj.
    + injection Hj as <-. destruct Hsep as (Hfut & Hinj & Hfresh & Hdead).
      destruct (Hdead _ Hin) as [Hnf Hnm].
      destruct e as [r | r chunk | r].
      * destruct (step_writes _ _ _ _ He) as [(id & c & Hc & Hr) | [id ->]];
          [discriminate | exact (Hnm id c Hc Hr) |].
        apply Hnf. apply (opened_connect _ _ _ _ Hfut).
      * destruct (step_writes _ _ _ _ He) as [(id & c & Hc & Hr) | [id ->]];
          [discriminate | exact (Hnm id c Hc Hr) |].
        apply Hnf. apply (opened_connect _ _ _ _ Hfut).
      * destruct (step_ends _ _ _ _ He) as (maxMinutes & id & c & _ & Hc & Hr & _).
        exact (Hnm id c Hc Hr).
    + apply (IH (step now ev sseClients) dead) with (j := j) (effects := effects) (e := e);
        auto.
      apply (step_separated now ev rest sseClients dead dead Hsep). auto.
Qed.

(** The streams a sweep ends are ended once. *)
Lemma cleanup_ends_once maxInactiveMinutes now (sseClients : gmap string SSEClient) :
  (forall id1 id2 (c1 c2 : SSEClient),
     sseClients !! id1 = Some c1 -> sseClients !! id2 = Some c2 ->
     response c1 = response c2 -> id1 = id2) ->
  NoDup (snd (fst (cleanupInactiveClients maxInactiveMinutes now sseClients))).
Proof.
  intros Hinj. rewrite (proj1 (cleanup_effects maxInactiveMinutes now sseClients)).
  apply NoDup_fmap_2_strong; [| apply NoDup_map_to_list].
  intros [id1 c1] [id2 c2] H1 H2 Hr. injection Hr as Hr.
  apply elem_of_map_to_list, map_lookup_filter_Some in H1 as [H1 _].
  apply elem_of_map_to_list, map_lookup_filter_Some in H2 as [H2 _].
  assert (id1 = id2) by exact (Hinj id1 id2 c1 c2 H1 H2 Hr). subst id2.
  congruence.
Qed.

Lemma run_silent events :
  forall (sseClients : gmap string SSEClient) dead,
    separated sseClients (opened events) dead ->
    forall i j ended later r e,
      run_effects events sseClients !! i = Some ended ->
      run_effects events sseClients !! j = Some later ->
      End r ∈ ended -> (i <= j)%nat -> e ∈ later -> stream_of e = r ->
      e = End r /\ i = j /\ NoDup ended.
Proof.
  induction events as [| [now ev] rest IH];
    intros sseClients dead Hsep i j ended later r e Hi Hj Hend Hle He Hr.
  - discriminate.
  - destruct i as [| i]; destruct j as [| j]; cbn [run_effects] in Hi, Hj.
    + injection Hi as <-. injection Hj as <-.
      destruct (step_ends _ _ _ _ Hend) as (maxMinutes & id & c & -> & Hc & _ & _).
      cbn [step_effects] in He |- *. split; [| split; [reflexivity |]].
      * rewrite (proj1 (cleanup_effects maxMinutes now sseClients)) in He.
        apply list_elem_of_fmap in He as ([id' c'] & -> & _).
        cbn [stream_of] in Hr. rewrite Hr. reflexivity.
      * apply cleanup_ends_once. apply Hsep.
    + exfalso. injection Hi as <-.
      assert (Hsep' : separated (step now ev sseClients) (opened rest) (r :: dead)).
      { apply (step_separated now ev rest sseClients dead (r :: dead) Hsep).
        intros r' Hr'. apply elem_of_cons in Hr' as [-> | Hr']; auto. }
      apply (run_spares_dead rest _ _ Hsep' j later e Hj He).
      rewrite Hr. apply elem_of_cons. auto.
    + lia.
    + assert (Hsep' : separated (step now ev sseClients) (opened rest) dead).
      { apply (step_separated now ev rest sseClients dead dead Hsep). auto. }
      destruct (IH _ _ Hsep' i j ended later r e Hi Hj Hend ltac:(lia) He Hr)
        as (H1 & H2 & H3).
      auto.
Qed.

(** X13. In a run of connections, disconnections, keep-alive firings,
    messages, broadcasts and sweeps in which every connection has a response
    stream of its own, a stream that a sweep has ended is left alone from
    then on: no later event writes to it, writes a head to it or ends it
    again, and the sweep that ends it ends it once and does nothing else to
    it. *)
Theorem ended_streams_stay_silent events (sseClients : gmap string SSEClient) :
  NoDup (streams sseClients ++ opened events) ->
  forall i j ended later r e,
    run_effects events sseClients !! i = Some ended ->
    run_effects events sseClients !! j = Some later ->
    End r ∈ ended -> (i <= j)%nat -> e ∈ later -> stream_of e = r ->
    e = End r /\ i = j /\ NoDup ended.
Proof.
  intros Hdistinct. apply (run_silent events sseClients []).
  apply distinct_separated, Hdistinct.
Qed.

End Silence.

(** ** The application as a whole *)

Section Application.
Import JSON Protocol MCPServer Transport HTTPTransport.
Local Open Scope string_scope.

Variable config : Config.
Variable requestHandler : option RequestHandler.

(** The branches of [handle]. *)
Ltac handle_cases req server :=
  unfold handle;
  destruct (read_json (req_json req)) as [err | req_body] eqn:Hbody;
  [| destruct (String.eqb_spec (req_method req) "OPTIONS") as [Hopt | Hopt];
     [| destruct (handles_get (req_method req) && route_matches "/health" (req_path req))
          eqn:Hhealth;
        [| destruct (String.eqb (req_method req) "POST"
                     && route_matches "/mcp" (req_path req)) eqn:Hmcp;
           [destruct (mcp_route requestHandler req_body (session server))
              as [[r | failure] st] eqn:Hroute
           | destruct (handles_get (req_method req) && route_matches "/sse" (req_path req))
               eqn:Hsse;
             [destruct (sse_connect _ _ _ (sseClients server)) as [clients effects] eqn:Hconn
             |]]]]];
  cbn [fst snd res_status res_headers res_content session sseClients].

(** X14. The application answers a request with the status 200, 404 or 500
    and with no other, or it does not answer at all. It answers 404 exactly
    when the body could be read, the method is not OPTIONS and the method and
    path are those of none of the three routes (GET or HEAD [/health], POST
    [/mcp], GET or HEAD [/sse], the path compared without regard to case and
    with or without a final slash); the answer then names the path that was
    asked for. It answers 500 exactly when the body could not be read: the
    500 is that of the error-handling middleware and no route ever sends it.
    It leaves the request without an answer exactly when the request is a
    [POST /mcp] with a readable body whose handling throws. *)
Theorem application_status_codes clientId stream now req server :
  let r := fst (fst (handle config requestHandler clientId stream now req server)) in
  (res_status r = 200 \/ res_status r = 404 \/ res_status r = 500)
  /\ (res_status r = 404
      <-> (exists req_body, read_json (req_json req) = BodyReady req_body)
          /\ req_method req <> "OPTIONS"
          /\ handles_get (req_method req) && route_matches "/health" (req_path req) = false
          /\ String.eqb (req_method req) "POST" && route_matches "/mcp" (req_path req) = false
          /\ handles_get (req_method req) && route_matches "/sse" (req_path req) = false)
  /\ (res_status r = 404 ->
      res_content r = JsonContent (JObj [("error", JStr "Not found");
                                         ("path", JStr (req_path req))]))
  /\ (res_status r = 500 <-> exists err, read_json (req_json req) = BodyError err)
  /\ (res_content r = Pending
      <-> exists req_body e st',
            read_json (req_json req) = BodyReady req_body
            /\ req_method req <> "OPTIONS"
            /\ handles_get (req_method req) && route_matches "/health" (req_path req) = false
            /\ String.eqb (req_method req) "POST" && route_matches "/mcp" (req_path req) = true
            /\ mcp_try requestHandler req_body (session server) = (Throw e, st')).
Proof.
  handle_cases req server.
  - split; [auto |]. split; [| split; [discriminate |]].
    + split; [discriminate | intros [[b Hb] _]; discriminate].
    + split; [split; [eauto | intros _; reflexivity] |].
      split; [discriminate | intros (b & e & st' & H & _); discriminate].
  - split; [auto |]. split; [| split; [discriminate |]].
    + split; [discriminate | intros (_ & H & _); contradiction].
    + split; [split; [discriminate | intros [e He]; discriminate] |].
      split; [discriminate | intros (b & e & st' & _ & H & _); contradiction].
  - split; [auto |]. split; [| split; [discriminate |]].
    + split; [discriminate | intros (_ & _ & H & _); discriminate].
    + split; [split; [discriminate | intros [e He]; discriminate] |].
      split; [discriminate | intros (b & e & st' & _ & _ & H & _); discriminate].
  - pose proof (mcp_route_status requestHandler req_body (session server) r) as Hs.
    rewrite Hroute in Hs. specialize (Hs eq_refl). rewrite Hs.
    split; [auto |]. split; [| split; [discriminate |]].
    + split; [discriminate | intros (_ & _ & _ & H & _); discriminate].
    + split; [split; [discriminate | intros [e He]; discriminate] |].
      split; [discriminate |].
      intros (b & e & st' & Hb & _ & _ & _ & Ht).
      injection Hb as <-. rewrite mcp_route_eq, Ht in Hroute. discriminate.
  - split; [auto |]. split; [| split; [discriminate |]].
    + split; [discriminate | intros (_ & _ & _ & H & _); discriminate].
    + split; [split; [discriminate | intros [e He]; discriminate] |].
      split; [intros _ | reflexivity].
      rewrite mcp_route_eq in Hroute.
      destruct (mcp_try requestHandler req_body (session server)) as [[resp | e] st'] eqn:Ht;
        [discriminate |].
      exists req_body, e, st'. auto.
  - split; [auto |]. split; [| split; [discriminate |]].
    + split; [discriminate | intros (_ & _ & _ & _ & H); discriminate].
    + split; [split; [discriminate | intros [e He]; discriminate] |].
      split; [discriminate | intros (b & e & st' & _ & _ & _ & H & _); discriminate].
  - split; [auto |]. split; [| split; [reflexivity |]].
    + split; [| reflexivity]. intros _. eauto 6.
    + split; [split; [discriminate | intros [e He]; discriminate] |].
      split; [discriminate | intros (b & e & st' & _ & _ & _ & H & _); discriminate].
Qed.

(** X15. Every response carries the three headers of the CORS middleware,
    [Access-Control-Allow-Origin] being [*], except the answer to a body that
    could not be read, because it is not JSON or is longer than 100kb:
    [express.json] runs before the CORS middleware and its error goes straight
    to the error-handling middleware, whose 500 answer has none of them. *)
Theorem cors_headers_unless_body_error clientId stream now req server :
  let r := fst (fst (handle config requestHandler clientId stream now req server)) in
  ((exists req_body, read_json (req_json req) = BodyReady req_body) ->
   header_get "Access-Control-Allow-Origin" (res_headers r) = Some "*"
   /\ header_get "Access-Control-Allow-Methods" (res_headers r) = Some "GET, POST, OPTIONS"
   /\ header_get "Access-Control-Allow-Headers" (res_headers r)
      = Some "Content-Type, Authorization")
  /\ ((exists err, read_json (req_json req) = BodyError err) ->
      res_headers r = [] /\ res_status r = 500).
Proof.
  handle_cases req server;
    (split; [intros [b Hb]; try discriminate; repeat split; reflexivity
            | intros [e He]; try discriminate; split; reflexivity]).
Qed.

(** X16. Only [POST /mcp] can change the session, and only a GET or HEAD of
    [/sse] can change the registry of streaming clients or touch a stream;
    every other request, [/health] and an unknown path among them, leaves the
    server as it is. An OPTIONS request never reaches a route, whatever its
    path: it changes nothing and touches no stream. *)
Theorem only_routes_change_state clientId stream now req server :
  let r := handle config requestHandler clientId stream now req server in
  (session (snd (fst r)) <> session server ->
   req_method req = "POST" /\ route_matches "/mcp" (req_path req) = true)
  /\ (sseClients (snd (fst r)) <> sseClients server \/ snd r <> [] ->
      handles_get (req_method req) = true /\ route_matches "/sse" (req_path req) = true)
  /\ (req_method req = "OPTIONS" -> snd (fst r) = server /\ snd r = []).
Proof.
  handle_cases req server.
  - split; [congruence |]. split; [intros [H | H]; congruence | auto].
  - split; [congruence |]. split; [intros [H | H]; congruence | auto].
  - split; [congruence |]. split; [intros [H | H]; congruence | contradiction].
  - apply andb_true_iff in Hmcp as [Hm Hp]. apply String.eqb_eq in Hm.
    split; [auto |]. split; [intros [H | H]; congruence | contradiction].
  - apply andb_true_iff in Hmcp as [Hm Hp]. apply String.eqb_eq in Hm.
    split; [auto |]. split; [intros [H | H]; congruence | contradiction].
  - apply andb_true_iff in Hsse as [Hm Hp].
    split; [congruence |]. split; [auto | contradiction].
  - split; [congruence |]. split; [intros [H | H]; congruence | contradiction].
Qed.

(** X24. The health check is answered in every state of the server, before
    the session is initialized and without a handler installed: a GET or HEAD
    of [/health], in any case of letters and with or without a final slash,
    whose body, if it has one, could be read, gets 200 with the CORS headers
    and the object of the status [healthy], the configured name and version
    and the time as an ISO 8601 timestamp; it changes nothing and touches no
    stream. *)
Theorem health_always_answers clientId stream now req server :
  handles_get (req_method req) = true ->
  route_matches "/health" (req_path req) = true ->
  (exists req_body, read_json (req_json req) = BodyReady req_body) ->
  handle config requestHandler clientId stream now req server
  = ({| res_status := 200;
        res_headers := cors_headers;
        res_content :=
          JsonContent (JObj [("status", JStr "healthy");
                             ("name", JStr (serverName config));
                             ("version", JStr (version config));
                             ("timestamp", JStr (JSDate.toISOString now))]) |},
     server, [])
  /\ JSDate.is_iso_timestamp (JSDate.toISOString now) = true.
Proof.
  intros Hget Hpath [req_body Hbody].
  split; [| apply toISOString_well_formed].
  unfold handle. rewrite Hbody, Hget, Hpath.
  destruct (String.eqb_spec (req_method req) "OPTIONS") as [Hopt | _]; [| reflexivity].
  rewrite Hopt in Hget. discriminate.
Qed.

End Application.

(** ** From the text of a request to its answer *)

Section EndToEnd.
Import JSON Zod Protocol MCPServer Transport.
Local Open Scope string_scope.

(** A text that is JSON for an object passes the strict mode of
    [express.json()]. *)
Lemma object_text_is_strict text props :
  JSON_parse text = Some (JObj props) ->
  strict_first_char text = true /\ (String.length text =? 0)%nat = false.
Proof.
  unfold JSON_parse, strict_first_char.
  destruct (parse_value (S (String.length text)) text) as [[v rest] |] eqn:Hv;
    [| discriminate].
  intros H. assert (v = JObj props) as -> by (destruct (skip_ws rest); congruence).
  clear H. cbn [parse_value] in Hv.
  destruct text as [| c0 text0]; [discriminate |]. split; [| reflexivity].
  destruct (skip_ws (String c0 text0)) as [| c r]; [discriminate |].
  destruct (Ascii.eqb c "{"); [reflexivity |].
  destruct (Ascii.eqb c "["); [reflexivity |]. exfalso.
  destruct (Ascii.eqb c dquote).
  { destruct (parse_string_body r) as [[str r'] |]; discriminate. }
  unfold JSON.parse_literal in Hv.
  destruct (Ascii.eqb c "t"); [destruct (strip_prefix "rue" r); discriminate |].
  destruct (Ascii.eqb c "f"); [destruct (strip_prefix "alse" r); discriminate |].
  destruct (Ascii.eqb c "n"); [destruct (strip_prefix "ull" r); discriminate |].
  destruct (parse_number (String c r)) as [[n r'] |]; discriminate.
Qed.

(** The params that reach the handler for the [params] of a body: each value
    as [JSON.parse] reads it back from the text [JSON.stringify] writes (a
    number that is not finite reads back as null), without a member
    [__proto__]. *)
Abbreviation params_received p :=
  (option_map (fun o => without_proto (map (fun kx => (fst kx, reread (snd kx))) o)) p).

(** The request [parseMessage] reads from the text [JSON.stringify] writes
    for a body. *)
Lemma parseMessage_stringify props rid m p :
  wf_value (JObj props) ->
  obj_get "jsonrpc" props = Some (JStr "2.0") ->
  obj_get "id" props = Some (id_to_js rid) ->
  finite_id rid = true ->
  obj_get "method" props = Some (JStr m) ->
  obj_get "params" props = option_map JObj p ->
  parseMessage (JSON_stringify (JObj props))
  = Return {| id := rid; method := m; params := params_received p |}.
Proof.
  intros Hwf Hj Hi Hfin Hm Hp. unfold parseMessage.
  rewrite (JSON_parse_stringify _ Hwf). cbn [reread].
  rewrite (parse_base_request _
             {| id := rid; method := m; params := params_received p |}).
  - rewrite request_of_js_request. reflexivity.
  - rewrite obj_get_reread, Hj. reflexivity.
  - rewrite obj_get_reread, Hi. cbn [option_map id].
    rewrite (reread_finite_id _ Hfin). reflexivity.
  - rewrite obj_get_reread, Hm. reflexivity.
  - rewrite obj_get_reread, Hp. cbn [params]. destruct p as [o |]; cbn [option_map reread].
    + right. eexists. split; reflexivity.
    + left. split; reflexivity.
Qed.

(** The route on the text of a request. *)
Lemma post_mcp_request requestHandler text props rid m p st :
  JSON_parse text = Some (JObj props) ->
  obj_get "jsonrpc" props = Some (JStr "2.0") ->
  obj_get "id" props = Some (id_to_js rid) ->
  finite_id rid = true ->
  obj_get "method" props = Some (JStr m) ->
  obj_get "params" props = option_map JObj p ->
  post_mcp requestHandler (Some text) st
  = match requestHandler with
    | None => (Throw (ReferenceError "requestId"), st)
    | Some handler =>
        match handler {| id := rid; method := m; params := params_received p |} st with
        | (Return r, st') =>
            (Return {| status := 200;
                       body := JObj [("jsonrpc", JStr "2.0"); ("id", id_to_js rid);
                                     ("result", r)] |},
             st')
        | (Throw e, st') => (Throw (ReferenceError "requestId"), st')
        end
    end.
Proof.
  intros Hraw Hj Hi Hfin Hm Hp.
  destruct (object_text_is_strict _ _ Hraw) as [Hstrict Hlen].
  unfold post_mcp, express_json. rewrite Hlen, Hstrict, Hraw.
  rewrite mcp_route_eq, mcp_try_truthy by reflexivity.
  rewrite (parseMessage_stringify props rid m p (JSON_parse_wf _ _ Hraw) Hj Hi Hfin Hm Hp).
  destruct requestHandler as [handler |]; [| reflexivity].
  destruct (handler _ st) as [[r | e] st']; reflexivity.
Qed.

(** X17. The route of [POST /mcp] serves the request its body stands for: for
    a text within the size limit that is JSON for an object with the [jsonrpc]
    of 2.0, a string or a finite number as [id], a string [method] and with
    [params] absent or an object, the installed handler is run once on the
    request with that id, that method and those params; of the params, a
    number beyond the range of a double arrives as null and a member
    [__proto__] does not arrive. When the handler returns, the answer is 200
    with the envelope of the id and the result. When it throws, whatever the
    error, the route ends with the [ReferenceError] of its [catch] block: no
    answer is sent, and the state is as the handler left it. *)
Theorem route_serves_request handler text props rid m p st :
  Z.of_nat (String.length text) <= HTTPTransport.body_limit ->
  JSON_parse text = Some (JObj props) ->
  obj_get "jsonrpc" props = Some (JStr "2.0") ->
  obj_get "id" props = Some (id_to_js rid) ->
  finite_id rid = true ->
  obj_get "method" props = Some (JStr m) ->
  obj_get "params" props = option_map JObj p ->
  post_mcp (Some handler) (Some text) st
  = match handler
            {| id := rid; method := m;
               params := option_map
                           (fun o => without_proto
                                       (map (fun kx => (fst kx, reread (snd kx))) o)) p |}
            st with
    | (Return r, st') =>
        (Return {| status := 200;
                   body := JObj [("jsonrpc", JStr "2.0"); ("id", id_to_js rid);
                                 ("result", r)] |},
         st')
    | (Throw e, st') =>
        (Throw (new_Error "Cannot access 'requestId' before initialization"), st')
    end.
Proof.
  intros _ Hraw Hj Hi Hfin Hm Hp.
  rewrite (post_mcp_request (Some handler) text props rid m p st Hraw Hj Hi Hfin Hm Hp).
  destruct (handler _ st) as [[r | e] st']; reflexivity.
Qed.

(** X18. Until [setRequestHandler] has installed a handler, [POST /mcp]
    leaves the session as it is and sends nothing but the 500 of the
    error-handling middleware, for a body that could not be read. Every body
    that could be read goes unanswered: the route throws and its [catch]
    block throws in its turn. For a request that is well formed and within
    the size limit the error that goes unreported is
    [Request handler not configured]. *)
Theorem route_without_handler :
  (forall raw st, snd (post_mcp None raw st) = st)
  /\ (forall raw st resp,
        fst (post_mcp None raw st) = Return resp ->
        status resp = 500 /\ exists err, express_json raw = BodyError err)
  /\ (forall raw st req_body,
        express_json raw = BodyReady req_body ->
        fst (post_mcp None raw st)
        = Throw (new_Error "Cannot access 'requestId' before initialization"))
  /\ (forall text props rid m p st,
        Z.of_nat (String.length text) <= HTTPTransport.body_limit ->
        JSON_parse text = Some (JObj props) ->
        obj_get "jsonrpc" props = Some (JStr "2.0") ->
        obj_get "id" props = Some (id_to_js rid) ->
        finite_id rid = true ->
        obj_get "method" props = Some (JStr m) ->
        obj_get "params" props = option_map JObj p ->
        express_json (Some text) = BodyReady (Some (JObj props))
        /\ mcp_try None (Some (JObj props)) st
           = (Throw (new_Error "Request handler not configured"), st)).
Proof.
  assert (H : forall req_body st, exists e, mcp_try None req_body st = (Throw e, st)).
  { intros req_body st. destruct req_body as [b |]; [| eexists; reflexivity].
    destruct (truthy b) eqn:Hb.
    - rewrite mcp_try_truthy by exact Hb.
      destruct (parseMessage (JSON_stringify b)); eexists; reflexivity.
    - rewrite mcp_try_falsy by exact Hb. eexists; reflexivity. }
  split; [| split; [| split]].
  - intros raw st. unfold post_mcp.
    destruct (express_json raw) as [err | req_body]; [reflexivity |].
    rewrite mcp_route_eq. destruct (H req_body st) as [e ->]. reflexivity.
  - intros raw st resp. unfold post_mcp.
    destruct (express_json raw) as [err | req_body].
    + cbn [fst]. intros E. injection E as <-. split; [reflexivity | eauto].
    + rewrite mcp_route_eq. destruct (H req_body st) as [e ->]. discriminate.
  - intros raw st req_body Hb. unfold post_mcp. rewrite Hb, mcp_route_eq.
    destruct (H req_body st) as [e ->]. reflexivity.
  - intros text props rid m p st _ Hraw Hj Hi Hfin Hm Hp.
    destruct (object_text_is_strict _ _ Hraw) as [Hstrict Hlen].
    split; [unfold express_json; rewrite Hlen, Hstrict, Hraw; reflexivity |].
    rewrite mcp_try_truthy by reflexivity.
    rewrite (parseMessage_stringify props rid m p (JSON_parse_wf _ _ Hraw) Hj Hi Hfin Hm Hp).
    reflexivity.
Qed.

(** The schema of tools/list accepts every request of that method. *)
Lemma validate_tools_list request :
  method request = "tools/list" ->
  exists v, validateRequest request toolsListRequestSchema = Return v.
Proof.
  intros Hm. unfold_validation toolsListRequestSchema_eq.
  rewrite Hm. change (String.eqb "tools/list" "tools/list") with true. cbv iota.
  destruct (params request) as [p |]; cbn [option_map Zod.parse parse_fields]; eauto.
Qed.

(** X19. The session over HTTP, with the handler the server installs. A
    well-formed tools/list request within the size limit is answered 200 with
    the empty list of tools and the id of the request once the session is
    initialized; as long as it is not, the request gets no answer at all: the
    error of [ensureInitialized] sends the route to its [catch] block, which
    throws. In both cases the session stays as it is. A well-formed initialize
    request that is answered leaves the session initialized, so that every
    tools/list request after it is served. *)
Theorem tools_list_over_http config now text props rid p st :
  Z.of_nat (String.length text) <= HTTPTransport.body_limit ->
  JSON_parse text = Some (JObj props) ->
  obj_get "jsonrpc" props = Some (JStr "2.0") ->
  obj_get "id" props = Some (id_to_js rid) ->
  finite_id rid = true ->
  obj_get "method" props = Some (JStr "tools/list") ->
  obj_get "params" props = option_map JObj p ->
  post_mcp (Some (handleRequest config now)) (Some text) st
  = (if initialized st
     then Return {| status := 200;
                    body := JObj [("jsonrpc", JStr "2.0"); ("id", id_to_js rid);
                                  ("result", JObj [("tools", JArr [])])] |}
     else Throw (new_Error "Cannot access 'requestId' before initialization"),
     st)
  /\ (initialized st = false ->
      mcp_try (Some (handleRequest config now)) (Some (JObj props)) st
      = (Throw (MCPServer.createError INVALID_REQUEST
                  "Server not initialized. Call initialize first."), st))
  /\ (forall before init_text init_props init_id init_params st0 resp,
        Z.of_nat (String.length init_text) <= HTTPTransport.body_limit ->
        JSON_parse init_text = Some (JObj init_props) ->
        obj_get "jsonrpc" init_props = Some (JStr "2.0") ->
        obj_get "id" init_props = Some (id_to_js init_id) ->
        finite_id init_id = true ->
        obj_get "method" init_props = Some (JStr "initialize") ->
        obj_get "params" init_props = option_map JObj init_params ->
        post_mcp (Some (handleRequest config before)) (Some init_text) st0
        = (Return resp, st) ->
        initialized st = true).
Proof.
  intros _ Hraw Hj Hi Hfin Hm Hp. split; [| split].
  - rewrite (post_mcp_request _ text props rid "tools/list" p st Hraw Hj Hi Hfin Hm Hp).
    rewrite handleRequest_tools_list by reflexivity.
    rewrite handleToolsList_eq.
    destruct (initialized st); [| reflexivity].
    destruct (validate_tools_list
                {| id := rid; method := "tools/list"; params := params_received p |}
                eq_refl) as [v ->].
    reflexivity.
  - intros Hinit. rewrite mcp_try_truthy by reflexivity.
    rewrite (parseMessage_stringify props rid "tools/list" p
               (JSON_parse_wf _ _ Hraw) Hj Hi Hfin Hm Hp).
    rewrite handleRequest_tools_list by reflexivity.
    rewrite handleToolsList_eq, Hinit. reflexivity.
  - intros before init_text init_props init_id init_params st0 resp
      _ Hraw' Hj' Hi' Hfin' Hm' Hp'.
    rewrite (post_mcp_request _ init_text init_props init_id "initialize" init_params st0
               Hraw' Hj' Hi' Hfin' Hm' Hp').
    rewrite handleRequest_initialize by reflexivity.
    rewrite handleInitialize_eq.
    destruct (validateRequest _ initializeRequestSchema) as [v | e];
      intros H; [injection H as <- <-; reflexivity | discriminate].
Qed.

End EndToEnd.

(** ** The configuration the server starts with *)

Section Startup.
Import JSON Configuration.
Local Open Scope string_scope.

Variable URL_ok : string -> bool.

Lemma z_enum_In values s : z_enum values s = true <-> In s values.
Proof.
  unfold z_enum. rewrite existsb_exists. split.
  - intros (x & Hin & Heq). apply String.eqb_eq in Heq. subst. exact Hin.
  - intros Hin. exists s. split; [exact Hin | apply String.eqb_refl].
Qed.

(** The text of a positive integer starts with a digit: [parseInt] skips
    nothing and reads its digits, whatever follows them. *)
Lemma trim_start_digit d s :
  0 <= d < 10 -> trim_start (String (digit_char d) s) = String (digit_char d) s.
Proof.
  intros Hd. cbn [trim_start]. unfold digit_char.
  rewrite code_char_of_code by lia.
  replace (48 + d =? 9)%Z with false by (symmetry; apply Z.eqb_neq; lia).
  replace (48 + d =? 10)%Z with false by (symmetry; apply Z.eqb_neq; lia).
  replace (48 + d =? 11)%Z with false by (symmetry; apply Z.eqb_neq; lia).
  replace (48 + d =? 12)%Z with false by (symmetry; apply Z.eqb_neq; lia).
  replace (48 + d =? 13)%Z with false by (symmetry; apply Z.eqb_neq; lia).
  replace (48 + d =? 32)%Z with false by (symmetry; apply Z.eqb_neq; lia).
  replace (48 + d =? 194)%Z with false by (symmetry; apply Z.eqb_neq; lia).
  cbn [orb andb].
  destruct s as [| b [| c s3]]; try reflexivity.
  unfold is_space3.
  replace (48 + d =? 225)%Z with false by (symmetry; apply Z.eqb_neq; lia).
  replace (48 + d =? 226)%Z with false by (symmetry; apply Z.eqb_neq; lia).
  replace (48 + d =? 227)%Z with false by (symmetry; apply Z.eqb_neq; lia).
  replace (48 + d =? 239)%Z with false by (symmetry; apply Z.eqb_neq; lia).
  reflexivity.
Qed.

Lemma parseInt_decimal n rest :
  0 < n -> not_digit_start rest ->
  parseInt (digits_string (Z_digits n) +:+ rest) = Some n.
Proof.
  intros Hn Hrest.
  destruct (Z_digits_spec n ltac:(lia)) as (Hds & Hval & _ & Hhead).
  destruct (Hhead Hn) as (d & ds & Hd & Hnz).
  assert (Hd10 : 0 <= d < 10) by (rewrite Hd in Hds; inversion Hds; assumption).
  unfold parseInt.
  assert (Htrim : trim_start (digits_string (Z_digits n) +:+ rest)
                  = digits_string (Z_digits n) +:+ rest).
  { rewrite Hd. cbn [digits_string]. rewrite append_cons. apply trim_start_digit, Hd10. }
  rewrite Htrim.
  assert (Hsign : forall r,
             match digits_string (Z_digits n) +:+ rest with
             | String c r' =>
                 if Ascii.eqb c "-" then (true, r')
                 else if Ascii.eqb c "+" then (false, r')
                 else (false, digits_string (Z_digits n) +:+ rest)
             | EmptyString => (false, r)
             end = (false, digits_string (Z_digits n) +:+ rest)).
  { intros r. rewrite Hd. cbn [digits_string]. rewrite append_cons.
    rewrite !digit_char_eqb by (exact Hd10 || reflexivity). reflexivity. }
  rewrite Hsign. cbn [fst snd].
  rewrite (scan_digits_app _ _ Hds Hrest), Hval.
  rewrite Hd. reflexivity.
Qed.

(** X20. A configuration that [loadConfig] returns has a port that is a
    positive integer, an environment that is one of development, production
    and test, a log level that is one of debug, info, warn and error, and a
    base URL that the URL parser accepts; the name, the version, the host and
    the API key are those of the environment, or the defaults. The port has
    no upper bound: a number above 65535 is accepted. *)
Theorem loadConfig_validates env c :
  loadConfig URL_ok env = Some c ->
  0 < port c < double_overflow_bound
  /\ In (nodeEnv c) ["development"; "production"; "test"]
  /\ In (logLevel c) ["debug"; "info"; "warn"; "error"]
  /\ URL_ok (skyfiApiBaseUrl c) = true
  /\ serverName c = env_or env "SERVER_NAME" "skyfi-mcp-server"
  /\ version c = env_or env "npm_package_version" "0.1.0"
  /\ host c = env_or env "HOST" "0.0.0.0"
  /\ skyfiApiKey c = env !! "SKYFI_API_KEY".
Proof.
  unfold loadConfig.
  set (p := match env !! "PORT" with
            | Some (String ch r) => parseInt (String ch r)
            | _ => Some 3000
            end).
  destruct (z_enum ["development"; "production"; "test"] _) eqn:Hn; [| discriminate].
  destruct (positive_int p) eqn:Hp; [| discriminate].
  destruct (z_enum ["debug"; "info"; "warn"; "error"] _) eqn:Hl; [| discriminate].
  destruct (URL_ok _) eqn:Hu; [| discriminate].
  cbn [andb]. destruct p as [n |]; [| discriminate].
  intros H. injection H as <-.
  cbn [port nodeEnv logLevel skyfiApiBaseUrl serverName version host skyfiApiKey].
  apply andb_true_iff in Hp as [Hp1 Hp2].
  apply Z.ltb_lt in Hp1, Hp2. apply z_enum_In in Hn, Hl.
  repeat (split; [assumption || reflexivity || lia |]). reflexivity.
Qed.

(** X21. The port, when the other variables are acceptable. With [PORT] not
    set, or set to the empty string, the port is 3000. With [PORT] set to the
    decimal text of a positive integer that a double holds exactly, followed
    or not by other characters (as in 8080abc), the port is that integer. With [PORT] set to a text
    that is not empty and in which [parseInt] finds no number, or finds zero
    or a negative number, there is no configuration: loading it throws. *)
Theorem loadConfig_port env :
  z_enum ["development"; "production"; "test"] (env_or env "NODE_ENV" "development") = true ->
  z_enum ["debug"; "info"; "warn"; "error"] (env_or env "LOG_LEVEL" "info") = true ->
  URL_ok (env_or env "SKYFI_API_BASE_URL" "https://api.skyfi.com/v1") = true ->
  (env !! "PORT" = None \/ env !! "PORT" = Some "" ->
   exists c, loadConfig URL_ok env = Some c /\ port c = 3000)
  /\ (forall n rest,
        0 < n <= 2 ^ 53 -> not_digit_start rest ->
        env !! "PORT" = Some (digits_string (Z_digits n) +:+ rest) ->
        exists c, loadConfig URL_ok env = Some c /\ port c = n)
  /\ (forall text,
        env !! "PORT" = Some text -> text <> "" ->
        parseInt text = None \/ (exists n, parseInt text = Some n /\ n <= 0) ->
        loadConfig URL_ok env = None).
Proof.
  intros Hn Hl Hu. split; [| split].
  - intros [Hp | Hp]; unfold loadConfig; rewrite Hp, Hn, Hl, Hu;
      eexists; (split; [reflexivity | reflexivity]).
  - intros n rest [Hpos Hexact] Hrest Hp.
    assert (Hbound : n < double_overflow_bound).
    { apply Z.le_lt_trans with (2 ^ 53); [exact Hexact | vm_compute; reflexivity]. }
    pose proof (parseInt_decimal n rest Hpos Hrest) as Hparse.
    unfold loadConfig. rewrite Hp, Hn, Hl, Hu.
    destruct (digits_string (Z_digits n) +:+ rest) as [| ch r] eqn:Htext.
    { exfalso. unfold parseInt in Hparse. cbn in Hparse. discriminate. }
    rewrite Hparse. cbn [positive_int].
    replace (0 <? n)%Z with true by (symmetry; apply Z.ltb_lt; lia).
    replace (n <? double_overflow_bound)%Z with true by (symmetry; apply Z.ltb_lt; lia).
    eexists. split; reflexivity.
  - intros text Hp Hne Hbad. unfold loadConfig. rewrite Hp.
    destruct text as [| ch r]; [contradiction |].
    destruct Hbad as [-> | (n & -> & Hle)].
    + cbn [positive_int]. rewrite andb_false_r. reflexivity.
    + cbn [positive_int].
      replace (0 <? n)%Z with false by (symmetry; apply Z.ltb_ge; lia).
      cbn [andb]. rewrite andb_false_r. reflexivity.
Qed.

End Startup.

(** ** The properties above at concrete requests *)

Section Instances.
Import JSON Zod Protocol MCPServer Transport Traces Scenarios Bodies Streams Texts Examples.
Local Open Scope string_scope.

Lemma initialize_accepted_exactly_witness :
  handleRequest default_config 0 initialize_request new_Manager
  = (Return (JObj [("protocolVersion", JStr "1.0.0");
                   ("serverInfo", JObj [("name", JStr "skyfi-mcp-server");
                                        ("version", JStr "0.1.0")]);
                   ("capabilities", JObj [("tools", JObj [])])]),
     {| initialized := true |}).
Proof.
  destruct (initialize_accepted_exactly default_config 0 initialize_request new_Manager eq_refl)
    as (Hiff & Hret & _).
  destruct (proj2 Hiff) as (r & st' & H).
  { exists [("protocolVersion", JStr "1.0.0")], "1.0.0".
    split; [reflexivity |]. split; [reflexivity |]. split; left; reflexivity. }
  destruct (Hret r st' H) as [Hr Hst]. rewrite H, Hr, Hst. reflexivity.
Defined.

Lemma tools_list_always_served_witness :
  handleRequest default_config 0 tools_list_request {| initialized := true |}
  = (Return (JObj [("tools", JArr [])]), {| initialized := true |}).
Proof.
  apply (tools_list_always_served default_config 0 tools_list_request {| initialized := true |});
    reflexivity.
Defined.

Lemma tools_call_never_returns_witness :
  exists e,
    handleRequest default_config 0 call_unknown_tool {| initialized := true |}
    = (Throw e, {| initialized := true |})
    /\ err_code e = Some (-32601).
Proof.
  destruct (tools_call_never_returns default_config 0 call_unknown_tool
              {| initialized := true |} eq_refl) as (e & H & _ & Hinit).
  exists e. split; [exact H |].
  apply (proj1 (Hinit eq_refl)).
  exists [("name", JStr "unknown-tool"); ("arguments", JObj [])], "unknown-tool".
  split; [reflexivity |]. split; [reflexivity |]. right. exists []. reflexivity.
Defined.

Lemma failed_request_leaves_session_witness :
  err_code (createError INVALID_REQUEST "Server not initialized. Call initialize first.")
  <> Some (code_of INVALID_PARAMS).
Proof.
  apply (failed_request_leaves_session default_config 0 call_without_params new_Manager
           (createError INVALID_REQUEST "Server not initialized. Call initialize first.")
           new_Manager).
  reflexivity.
Defined.

Lemma method_not_found_iff_witness :
  err_code (createMethodNotFoundError "Tool not found: unknown-tool")
  = Some (code_of METHOD_NOT_FOUND)
  <-> recognized (method call_unknown_tool) = false
      \/ (method call_unknown_tool = "tools/call" /\ initialized {| initialized := true |} = true
          /\ exists v, validateRequest call_unknown_tool toolsCallRequestSchema = Return v).
Proof.
  apply (method_not_found_iff default_config 0 call_unknown_tool {| initialized := true |}
           (createMethodNotFoundError "Tool not found: unknown-tool")
           {| initialized := true |}).
  reflexivity.
Defined.

Lemma success_envelope_echoes_id_witness :
  JSON_parse ping_odd = Some (JObj ping_odd_props)
  /\ exists r,
       post_mcp handler (Some ping_odd) new_Manager
       = (Return {| status := 200;
                    body := JObj [("jsonrpc", JStr "2.0");
                                  ("id", JNum (Finite 9007199254740992 0));
                                  ("result", r)] |}, new_Manager).
Proof.
  split; [vm_compute; reflexivity |].
  destruct (post_mcp handler (Some ping_odd) new_Manager) as [[resp | e] st'] eqn:E;
    [| vm_compute in E; discriminate].
  assert (Hst : status resp = 200 /\ st' = new_Manager)
    by (vm_compute in E; injection E as <- <-; split; reflexivity).
  destruct Hst as [Hs ->].
  destruct (success_envelope_echoes_id handler ping_odd new_Manager resp new_Manager E Hs)
    as (props & request & h & r & Hraw & Hid & _ & _ & _ & _ & Hbody & _).
  exists r. destruct resp as [s b]. cbn [status body] in Hs, Hbody. subst s b.
  assert (Hp : Some (JObj props) = Some (JObj ping_odd_props))
    by (rewrite <- Hraw; vm_compute; reflexivity).
  injection Hp as ->. cbn in Hid. injection Hid as <-. reflexivity.
Defined.

Lemma connect_then_close_witness :
  sse_close "c" (fst (sse_connect "c" 3 1800000 two_clients)) = two_clients
  /\ getSSEClientCount (fst (sse_connect "c" 3 1800000 two_clients)) = 3%nat.
Proof.
  destruct (connect_then_close "c" 3 1800000 two_clients)
    as (_ & _ & Hcount & _ & Hclose & _).
  - vm_compute. reflexivity.
  - split; [exact Hclose |]. rewrite Hcount. vm_compute. reflexivity.
Defined.

Lemma ended_streams_stay_silent_witness :
  End 2 = End 2 /\ 0%nat = 0%nat /\ NoDup [End 2].
Proof.
  apply (ended_streams_stay_silent sweep_then_broadcast two_clients) with (r := 2%nat)
                                                                          (later := [End 2]).
  - apply (bool_decide_unpack _). vm_compute. reflexivity.
  - vm_compute. reflexivity.
  - vm_compute. reflexivity.
  - apply list_elem_of_singleton. reflexivity.
  - lia.
  - apply list_elem_of_singleton. reflexivity.
  - reflexivity.
Defined.

Lemma route_serves_request_witness :
  post_mcp handler (Some ping_7) new_Manager
  = (Return {| status := 200;
               body := JObj [("jsonrpc", JStr "2.0"); ("id", JNum (Finite 7 0));
                             ("result", JObj [("status", JStr "pong");
                                              ("timestamp",
                                               JStr "1970-01-01T00:00:00.000Z")])] |},
     new_Manager).
Proof.
  apply (route_serves_request (handleRequest default_config 0) ping_7 ping_7_props
           (IdNumber (Finite 7 0)) "ping" None new_Manager);
    vm_compute; (discriminate || reflexivity).
Defined.

Lemma tools_list_over_http_witness :
  post_mcp handler (Some tools_list_3) new_Manager
  = (Throw (new_Error "Cannot access 'requestId' before initialization"), new_Manager).
Proof.
  apply (tools_list_over_http default_config 0 tools_list_3 tools_list_3_props
           (IdNumber (Finite 3 0)) None new_Manager);
    vm_compute; (discriminate || reflexivity).
Defined.

Lemma loadConfig_validates_witness :
  exists c,
    Configuration.loadConfig https_only port_env = Some c
    /\ 0 < Configuration.port c < double_overflow_bound.
Proof.
  eexists. split; [vm_compute; reflexivity |].
  apply (loadConfig_validates https_only port_env).
  vm_compute. reflexivity.
Defined.

Lemma loadConfig_port_witness :
  exists c,
    Configuration.loadConfig https_only port_env = Some c /\ Configuration.port c = 8080.
Proof.
  destruct (loadConfig_port https_only port_env) as (_ & Hport & _);
    try (vm_compute; reflexivity).
  apply (Hport 8080 "").
  - vm_compute. split; [reflexivity | discriminate].
  - exact I.
  - vm_compute. reflexivity.
Defined.

Lemma health_always_answers_witness :
  fst (fst (HTTPTransport.handle default_config handler "c" 3 0 health_check fresh_server))
  = {| HTTPTransport.res_status := 200;
       HTTPTransport.res_headers := HTTPTransport.cors_headers;
       HTTPTransport.res_content :=
         HTTPTransport.JsonContent
           (JObj [("status", JStr "healthy");
                  ("name", JStr "skyfi-mcp-server");
                  ("version", JStr "0.1.0");
                  ("timestamp", JStr "1970-01-01T00:00:00.000Z")]) |}.
Proof.
  destruct (health_always_answers default_config handler "c" 3 0 health_check fresh_server)
    as [H _].
  - reflexivity.
  - reflexivity.
  - exists None. reflexivity.
  - rewrite H. reflexivity.
Defined.

End Instances.

(** ** The text of a response *)

Section Responses.
Import JSON Protocol Examples.
Local Open Scope string_scope.

(** X23. The text [formatResponse] writes for a success response is JSON, and
    reading it back gives an object with exactly the [jsonrpc] of 2.0, the id
    of the response, the same string or the same finite number, and the
    result, in which a number that is not finite has become null; it has no
    [error] member. *)
Theorem success_response_round_trip rid result :
  finite_id rid = true ->
  wf_value (id_to_js rid) ->
  wf_value result ->
  JSON_parse (formatResponse (response_to_js (createSuccessResponse rid result)))
  = Some (JObj [("jsonrpc", JStr "2.0"); ("id", id_to_js rid); ("result", reread result)]).
Proof.
  intros Hfin Hid Hres. unfold formatResponse.
  rewrite JSON_parse_stringify.
  - cbn [createSuccessResponse response_to_js resp_id Protocol.result error app reread map
           fst snd].
    rewrite (reread_finite_id _ Hfin). reflexivity.
  - cbn [createSuccessResponse response_to_js resp_id Protocol.result error app].
    apply wf_value_obj. split.
    + apply (bool_decide_unpack _). vm_compute. reflexivity.
    + constructor; [exact I |]. constructor; [exact Hid |].
      constructor; [exact Hres |]. constructor.
Qed.

Lemma success_response_round_trip_witness :
  JSON_parse (formatResponse
                (response_to_js
                   (createSuccessResponse (IdString "a") (JObj [("tools", JArr [])]))))
  = Some (JObj [("jsonrpc", JStr "2.0"); ("id", JStr "a");
                ("result", JObj [("tools", JArr [])])]).
Proof.
  apply (success_response_round_trip (IdString "a") (JObj [("tools", JArr [])])).
  - reflexivity.
  - exact I.
  - apply wf_value_obj. split.
    + apply (bool_decide_unpack _). vm_compute. reflexivity.
    + constructor; [exact I |]. constructor.
Defined.

End Responses.

(** ** The session after a sequence of requests *)

Section History.
Import JSON Zod Protocol MCPServer.
Local Open Scope string_scope.

Variable config : Config.

(** X25. After any sequence of requests the session is initialized exactly
    when it was initialized before them or one of them is an initialize
    request that its schema accepts: no other request initializes the
    session, a refused initialize does not, and nothing that comes after an
    accepted one undoes it. *)
Theorem session_initialized_iff requests st :
  initialized (serve config requests st) = true
  <-> initialized st = true
      \/ Exists (fun r : Z * BaseRequest =>
                   method (snd r) = "initialize"
                   /\ exists v, validateRequest (snd r) initializeRequestSchema = Return v)
           requests.
Proof.
  revert st. induction requests as [| [now request] rest IH]; intros st.
  - cbn [serve]. split; [auto |]. intros [H | H]; [exact H | inversion H].
  - cbn [serve]. rewrite IH. split.
    + intros [H | H]; [| right; apply Exists_cons_tl, H].
      destruct (initialized st) eqn:Hst; [auto |]. right. apply Exists_cons_hd.
      destruct (handleRequest_sets_initialized config now request st Hst H) as [Hm [v Hv]].
      split; [exact Hm |]. cbn [snd].
      rewrite (handleRequest_initialize config now request st Hm), handleInitialize_eq in Hv.
      destruct (validateRequest request initializeRequestSchema) as [v' | e];
        [eauto | discriminate].
    + intros [H | H].
      * left. apply handleRequest_keeps_initialized, H.
      * apply Exists_cons in H as [[Hm [v Hv]] | H]; [| auto]. left.
        cbn [snd] in Hm, Hv.
        rewrite (handleRequest_initialize config now request st Hm), handleInitialize_eq, Hv.
        reflexivity.
Qed.

End History.
